(** * Voice agent: a shallow embedding of the per-call streaming core

    The Python sources embedded here are
    - [lib/audio_buffer.py]          (classes [AudioBuffer],
      [CircularAudioBuffer]),
    - [lib/enhanced_vad.py]          (classes [EnhancedVAD], [VADSmoother]),
    - [lib/interruption_handler.py]  (classes [SpeechQueue],
      [AudioPlaybackController], [InterruptionHandler]),
    - [lib/streaming_orchestrator.py] (classes [LatencyTracker],
      [StreamCoordinator], [StreamingOrchestrator]),
    - [lib/llm_client.py]            (methods [_build_messages],
      [_check_rate_limit] and the retry loops of [generate] and
      [generate_stream] of [LLMClient]),
    - [lib/conversation.py]          (classes [Turn], [ConversationContext]),
    - [server.py], [config.py]       (the registry [active_calls] and the
      prefixes of the numbers that may be called).

    Conventions of the embedding.
    - Python [int] is [Z]; [len] returns a [Z].
    - [bytes] is [list Byte.byte]; [str] is [string], read as a sequence of
      code points below 256.
    - A reading of [time.time()] is an exact rational [Q]; the rounding of
      binary floating point is not modelled.  The readings come from a
      clock that every method threads through (monad [M] below), so each
      call of [time.time()] in the source is one [time_time] here.
    - A Python object with mutable attributes is a record, and a method is
      a function from the record to the updated record.
    - A callback an object may hold is a flag saying whether it is set; each
      invocation is recorded as an output event. *)

From Stdlib Require Import ZArith QArith Lqa List String Ascii Lia Permutation Sorted.
From stdpp Require Import base gmap strings list pretty.

Open Scope Z_scope.

(* ===================================================================== *)
(** * Part I: the embedding *)
(* ===================================================================== *)

(** ** Python built-ins used by the sources *)

Module Py.

Definition bytes := list Byte.byte.

Definition len_bytes (b : bytes) : Z := Z.of_nat (length b).

Definition len_list {A} (l : list A) : Z := Z.of_nat (length l).

Definition len (s : string) : Z := Z.of_nat (String.length s).

(** [int(x / 1000)] for an integer [x]: true division, then truncation
    towards zero (exact whenever [x] is exactly representable). *)
Definition int_div_1000 (x : Z) : Z := Z.quot x 1000.

(** [str.isspace] on one code point below 256: TAB, LF, VT, FF, CR,
    FS, GS, RS, US, SPACE, NEL and NBSP. *)
Definition isspace (c : ascii) : bool :=
  let n := N_of_ascii c in
  ((9 <=? n) && (n <=? 13) || (28 <=? n) && (n <=? 32)
   || (n =? 133) || (n =? 160))%N.

Fixpoint dropwhile {A} (p : A -> bool) (l : list A) : list A :=
  match l with
  | [] => []
  | x :: l' => if p x then dropwhile p l' else l
  end.

Definition chars (s : string) : list ascii := list_ascii_of_string s.
Definition str (l : list ascii) : string := string_of_list_ascii l.

(** [s.rstrip()], [s.lstrip()] and [s.strip()] without argument. *)
Definition rstrip (s : string) : string :=
  str (rev (dropwhile isspace (rev (chars s)))).
Definition lstrip (s : string) : string :=
  str (dropwhile isspace (chars s)).
Definition strip (s : string) : string := rstrip (lstrip s).

(** Truth value of a [str]: the empty string is false. *)
Definition truthy (s : string) : bool :=
  match s with EmptyString => false | _ => true end.

(** Truth value of a [list]: the empty list is false. *)
Definition truthy_list {A} (l : list A) : bool :=
  match l with [] => false | _ => true end.

(** [s.startswith(p)] and [s.endswith(p)]. *)
Definition startswith (s p : string) : bool := String.prefix p s.
Definition endswith (s p : string) : bool :=
  String.prefix (str (rev (chars p))) (str (rev (chars s))).

(** [s.endswith((p1, ..., pn))] with a tuple of suffixes. *)
Definition endswith_any (s : string) (ps : list string) : bool :=
  existsb (endswith s) ps.

(** [sub in s] for strings. *)
Fixpoint contains (sub s : string) : bool :=
  String.prefix sub s
  || match s with
     | EmptyString => false
     | String _ s' => contains sub s'
     end.

(** [s.lower()] on code points below 256: A-Z and the capital letters
    of Latin-1 (0xC0-0xDE without the multiplication sign 0xD7). *)
Definition lower_char (c : ascii) : ascii :=
  let n := N_of_ascii c in
  if ((65 <=? n) && (n <=? 90)
      || (192 <=? n) && (n <=? 222) && negb (n =? 215))%N
  then ascii_of_N (n + 32) else c.

Fixpoint lower (s : string) : string :=
  match s with
  | EmptyString => EmptyString
  | String c s' => String (lower_char c) (lower s')
  end.

(** ["".join(l)] *)
Definition join (l : list string) : string := String.concat "" l.

(** [l[start:]] for an integer [start]: a negative [start] counts from
    the end and is clamped at the beginning of the list. *)
Definition slice_from {A} (start : Z) (l : list A) : list A :=
  let n := len_list l in
  let i := if start <? 0 then Z.max 0 (start + n) else start in
  drop (Z.to_nat i) l.

(** The last [n] elements of a list, or all of them. *)
Definition keep_last {A} (n : nat) (l : list A) : list A :=
  drop (length l - n) l.

(** [l[-k:]]: the slice whose start is the integer [-k].  Since [-0] is
    [0], [l[-0:]] is the whole list. *)
Definition last_slice {A} (k : Z) (l : list A) : list A :=
  slice_from (- k) l.

(** [l.sort(key=key, reverse=True)] with integer keys: the stable sort
    by decreasing key (elements with equal keys keep their order).  The
    result of a stable sort is determined by the list, so the algorithm
    is free: each element in turn is put behind the elements whose key is
    not smaller. *)
Fixpoint insert_desc {A} (key : A -> Z) (x : A) (l : list A) : list A :=
  match l with
  | [] => [x]
  | y :: l' => if key y <? key x then x :: l else y :: insert_desc key x l'
  end.

Definition sort_desc {A} (key : A -> Z) (l : list A) : list A :=
  fold_left (fun acc x => insert_desc key x acc) l [].

(** [d.append(x)] on a [deque(maxlen=maxlen)]: when the deque is full
    the oldest element leaves. *)
Definition deque_append {A} (maxlen : Z) (x : A) (d : list A) : list A :=
  let d' := d ++ [x] in
  if maxlen <? len_list d' then tl d' else d'.

(** [sum(l)] for a list of floats, exact. *)
Definition sum_Q (l : list Q) : Q := fold_left Qplus l 0%Q.

(** [max(l)] for a list of strings that is not empty: strings compare by
    code points, and the first of the largest elements is returned. *)
Definition max_str (first : string) (rest : list string) : string :=
  fold_left (fun acc x => if String.ltb acc x then x else acc) rest first.

(** [any(k in s for k in keywords)] *)
Definition any_in (keywords : list string) (s : string) : bool :=
  existsb (fun k => contains k s) keywords.

(** [time.time()] compared as in [if t:]: a float is false when zero. *)
Definition truthy_time (t : Q) : bool := negb (Qeq_bool t 0).

Definition Qltb (x y : Q) : bool := negb (Qle_bool y x).

(** [(t1 - t0) * 1000]: the milliseconds between two readings. *)
Definition elapsed_ms (t1 t0 : Q) : Q := ((t1 - t0) * 1000)%Q.

End Py.

(** ** The clock

  [time.time()] is the only source of time.  A clock is the sequence of
  its future readings; a method that reads the time consumes readings. *)

Module Clock.

Definition t := nat -> Q.

Definition M (A : Type) : Type := t -> A * t.

Definition ret {A} (a : A) : M A := fun c => (a, c).

Definition bind {A B} (m : M A) (k : A -> M B) : M B :=
  fun c => let (a, c') := m c in k a c'.

(** [time.time()] *)
Definition time_time : M Q := fun c => (c 0%nat, fun n => c (S n)).

Definition run {A} (m : M A) (c : t) : A := fst (m c).

(** A clock that reads the given instants, then stays at the last. *)
Definition of_list (l : list Q) : t :=
  fun n => nth n l (List.last l 0%Q).

End Clock.

Notation "'let!' x ':=' m 'in' k" := (Clock.bind m (fun x => k))
  (at level 10, x pattern, m at level 100, k at level 200).

(** ** lib/audio_buffer.py *)

Module AudioBuffer.
Import Py.

(** The [asyncio.Task] of the playback loop, as far as the buffer looks
    at it ([done()] and [cancel()]). *)
Inductive Task := TaskRunning | TaskDone | TaskCancelled.

Definition task_done (t : Task) : bool :=
  match t with TaskRunning => false | _ => true end.

Record t := mk {
  jitter_buffer_ms : Z;
  max_buffer_ms : Z;
  chunk_size_ms : Z;
  sample_rate : Z;
  chunk_size_bytes : Z;
  max_buffer_size : Z;
  buffer : list bytes;            (* deque, oldest chunk first *)
  total_buffered_bytes : Z;
  is_playing : bool;
  interrupted : bool;
  playback_task : option Task;
  on_chunk_callback : bool;
  total_bytes_played : Z;
  underruns : Z;
  overruns : Z
}.

(** [AudioBuffer.__init__] *)
Definition init (jitter_ms max_ms chunk_ms rate : Z) : t :=
  {| jitter_buffer_ms := jitter_ms;
     max_buffer_ms := max_ms;
     chunk_size_ms := chunk_ms;
     sample_rate := rate;
     chunk_size_bytes := int_div_1000 (rate * chunk_ms);
     max_buffer_size := int_div_1000 (rate * max_ms);
     buffer := [];
     total_buffered_bytes := 0;
     is_playing := false;
     interrupted := false;
     playback_task := None;
     on_chunk_callback := false;
     total_bytes_played := 0;
     underruns := 0;
     overruns := 0 |}.

(** The defaults of the constructor: 100 ms, 500 ms, 20 ms, 8000 Hz. *)
Definition default : t := init 100 500 20 8000.

Definition with_buffer (b : t) (buf : list bytes) (total : Z) : t :=
  {| jitter_buffer_ms := jitter_buffer_ms b;
     max_buffer_ms := max_buffer_ms b;
     chunk_size_ms := chunk_size_ms b;
     sample_rate := sample_rate b;
     chunk_size_bytes := chunk_size_bytes b;
     max_buffer_size := max_buffer_size b;
     buffer := buf;
     total_buffered_bytes := total;
     is_playing := is_playing b;
     interrupted := interrupted b;
     playback_task := playback_task b;
     on_chunk_callback := on_chunk_callback b;
     total_bytes_played := total_bytes_played b;
     underruns := underruns b;
     overruns := overruns b |}.

Definition with_flags (b : t) (playing intr : bool) (task : option Task)
    (cb : bool) : t :=
  {| jitter_buffer_ms := jitter_buffer_ms b;
     max_buffer_ms := max_buffer_ms b;
     chunk_size_ms := chunk_size_ms b;
     sample_rate := sample_rate b;
     chunk_size_bytes := chunk_size_bytes b;
     max_buffer_size := max_buffer_size b;
     buffer := buffer b;
     total_buffered_bytes := total_buffered_bytes b;
     is_playing := playing;
     interrupted := intr;
     playback_task := task;
     on_chunk_callback := cb;
     total_bytes_played := total_bytes_played b;
     underruns := underruns b;
     overruns := overruns b |}.

Definition with_stats (b : t) (played under over : Z) : t :=
  {| jitter_buffer_ms := jitter_buffer_ms b;
     max_buffer_ms := max_buffer_ms b;
     chunk_size_ms := chunk_size_ms b;
     sample_rate := sample_rate b;
     chunk_size_bytes := chunk_size_bytes b;
     max_buffer_size := max_buffer_size b;
     buffer := buffer b;
     total_buffered_bytes := total_buffered_bytes b;
     is_playing := is_playing b;
     interrupted := interrupted b;
     playback_task := playback_task b;
     on_chunk_callback := on_chunk_callback b;
     total_bytes_played := played;
     underruns := under;
     overruns := over |}.

(** [deque.popleft()]; [None] stands for the [IndexError] on an empty
    deque. *)
Definition popleft {A} (q : list A) : option (A * list A) :=
  match q with
  | [] => None
  | x :: q' => Some (x, q')
  end.

(** [AudioBuffer.add_audio] *)
Definition add_audio (audio_data : bytes) (b : t) : t :=
  if interrupted b then b
  else
    let buf := buffer b ++ [audio_data] in
    let total := total_buffered_bytes b + len_bytes audio_data in
    if max_buffer_size b <? total then
      match popleft buf with
      | Some (dropped, rest) =>
          with_stats (with_buffer b rest (total - len_bytes dropped))
                     (total_bytes_played b) (underruns b) (overruns b + 1)
      | None => with_buffer b buf total   (* not reached: [buf] is not empty *)
      end
    else with_buffer b buf total.

(** [AudioBuffer.start_playback], up to its first suspension: the guard
    on [is_playing] and the three assignments. *)
Definition start_playback (b : t) : t :=
  if is_playing b then b
  else with_flags b true false (playback_task b) true.

(** The rest of [start_playback], after the wait for the jitter buffer:
    [self.playback_task = asyncio.create_task(self._playback_loop())]. *)
Definition start_playback_spawn (b : t) : t :=
  with_flags b (is_playing b) (interrupted b) (Some TaskRunning)
             (on_chunk_callback b).

(** One round of the [while] loop of [_playback_loop].  The result has
    the chunk handed to the callback, if any.  When the loop condition
    fails the [finally] clause runs and the task is done. *)
Definition playback_loop_step (b : t) : option bytes * t :=
  if is_playing b && negb (interrupted b) then
    match popleft (buffer b) with
    | None =>
        (None, with_stats b (total_bytes_played b) (underruns b + 1) (overruns b))
    | Some (chunk, rest) =>
        let b1 := with_buffer b rest (total_buffered_bytes b - len_bytes chunk) in
        (if on_chunk_callback b then Some chunk else None,
         with_stats b1 (total_bytes_played b + len_bytes chunk)
                    (underruns b) (overruns b))
    end
  else
    (None, with_flags b false (interrupted b)
                      (match playback_task b with
                       | Some TaskRunning => Some TaskDone
                       | o => o
                       end)
                      (on_chunk_callback b)).

(** [AudioBuffer._apply_fadeout] returns its argument on every path. *)
Definition _apply_fadeout (audio_data : bytes) (duration_ms : Z) : bytes :=
  audio_data.

(** [AudioBuffer.stop_playback], up to the wait for the playback task:
    the last chunk is replaced by its faded version, [is_playing] is
    cleared. *)
Definition stop_playback (smooth : bool) (b : t) : t :=
  if negb (is_playing b) then b
  else
    let buf :=
      if smooth then
        match rev (buffer b) with
        | [] => buffer b
        | last_chunk :: front => rev front ++ [_apply_fadeout last_chunk 50]
        end
      else buffer b in
    with_flags (with_buffer b buf (total_buffered_bytes b))
               false (interrupted b) (playback_task b) (on_chunk_callback b).

(** [AudioBuffer.interrupt] *)
Definition interrupt (b : t) : t :=
  let task :=
    match playback_task b with
    | Some tk => if negb (task_done tk) then Some TaskCancelled else Some tk
    | None => None
    end in
  with_flags (with_buffer b [] 0) false true task (on_chunk_callback b).

(** [AudioBuffer.reset] *)
Definition reset (b : t) : t :=
  with_stats
    (with_flags (with_buffer b [] 0) false false (playback_task b)
                (on_chunk_callback b))
    0 (underruns b) (overruns b).

(** The bytes held by the deque. *)
Definition buffered_bytes (b : t) : Z :=
  fold_right (fun chunk acc => len_bytes chunk + acc) 0 (buffer b).

(** The calls a client of the buffer can make, and the rounds of the
    playback loop between them. *)
Inductive Op :=
| OpAdd (audio_data : bytes)
| OpStartPlayback
| OpSpawn
| OpLoopStep
| OpStopPlayback (smooth : bool)
| OpInterrupt
| OpReset.

Definition step (o : Op) (b : t) : t :=
  match o with
  | OpAdd d => add_audio d b
  | OpStartPlayback => start_playback b
  | OpSpawn => start_playback_spawn b
  | OpLoopStep => snd (playback_loop_step b)
  | OpStopPlayback s => stop_playback s b
  | OpInterrupt => interrupt b
  | OpReset => reset b
  end.

Definition run (ops : list Op) (b : t) : t :=
  fold_left (fun acc o => step o acc) ops b.

(** Only [reset] and [start_playback] assign [False] to [interrupted]. *)
Definition clears_interrupted (o : Op) : bool :=
  match o with
  | OpStartPlayback | OpReset => true
  | _ => false
  end.



(** A chunk of [n] bytes of silence. *)
Definition silence (n : nat) : bytes := repeat Byte.xff n.

End AudioBuffer.

(** ** lib/streaming_orchestrator.py *)

Module StreamCoordinator.
Import Py.

Record t := mk {
  chunk_size : Z;
  buffer : list string;           (* the tokens not yet sent *)
  flushed : bool
}.

(** [StreamCoordinator.__init__]; the default of [chunk_size] is 512. *)
Definition init (chunk_size : Z) : t :=
  {| chunk_size := chunk_size; buffer := []; flushed := false |}.

(** [StreamCoordinator._flush_buffer] *)
Definition _flush_buffer (c : t) : string * t :=
  let text := join (buffer c) in
  (text, {| chunk_size := chunk_size c; buffer := []; flushed := flushed c |}).

(** [StreamCoordinator.add_token]; [None] is Python's [None]. *)
Definition add_token (token : string) (c : t) : option string * t :=
  let c1 := {| chunk_size := chunk_size c;
               buffer := buffer c ++ [token];
               flushed := flushed c |} in
  let current_text := join (buffer c1) in
  if chunk_size c1 <=? len current_text then
    let (text, c2) := _flush_buffer c1 in (Some text, c2)
  else if endswith_any (rstrip current_text) ["."; "!"; "?"]%string then
    let (text, c2) := _flush_buffer c1 in (Some text, c2)
  else if (100 <? len current_text) && endswith (rstrip current_text) "," then
    let (text, c2) := _flush_buffer c1 in (Some text, c2)
  else (None, c1).

(** [StreamCoordinator.flush] *)
Definition flush (c : t) : option string * t :=
  if truthy_list (buffer c) && negb (flushed c) then
    let c1 := {| chunk_size := chunk_size c;
                 buffer := buffer c;
                 flushed := true |} in
    let (text, c2) := _flush_buffer c1 in (Some text, c2)
  else (None, c).

(** The flush rules of a token in the words of the specification: the
    length reaches the chunk size, or the text ends with a sentence mark,
    or it is longer than 100 and ends with a comma. *)
Definition spec_flush_rule (chunk_size : Z) (text : string) : bool :=
  (chunk_size <=? len text)
  || endswith_any text ["."; "!"; "?"]%string
  || (100 <? len text) && endswith text ",".

(** [text] is [body], then the character [c], then white space only. *)
Definition ends_with_upto_space (text : string) (c : ascii) : Prop :=
  exists body ws : string,
    text = (body ++ String c ws)%string /\
    forallb isspace (chars ws) = true.

(** The flush rules of [add_token]: the length reaches the chunk size, or
    the text, white space at its end apart, ends with a sentence mark, or
    it is longer than 100 and, white space at its end apart, ends with a
    comma. *)
Definition flush_rule (chunk_size : Z) (text : string) : Prop :=
  chunk_size <= len text
  \/ (ends_with_upto_space text "."%char
      \/ ends_with_upto_space text "!"%char
      \/ ends_with_upto_space text "?"%char)
  \/ (100 < len text /\ ends_with_upto_space text ","%char).

End StreamCoordinator.

Module StreamingOrchestrator.
Import Py.

(** The calls made on the TTS WebSocket [tts_ws] after [connect()]. *)
Inductive TtsCall :=
| SendText (text : string) (flush : bool)
| FlushCall
| CloseCall.

(** The dictionary returned by [_streaming_pipeline].  The two latency
    entries depend on how the tasks of the run interleave and are left
    out. *)
Record Result := mkResult {
  response_text : string;
  streaming_mode : string
}.

(** The [async for] loop over the LLM stream. *)
Fixpoint llm_loop (tokens : list string) (coordinator : StreamCoordinator.t)
    (response_tokens : list string) (sent : list TtsCall)
    : StreamCoordinator.t * list string * list TtsCall :=
  match tokens with
  | [] => (coordinator, response_tokens, sent)
  | token :: rest =>
      let response_tokens := response_tokens ++ [token] in
      let (chunk, coordinator) := StreamCoordinator.add_token token coordinator in
      let sent :=
        match chunk with
        | Some text => if truthy text then sent ++ [SendText text false] else sent
        | None => sent
        end in
      llm_loop rest coordinator response_tokens sent
  end.

Section Pipeline.

(** The audio chunks the TTS service answers to one text it is sent. *)
Variable tts : string -> list bytes.

(** The sink [on_audio] the caller passes in: a state and what one chunk
    does to it. *)
Variable Sink : Type.
Variable on_audio : bytes -> Sink -> Sink.

Definition tts_audio (calls : list TtsCall) : list bytes :=
  flat_map (fun call => match call with
                        | SendText text _ => tts text
                        | _ => []
                        end) calls.

(** [playback_loop]: every chunk of the queue goes to [on_audio], in
    order, until the end marker. *)
Definition playback_loop (audio : list bytes) (sink : Sink) : Sink :=
  fold_left (fun acc chunk => on_audio chunk acc) audio sink.

(** [StreamingOrchestrator._streaming_pipeline] on a stream of LLM tokens
    that ends: the result, the calls made on the TTS socket, and the
    sink after the playback task has finished. *)
Definition _streaming_pipeline (stream_chunk_size : Z) (tokens : list string)
    (sink : Sink) : Result * list TtsCall * Sink :=
  let coordinator := StreamCoordinator.init stream_chunk_size in
  let '(coordinator, response_tokens, sent) := llm_loop tokens coordinator [] [] in
  let (final_chunk, _) := StreamCoordinator.flush coordinator in
  let sent :=
    match final_chunk with
    | Some text => if truthy text then sent ++ [SendText text true]
                   else sent ++ [FlushCall]
    | None => sent ++ [FlushCall]
    end in
  let sent := sent ++ [CloseCall] in
  let sink := playback_loop (tts_audio sent) sink in
  ({| response_text := join response_tokens; streaming_mode := "concurrent" |},
   sent, sink).

(** The texts sent to the TTS socket. *)
Definition sent_texts (calls : list TtsCall) : list string :=
  flat_map (fun call => match call with
                        | SendText text _ => [text]
                        | _ => []
                        end) calls.

(** The text that was heard, in the words of the specification: the texts
    whose audio chunks are all among the first [n_played] chunks. *)
Fixpoint played_prefix (texts : list string) (n_played : nat) : string :=
  match texts with
  | [] => ""
  | text :: rest =>
      let n := length (tts text) in
      if (n <=? n_played)%nat
      then (text ++ played_prefix rest (n_played - n))%string
      else ""
  end.

End Pipeline.

(** A sink for runs with barge-in: the playback buffer, the chunks its
    loop has handed to the carrier, and the number of chunks after which
    the interruption handler calls [AudioBuffer.interrupt] ([None]: the
    user does not barge in). *)
Record BufferSink := mkSink {
  audio_buffer : AudioBuffer.t;
  played : list bytes;
  barge_in_after : option nat
}.

(** One chunk arrives: the handler interrupts first if its time has
    come; the chunk is added; the playback loop makes one round. *)
Definition buffer_on_audio (chunk : bytes) (s : BufferSink) : BufferSink :=
  let b :=
    match barge_in_after s with
    | Some O => AudioBuffer.interrupt (audio_buffer s)
    | _ => audio_buffer s
    end in
  let b := AudioBuffer.add_audio chunk b in
  let (out, b) := AudioBuffer.playback_loop_step b in
  {| audio_buffer := b;
     played := played s ++ match out with Some c => [c] | None => [] end;
     barge_in_after :=
       match barge_in_after s with
       | Some (S n) => Some n
       | o => o
       end |}.

(** The sink at the start of a run: a default buffer that is playing. *)
Definition playing_sink (barge_in : option nat) : BufferSink :=
  {| audio_buffer :=
       AudioBuffer.start_playback_spawn
         (AudioBuffer.start_playback AudioBuffer.default);
     played := [];
     barge_in_after := barge_in |}.

(** A TTS that answers one frame of 160 bytes to every text. *)
Definition one_frame_tts (text : string) : list bytes :=
  [AudioBuffer.silence 160].

End StreamingOrchestrator.

(** ** lib/enhanced_vad.py *)

Module EnhancedVAD.
Import Py.

(** The calls of the two callbacks of the detector. *)
Inductive Callback := SpeechStarted | SpeechEnded.

Record t := mk {
  vad_sensitivity : Q;
  min_speech_duration_ms : Z;
  debounce_ms : Z;
  energy_threshold : Q;
  energy_window_size : Z;
  is_speech_active : bool;
  speech_start_time : option Q;
  last_event_time : option Q;
  deepgram_vad_available : bool;
  last_deepgram_event : option string;
  energy_buffer : list Q;           (* deque(maxlen=energy_window_size) *)
  total_speech_events : Z;
  deepgram_events : Z;
  local_vad_events : Z;
  filtered_events : Z;
  on_speech_started : bool;
  on_speech_ended : bool
}.

(** [EnhancedVAD.__init__], with the three entries of
    [config["interruption"]] and the two callbacks as arguments. *)
Definition init (vad_sensitivity : Q) (min_speech_duration_ms debounce_ms : Z)
    (on_speech_started on_speech_ended : bool) : t :=
  {| vad_sensitivity := vad_sensitivity;
     min_speech_duration_ms := min_speech_duration_ms;
     debounce_ms := debounce_ms;
     energy_threshold := (2 # 100)%Q;
     energy_window_size := 10;
     is_speech_active := false;
     speech_start_time := None;
     last_event_time := None;
     deepgram_vad_available := true;
     last_deepgram_event := None;
     energy_buffer := [];
     total_speech_events := 0;
     deepgram_events := 0;
     local_vad_events := 0;
     filtered_events := 0;
     on_speech_started := on_speech_started;
     on_speech_ended := on_speech_ended |}.

(** The defaults of the configuration: 0.7, 200 ms, 50 ms. *)
Definition default : t := init (7 # 10)%Q 200 50 true true.

Definition with_speech (v : t) (active : bool) (start last_event : option Q) : t :=
  {| vad_sensitivity := vad_sensitivity v;
     min_speech_duration_ms := min_speech_duration_ms v;
     debounce_ms := debounce_ms v;
     energy_threshold := energy_threshold v;
     energy_window_size := energy_window_size v;
     is_speech_active := active;
     speech_start_time := start;
     last_event_time := last_event;
     deepgram_vad_available := deepgram_vad_available v;
     last_deepgram_event := last_deepgram_event v;
     energy_buffer := energy_buffer v;
     total_speech_events := total_speech_events v;
     deepgram_events := deepgram_events v;
     local_vad_events := local_vad_events v;
     filtered_events := filtered_events v;
     on_speech_started := on_speech_started v;
     on_speech_ended := on_speech_ended v |}.

Definition with_counters (v : t) (total deepgram local filtered : Z) : t :=
  {| vad_sensitivity := vad_sensitivity v;
     min_speech_duration_ms := min_speech_duration_ms v;
     debounce_ms := debounce_ms v;
     energy_threshold := energy_threshold v;
     energy_window_size := energy_window_size v;
     is_speech_active := is_speech_active v;
     speech_start_time := speech_start_time v;
     last_event_time := last_event_time v;
     deepgram_vad_available := deepgram_vad_available v;
     last_deepgram_event := last_deepgram_event v;
     energy_buffer := energy_buffer v;
     total_speech_events := total;
     deepgram_events := deepgram;
     local_vad_events := local;
     filtered_events := filtered;
     on_speech_started := on_speech_started v;
     on_speech_ended := on_speech_ended v |}.

Definition with_inputs (v : t) (event : option string) (energies : list Q) : t :=
  {| vad_sensitivity := vad_sensitivity v;
     min_speech_duration_ms := min_speech_duration_ms v;
     debounce_ms := debounce_ms v;
     energy_threshold := energy_threshold v;
     energy_window_size := energy_window_size v;
     is_speech_active := is_speech_active v;
     speech_start_time := speech_start_time v;
     last_event_time := last_event_time v;
     deepgram_vad_available := deepgram_vad_available v;
     last_deepgram_event := event;
     energy_buffer := energies;
     total_speech_events := total_speech_events v;
     deepgram_events := deepgram_events v;
     local_vad_events := local_vad_events v;
     filtered_events := filtered_events v;
     on_speech_started := on_speech_started v;
     on_speech_ended := on_speech_ended v |}.

(** [EnhancedVAD._trigger_speech_started] *)
Definition _trigger_speech_started (v : t) : Clock.M (list Callback * t) :=
  if is_speech_active v then Clock.ret ([], v)
  else
    let! now := Clock.time_time in
    let v := with_speech v true (Some now) (last_event_time v) in
    let v := with_counters v (total_speech_events v + 1) (deepgram_events v)
               (local_vad_events v) (filtered_events v) in
    Clock.ret (if on_speech_started v then [SpeechStarted] else [], v).

(** The end of [_trigger_speech_ended], after the test of the duration. *)
Definition speech_ended (v : t) : list Callback * t :=
  let v := with_speech v false None (last_event_time v) in
  (if on_speech_ended v then [SpeechEnded] else [], v).

(** The filtered end of a speech that was too short. *)
Definition filter_short (v : t) : t :=
  let v := with_counters v (total_speech_events v) (deepgram_events v)
             (local_vad_events v) (filtered_events v + 1) in
  with_speech v false None (last_event_time v).

(** [EnhancedVAD._trigger_speech_ended] *)
Definition _trigger_speech_ended (v : t) : Clock.M (list Callback * t) :=
  if negb (is_speech_active v) then Clock.ret ([], v)
  else
    match speech_start_time v with
    | Some start =>
        if truthy_time start then
          let! now := Clock.time_time in
          let duration_ms := elapsed_ms now start in
          if Qltb duration_ms (inject_Z (min_speech_duration_ms v))
          then Clock.ret ([], filter_short v)
          else Clock.ret (speech_ended v)
        else Clock.ret (speech_ended v)
    | None => Clock.ret (speech_ended v)
    end.

(** The debounce test of [on_deepgram_vad_event]. *)
Definition debounced (v : t) (current_time : Q) : bool :=
  match last_event_time v with
  | Some last =>
      truthy_time last
      && Qltb (elapsed_ms current_time last) (inject_Z (debounce_ms v))
  | None => false
  end.

(** [EnhancedVAD.on_deepgram_vad_event] *)
Definition on_deepgram_vad_event (event_type : string) (v : t)
    : Clock.M (list Callback * t) :=
  let! current_time := Clock.time_time in
  let v := with_inputs v (Some event_type) (energy_buffer v) in
  let v := with_counters v (total_speech_events v) (deepgram_events v + 1)
             (local_vad_events v) (filtered_events v) in
  if debounced v current_time then Clock.ret ([], v)
  else
    let v := with_speech v (is_speech_active v) (speech_start_time v)
               (Some current_time) in
    if String.eqb event_type "SpeechStarted" then _trigger_speech_started v
    else if String.eqb event_type "UtteranceEnd" then _trigger_speech_ended v
    else Clock.ret ([], v).

(** [EnhancedVAD._calculate_energy] *)
Definition _calculate_energy (audio_data : bytes) : Q :=
  match audio_data with
  | [] => 0%Q
  | _ =>
      let total :=
        fold_left (fun acc b => acc + Z.abs (Z.of_N (Byte.to_N b) - 128))
                  audio_data 0 in
      let max_possible := 128 * len_bytes audio_data in
      if 0 <? max_possible
      then (inject_Z total / inject_Z max_possible)%Q
      else 0%Q
  end.

(** The energy window after the frame [audio_data], and the test on its
    running average. *)
Definition window_after (audio_data : bytes) (v : t) : list Q :=
  deque_append (energy_window_size v) (_calculate_energy audio_data)
               (energy_buffer v).

Definition avg_energy (window : list Q) : Q :=
  (sum_Q window / inject_Z (len_list window))%Q.

(** [EnhancedVAD.process_audio_frame] *)
Definition process_audio_frame (audio_data : bytes) (v : t)
    : Clock.M (list Callback * t) :=
  let window := window_after audio_data v in
  let v := with_inputs v (last_deepgram_event v) window in
  if len_list window <? energy_window_size v then Clock.ret ([], v)
  else
    let is_speech := Qltb (energy_threshold v) (avg_energy window) in
    let! current_time := Clock.time_time in
    if is_speech && negb (is_speech_active v) then
      let v := with_counters v (total_speech_events v) (deepgram_events v)
                 (local_vad_events v + 1) (filtered_events v) in
      _trigger_speech_started v
    else if negb is_speech && is_speech_active v then
      match speech_start_time v with
      | Some start =>
          if truthy_time start then
            let duration_ms := elapsed_ms current_time start in
            if Qle_bool (inject_Z (min_speech_duration_ms v)) duration_ms
            then _trigger_speech_ended v
            else Clock.ret ([], filter_short v)
          else Clock.ret ([], v)
      | None => Clock.ret ([], v)
      end
    else Clock.ret ([], v).

(** [EnhancedVAD.reset] *)
Definition reset (v : t) : t :=
  with_inputs (with_speech v false None None) (last_deepgram_event v) [].

(** The running average of the window is defined and above, or not
    above, the threshold. *)
Definition window_full (audio_data : bytes) (v : t) : Prop :=
  energy_window_size v <= len_list (window_after audio_data v).

Definition loud (audio_data : bytes) (v : t) : Prop :=
  (energy_threshold v < avg_energy (window_after audio_data v))%Q.

(** The speech state of the detector: what a discarded event leaves. *)
Definition same_speech_state (v v' : t) : Prop :=
  is_speech_active v' = is_speech_active v /\
  speech_start_time v' = speech_start_time v /\
  last_event_time v' = last_event_time v /\
  total_speech_events v' = total_speech_events v /\
  filtered_events v' = filtered_events v.

(** A frame of [n] bytes of the loudest, and of the quietest, value. *)
Definition loud_frame (n : nat) : bytes := repeat Byte.xff n.
Definition quiet_frame (n : nat) : bytes := repeat Byte.x80 n.

(** [process_audio_frame] on each frame of a list. *)
Fixpoint process_frames (frames : list bytes) (v : t) : Clock.M (list Callback * t) :=
  match frames with
  | [] => Clock.ret ([], v)
  | frame :: rest =>
      let! (called, v) := process_audio_frame frame v in
      let! (called', v) := process_frames rest v in
      Clock.ret (called ++ called', v)
  end.

(** The default detector after nine loud frames: no speech yet, the
    window is one frame short. *)
Definition nine_loud_frames : t :=
  snd (Clock.run (process_frames (repeat (loud_frame 160) 9) default)
                 (Clock.of_list [(100 # 1)%Q])).

(** The default detector in a speech that the upstream detector
    announced at 100 s, after nine quiet frames. *)
Definition in_speech_since_100 : t :=
  let v := snd (Clock.run (on_deepgram_vad_event "SpeechStarted" default)
                          (Clock.of_list [(100 # 1)%Q])) in
  snd (Clock.run (process_frames (repeat (quiet_frame 160) 9) v)
                 (Clock.of_list [(100 # 1)%Q])).

End EnhancedVAD.

(** ** lib/interruption_handler.py *)

Module SpeechQueue.
Import Py.

(** An element of the queue: the dictionary with the keys ["id"],
    ["text"], ["priority"] and ["queued_at"]. *)
Record Speech := mkSpeech {
  id : string;
  text : string;
  priority : Z;
  queued_at : Q
}.

Record t := mk {
  queue : list Speech;
  current_speech_id : option string;
  next_speech_id : nat
}.

(** [SpeechQueue.__init__] *)
Definition init : t :=
  {| queue := []; current_speech_id := None; next_speech_id := 0 |}.

(** [f"speech_{n}"] *)
Definition speech_id (n : nat) : string := "speech_" +:+ pretty n.

(** [SpeechQueue.add] *)
Definition add (text : string) (priority : Z) (q : t) : Clock.M (string * t) :=
  let sid := speech_id (next_speech_id q) in
  let! now := Clock.time_time in
  let speech := {| id := sid; text := text; priority := priority;
                   queued_at := now |} in
  Clock.ret
    (sid,
     {| queue := sort_desc SpeechQueue.priority (queue q ++ [speech]);
        current_speech_id := current_speech_id q;
        next_speech_id := S (next_speech_id q) |}).

(** [SpeechQueue.get_next] *)
Definition get_next (q : t) : option Speech * t :=
  match queue q with
  | speech :: rest =>
      (Some speech,
       {| queue := rest;
          current_speech_id := Some (id speech);
          next_speech_id := next_speech_id q |})
  | [] => (None, q)
  end.

(** [SpeechQueue.clear] *)
Definition clear (q : t) : t :=
  {| queue := [];
     current_speech_id := current_speech_id q;
     next_speech_id := next_speech_id q |}.

(** [SpeechQueue.is_empty] and [SpeechQueue.size] *)
Definition is_empty (q : t) : bool := len_list (queue q) =? 0.
Definition size (q : t) : Z := len_list (queue q).

(** The calls on a queue. *)
Inductive Op :=
| OpAdd (text : string) (priority : Z)
| OpGetNext
| OpClear.

Definition step (o : Op) (q : t) : Clock.M t :=
  match o with
  | OpAdd text priority =>
      let! r := add text priority q in Clock.ret (snd r)
  | OpGetNext => Clock.ret (snd (get_next q))
  | OpClear => Clock.ret (clear q)
  end.

Fixpoint run (ops : list Op) (q : t) : Clock.M t :=
  match ops with
  | [] => Clock.ret q
  | o :: ops' => let! q' := step o q in run ops' q'
  end.

(** The number of calls of [add] in a trace. *)
Definition adds (ops : list Op) : nat :=
  length (List.filter (fun o => match o with OpAdd _ _ => true | _ => false end)
                      ops).

(** The speech [x] was enqueued as number [n]. *)
Definition enqueued_as (x : Speech) (n : nat) : Prop := id x = speech_id n.

(** [x] is served before [y]: its priority is higher, or the priorities
    are equal and it was enqueued earlier. *)
Definition before (x y : Speech) : Prop :=
  priority y < priority x
  \/ (priority y = priority x /\
      exists a b, enqueued_as x a /\ enqueued_as y b /\ (a < b)%nat).

(** The queue is in serving order and holds numbers already given out. *)
Definition ordered (q : t) : Prop :=
  StronglySorted before (queue q) /\
  Forall (fun x => exists a, enqueued_as x a /\ (a < next_speech_id q)%nat)
         (queue q).

End SpeechQueue.

Module AudioPlaybackController.
Import Py.

Record t := mk {
  audio_buffer : AudioBuffer.t;
  is_playing : bool;
  current_playback_id : option string;
  playback_start_time : option Q
}.

(** [AudioPlaybackController.__init__] *)
Definition init (audio_buffer : AudioBuffer.t) : t :=
  {| audio_buffer := audio_buffer;
     is_playing := false;
     current_playback_id := None;
     playback_start_time := None |}.

(** [AudioPlaybackController.play], with the buffer's [start_playback]
    taken to the creation of the playback task. *)
Definition play (playback_id : string) (p : t) : Clock.M t :=
  let! now := Clock.time_time in
  Clock.ret
    {| audio_buffer :=
         AudioBuffer.start_playback_spawn
           (AudioBuffer.start_playback (audio_buffer p));
       is_playing := true;
       current_playback_id := Some playback_id;
       playback_start_time := Some now |}.

(** [AudioPlaybackController.interrupt]; the result is the latency in
    milliseconds, or [None] when nothing is playing. *)
Definition interrupt (p : t) : Clock.M (option Q * t) :=
  if negb (is_playing p) then Clock.ret (None, p)
  else
    let! interrupt_start := Clock.time_time in
    let b := AudioBuffer.interrupt (audio_buffer p) in
    let! interrupt_end := Clock.time_time in
    let interrupt_latency_ms := elapsed_ms interrupt_end interrupt_start in
    Clock.ret
      (Some interrupt_latency_ms,
       {| audio_buffer := b;
          is_playing := false;
          current_playback_id := None;
          playback_start_time := None |}).

End AudioPlaybackController.

Module InterruptionHandler.
Import Py.

(** [InterruptionState] *)
Inductive InterruptionState := LISTENING | PROCESSING | SPEAKING | INTERRUPTED.

(** The calls of the two callbacks a client may set. *)
Inductive Notification :=
| StateChange (old_state new_state : InterruptionState)
| Interruption (total_latency_ms : Q) (stop_latency_ms : option Q).

(** The handler.  The constructor also stores the detector [vad] and the
    dictionary [config]; no method reads them afterwards. *)
Record t := mk {
  playback_controller : AudioPlaybackController.t;
  state : InterruptionState;
  speech_queue : SpeechQueue.t;
  enabled : bool;
  min_speech_duration_ms : Z;
  stop_latency_target_ms : Z;
  debounce_ms : Z;
  require_confident_speech : bool;
  on_interruption : bool;
  on_state_change : bool;
  total_interruptions : Z;
  interruption_latencies : list Q;
  false_positives : Z;
  last_vad_event_time : option Q;
  speech_start_time : option Q;
  notified : list Notification      (* the callbacks called so far *)
}.

(** [InterruptionHandler.__init__], with the five entries of
    [config["interruption"]] as arguments. *)
Definition init (playback_controller : AudioPlaybackController.t)
    (enabled : bool) (min_speech_duration_ms stop_latency_target_ms debounce_ms : Z)
    (require_confident_speech : bool) : t :=
  {| playback_controller := playback_controller;
     state := LISTENING;
     speech_queue := SpeechQueue.init;
     enabled := enabled;
     min_speech_duration_ms := min_speech_duration_ms;
     stop_latency_target_ms := stop_latency_target_ms;
     debounce_ms := debounce_ms;
     require_confident_speech := require_confident_speech;
     on_interruption := false;
     on_state_change := false;
     total_interruptions := 0;
     interruption_latencies := [];
     false_positives := 0;
     last_vad_event_time := None;
     speech_start_time := None;
     notified := [] |}.

(** The defaults of the configuration: enabled, 200 ms, 150 ms, 50 ms,
    confident speech required. *)
Definition default (playback_controller : AudioPlaybackController.t) : t :=
  init playback_controller true 200 150 50 true.

Definition with_components (h : t) (pc : AudioPlaybackController.t)
    (st : InterruptionState) (sq : SpeechQueue.t) (log : list Notification) : t :=
  {| playback_controller := pc;
     state := st;
     speech_queue := sq;
     enabled := enabled h;
     min_speech_duration_ms := min_speech_duration_ms h;
     stop_latency_target_ms := stop_latency_target_ms h;
     debounce_ms := debounce_ms h;
     require_confident_speech := require_confident_speech h;
     on_interruption := on_interruption h;
     on_state_change := on_state_change h;
     total_interruptions := total_interruptions h;
     interruption_latencies := interruption_latencies h;
     false_positives := false_positives h;
     last_vad_event_time := last_vad_event_time h;
     speech_start_time := speech_start_time h;
     notified := log |}.

Definition with_stats (h : t) (total : Z) (latencies : list Q) (fp : Z) : t :=
  {| playback_controller := playback_controller h;
     state := state h;
     speech_queue := speech_queue h;
     enabled := enabled h;
     min_speech_duration_ms := min_speech_duration_ms h;
     stop_latency_target_ms := stop_latency_target_ms h;
     debounce_ms := debounce_ms h;
     require_confident_speech := require_confident_speech h;
     on_interruption := on_interruption h;
     on_state_change := on_state_change h;
     total_interruptions := total;
     interruption_latencies := latencies;
     false_positives := fp;
     last_vad_event_time := last_vad_event_time h;
     speech_start_time := speech_start_time h;
     notified := notified h |}.

Definition with_times (h : t) (last_vad start : option Q) : t :=
  {| playback_controller := playback_controller h;
     state := state h;
     speech_queue := speech_queue h;
     enabled := enabled h;
     min_speech_duration_ms := min_speech_duration_ms h;
     stop_latency_target_ms := stop_latency_target_ms h;
     debounce_ms := debounce_ms h;
     require_confident_speech := require_confident_speech h;
     on_interruption := on_interruption h;
     on_state_change := on_state_change h;
     total_interruptions := total_interruptions h;
     interruption_latencies := interruption_latencies h;
     false_positives := false_positives h;
     last_vad_event_time := last_vad;
     speech_start_time := start;
     notified := notified h |}.

(** [InterruptionHandler.set_callbacks] *)
Definition set_callbacks (on_interruption on_state_change : bool) (h : t) : t :=
  {| playback_controller := playback_controller h;
     state := state h;
     speech_queue := speech_queue h;
     enabled := enabled h;
     min_speech_duration_ms := min_speech_duration_ms h;
     stop_latency_target_ms := stop_latency_target_ms h;
     debounce_ms := debounce_ms h;
     require_confident_speech := require_confident_speech h;
     on_interruption := on_interruption;
     on_state_change := on_state_change;
     total_interruptions := total_interruptions h;
     interruption_latencies := interruption_latencies h;
     false_positives := false_positives h;
     last_vad_event_time := last_vad_event_time h;
     speech_start_time := speech_start_time h;
     notified := notified h |}.

(** [InterruptionHandler._transition_state] *)
Definition _transition_state (new_state : InterruptionState) (h : t) : t :=
  let old_state := state h in
  with_components h (playback_controller h) new_state (speech_queue h)
    (if on_state_change h
     then notified h ++ [StateChange old_state new_state]
     else notified h).

(** [InterruptionHandler._handle_barge_in] *)
Definition _handle_barge_in (h : t) : Clock.M t :=
  let! barge_in_start := Clock.time_time in
  let! (stop_latency_ms, pc) :=
    AudioPlaybackController.interrupt (playback_controller h) in
  let h := with_components h pc (state h)
             (SpeechQueue.clear (speech_queue h)) (notified h) in
  let h := _transition_state INTERRUPTED h in
  let! barge_in_end := Clock.time_time in
  let total_latency_ms := elapsed_ms barge_in_end barge_in_start in
  let latencies := interruption_latencies h ++ [total_latency_ms] in
  let latencies :=
    if 100 <? len_list latencies then last_slice 100 latencies else latencies in
  let h := with_stats h (total_interruptions h + 1) latencies (false_positives h) in
  Clock.ret
    (if on_interruption h
     then with_components h (playback_controller h) (state h) (speech_queue h)
            (notified h ++ [Interruption total_latency_ms stop_latency_ms])
     else h).

(** The debounce test of [on_speech_started]: there is an earlier event,
    and less than [debounce_ms] have passed since. *)
Definition debounced (h : t) (current_time : Q) : bool :=
  match last_vad_event_time h with
  | Some last =>
      truthy_time last
      && Qltb (elapsed_ms current_time last) (inject_Z (debounce_ms h))
  | None => false
  end.

(** [InterruptionHandler.on_speech_started] *)
Definition on_speech_started (h : t) : Clock.M t :=
  if negb (enabled h) then Clock.ret h
  else
    let! current_time := Clock.time_time in
    if debounced h current_time then Clock.ret h
    else
      let h := with_times h (Some current_time) (Some current_time) in
      match state h with
      | SPEAKING => _handle_barge_in h
      | _ => Clock.ret h
      end.

(** [InterruptionHandler.on_speech_ended] *)
Definition on_speech_ended (h : t) : Clock.M t :=
  if negb (enabled h) then Clock.ret h
  else
    let! current_time := Clock.time_time in
    let h :=
      match speech_start_time h with
      | Some start =>
          if truthy_time start
             && (require_confident_speech h
                 && Qltb (elapsed_ms current_time start)
                         (inject_Z (min_speech_duration_ms h)))
          then with_stats h (total_interruptions h) (interruption_latencies h)
                          (false_positives h + 1)
          else h
      | None => h
      end in
    Clock.ret (with_times h (last_vad_event_time h) None).

(** [start_listening], [start_processing], [start_speaking] *)
Definition start_listening (h : t) : t := _transition_state LISTENING h.
Definition start_processing (h : t) : t := _transition_state PROCESSING h.
Definition start_speaking (h : t) : t := _transition_state SPEAKING h.

(** [InterruptionHandler.queue_speech] *)
Definition queue_speech (text : string) (priority : Z) (h : t)
    : Clock.M (string * t) :=
  let! (sid, sq) := SpeechQueue.add text priority (speech_queue h) in
  Clock.ret (sid, with_components h (playback_controller h) (state h) sq
                    (notified h)).

(** [InterruptionHandler.get_next_speech] *)
Definition get_next_speech (h : t) : option SpeechQueue.Speech * t :=
  let (speech, sq) := SpeechQueue.get_next (speech_queue h) in
  (speech, with_components h (playback_controller h) (state h) sq (notified h)).

(** The barge-in path has been entered between [h] and [h']: playback
    interrupted, the speech queue cleared, one more interruption counted,
    the state [INTERRUPTED]. *)
Definition barged_in (h h' : t) : Prop :=
  state h' = INTERRUPTED /\
  SpeechQueue.queue (speech_queue h') = [] /\
  AudioPlaybackController.is_playing (playback_controller h') = false /\
  (AudioPlaybackController.is_playing (playback_controller h) = true ->
   AudioBuffer.interrupted
     (AudioPlaybackController.audio_buffer (playback_controller h')) = true /\
   AudioBuffer.buffer
     (AudioPlaybackController.audio_buffer (playback_controller h')) = []) /\
  total_interruptions h' = total_interruptions h + 1.

(** The barge-in path has not been entered: playback and the queue are
    as they were, and so are the state and the count of interruptions. *)
Definition not_barged_in (h h' : t) : Prop :=
  state h' = state h /\
  speech_queue h' = speech_queue h /\
  playback_controller h' = playback_controller h /\
  total_interruptions h' = total_interruptions h.

(** A handler with the default configuration that is speaking: one chunk
    of audio is buffered and playing, one utterance is still queued. *)
Definition speaking_handler : t :=
  let b := AudioBuffer.add_audio (AudioBuffer.silence 160) AudioBuffer.default in
  let pc := Clock.run (AudioPlaybackController.play "playback_0"
                         (AudioPlaybackController.init b))
                      (Clock.of_list [(1000 # 1)%Q]) in
  let h := default pc in
  let h := snd (Clock.run (queue_speech "One more thing." 0 h)
                          (Clock.of_list [(1000 # 1)%Q])) in
  start_speaking (start_processing h).

End InterruptionHandler.

(** ** lib/llm_client.py *)

Module LLMClient.
Import Py.

(** The attributes of the client that the request depends on. *)
Record t := mk {
  model : string;
  max_tokens : Z;
  temperature : Q;
  system_prompt : string;
  max_history_turns : Z
}.

(** [LLMClient.__init__], with the entries of the configuration as
    arguments; the defaults are "claude-3-7-sonnet-20250219", 150, 0.7,
    the empty context and 20 turns. *)
Definition init (llm_model : string) (llm_max_tokens : Z) (llm_temperature : Q)
    (default_context : string) (max_history_turns : Z) : t :=
  {| model := llm_model;
     max_tokens := llm_max_tokens;
     temperature := llm_temperature;
     system_prompt := strip default_context;
     max_history_turns := max_history_turns |}.

(** The message [{"role": role, "content": content}]. *)
Definition message (role content : string) : gmap string string :=
  {[ "role" := role; "content" := content ]}.

(** The body of the loop over the window of the history. *)
Definition add_turn_message (messages : list (gmap string string))
    (turn : gmap string string) : list (gmap string string) :=
  let role := turn !! "role" in
  let content := default "" (turn !! "content") in
  match role with
  | Some role =>
      if (String.eqb role "user" || String.eqb role "assistant")
         && truthy (strip content)
      then messages ++ [message role content]
      else messages
  | None => messages
  end.

(** [LLMClient._build_messages] *)
Definition _build_messages (c : t)
    (conversation_context : list (gmap string string)) (user_message : string)
    : list (gmap string string) :=
  let messages :=
    fold_left add_turn_message
      (last_slice (max_history_turns c) conversation_context) [] in
  messages ++ [message "user" user_message].

(** The arguments of [self.client.messages.stream] in [generate_stream]
    (and of [self.client.messages.create] in [generate]). *)
Record Request := mkRequest {
  req_model : string;
  req_max_tokens : Z;
  req_temperature : Q;
  req_system : option string;
  req_messages : list (gmap string string)
}.

Definition request (c : t) (conversation_context : list (gmap string string))
    (user_message : string) : Request :=
  {| req_model := model c;
     req_max_tokens := max_tokens c;
     req_temperature := temperature c;
     req_system := if truthy (system_prompt c) then Some (system_prompt c) else None;
     req_messages := _build_messages c conversation_context user_message |}.

(** A turn is forwarded: its role is "user" or "assistant" and its text
    has a character that is not white space. *)
Definition forwarded (turn : gmap string string) : Prop :=
  (turn !! "role" = Some "user" \/ turn !! "role" = Some "assistant") /\
  exists content c,
    turn !! "content" = Some content /\ In c (chars content) /\ isspace c = false.

(** The test of the loop on a turn. *)
Definition forwardedb (turn : gmap string string) : bool :=
  match turn !! "role" with
  | Some role =>
      (String.eqb role "user" || String.eqb role "assistant")
      && truthy (strip (default "" (turn !! "content")))
  | None => false
  end.

(** The message of a turn that is forwarded. *)
Definition message_of (turn : gmap string string) : gmap string string :=
  message (default "" (turn !! "role")) (default "" (turn !! "content")).

(** A client with the defaults, and a history of four turns: two are
    forwarded, one has the role "system", one has a blank text. *)
Definition default_client : t :=
  init "claude-3-7-sonnet-20250219" 150 (7 # 10)%Q "" 20.

Definition four_turns : list (gmap string string) :=
  [message "user" "hi"; message "system" "be kind";
   message "assistant" "  "; message "assistant" "hello"].

End LLMClient.

(** ** lib/conversation.py *)

Module Conversation.
Import Py.

Record Turn := mkTurn {
  speaker : string;
  text : string;
  timestamp : Q;
  confidence : Q;
  intent : string;
  sentiment : string
}.

(** [Turn.detect_intent] *)
Definition detect_intent (text : string) : string :=
  let text_lower := lower text in
  if contains "how" text_lower || contains "what" text_lower
     || contains "why" text_lower then "question"
  else if contains "do" text_lower || contains "make" text_lower
          || contains "create" text_lower then "command"
  else if contains "hello" text_lower || contains "hi" text_lower then "greeting"
  else if contains "bye" text_lower || contains "goodbye" text_lower then "farewell"
  else "statement".

(** [Turn.analyze_sentiment] *)
Definition analyze_sentiment (text : string) : string :=
  let positive_words := ["good"; "great"; "excellent"; "happy"; "thank"] in
  let negative_words := ["bad"; "terrible"; "awful"; "sad"; "angry"; "frustrated"] in
  let text_lower := lower text in
  if any_in positive_words text_lower then "positive"
  else if any_in negative_words text_lower then "negative"
  else "neutral".

(** [Turn.__init__] *)
Definition new_turn (speaker text : string) (confidence : Q) : Clock.M Turn :=
  let! now := Clock.time_time in
  Clock.ret {| speaker := speaker;
               text := text;
               timestamp := now;
               confidence := confidence;
               intent := detect_intent text;
               sentiment := analyze_sentiment text |}.

(** The dictionary [metadata]. *)
Record Metadata := mkMetadata {
  call_duration : Q;
  turn_count : Z;
  last_update : Q
}.

Record t := mk {
  call_id : string;
  turns : list Turn;
  current_topic : option string;
  user_sentiment : string;
  user_intent : string;
  metadata : Metadata
}.

(** [ConversationContext.__init__] *)
Definition init (call_id : string) : Clock.M t :=
  let! now := Clock.time_time in
  Clock.ret {| call_id := call_id;
               turns := [];
               current_topic := None;
               user_sentiment := "neutral";
               user_intent := "statement";
               metadata := {| call_duration := 0; turn_count := 0;
                              last_update := now |} |}.

(** [ConversationContext.extract_topic]; the dictionary of keywords is
    gone through in the order it is written. *)
Definition extract_topic (text : string) : option string :=
  let topic_keywords :=
    [("weather", ["weather"; "forecast"; "temperature"; "rain"; "snow"]);
     ("time", ["time"; "date"; "day"; "hour"; "minute"]);
     ("news", ["news"; "headlines"; "events"; "happening"]);
     ("help", ["help"; "assistance"; "support"; "problem"]);
     ("general", ["hello"; "hi"; "bye"; "goodbye"; "thank"])] in
  let text_lower := lower text in
  fst <$> List.find (fun entry => any_in (snd entry) text_lower) topic_keywords.

(** [max((f(turn), user_turns.count(f(turn))) for turn in user_turns)[0]]:
    the count of a string in a list of turns is 0, so the largest pair is
    the one with the largest string. *)
Definition max_of (f : Turn -> string) (user_turns : list Turn) (old : string)
    : string :=
  match user_turns with
  | [] => old
  | turn :: rest => max_str (f turn) (map f rest)
  end.

(** [ConversationContext.add_turn] *)
Definition add_turn (speaker text : string) (confidence : Q) (c : t) : Clock.M t :=
  let! new_turn := new_turn speaker text confidence in
  let turns := turns c ++ [new_turn] in
  let turns := if 10 <? len_list turns then last_slice 10 turns else turns in
  let! now := Clock.time_time in
  let oldest := match turns with
                | first :: _ => timestamp first
                | [] => now                  (* not reached *)
                end in
  let! now' := Clock.time_time in
  let metadata := {| call_duration := (now - oldest)%Q;
                     turn_count := len_list turns;
                     last_update := now' |} in
  let current_topic :=
    if String.eqb speaker "user" then extract_topic text else current_topic c in
  let user_turns := List.filter (fun turn => String.eqb (Conversation.speaker turn) "user")
                                turns in
  Clock.ret {| call_id := call_id c;
               turns := turns;
               current_topic := current_topic;
               user_sentiment := max_of sentiment user_turns (user_sentiment c);
               user_intent := max_of intent user_turns (user_intent c);
               metadata := metadata |}.

(** The arguments of one call of [add_turn]. *)
Record Said := mkSaid {
  said_speaker : string;
  said_text : string;
  said_confidence : Q
}.

Definition said_of (turn : Turn) : Said :=
  {| said_speaker := speaker turn;
     said_text := text turn;
     said_confidence := confidence turn |}.

(** A sequence of calls of [add_turn]. *)
Fixpoint add_turns (calls : list Said) (c : t) : Clock.M t :=
  match calls with
  | [] => Clock.ret c
  | call :: rest =>
      let! c' := add_turn (said_speaker call) (said_text call)
                          (said_confidence call) c in
      add_turns rest c'
  end.

(** Eleven turns of a conversation, numbered. *)
Definition eleven_calls : list Said :=
  map (fun n : nat =>
         {| said_speaker := if Nat.even n then "agent" else "user";
            said_text := "turn " +:+ pretty n;
            said_confidence := (9 # 10)%Q |})
      (seq 1 11).

End Conversation.

(** ** server.py *)

Module Server.
Import Py.

(** The attributes of [config] that the call endpoints read. *)
Record Config := mkConfig {
  telnyx_api_key : string;
  telnyx_phone_number : string;
  max_concurrent_calls : Z;
  allowed_prefixes : list string;
  blocked_prefixes : list string
}.

(** A value of the dictionary [active_calls]. *)
Record CallInfo := mkCallInfo {
  call_id : string;
  direction : string;
  from : string;
  to : string;
  call_control_id : string;
  started_at : Q;
  status : string;
  greeting : option string;
  context : option string
}.

(** What an endpoint answers: a JSON body with a status (and an HTTP
    code when it is not 200), the dictionary of a call that was
    initiated, or a raised [HTTPException]. *)
Inductive Response :=
| Json (status : string) (code : Z)
| Initiated (call_id call_control_id to : string)
| HTTPException (status_code : Z).

(** The requests that look at [active_calls] or change it.  What the
    outer world decides is part of the request: the number of WebRTC
    connections [len(webrtc_handler._pcs_map)] at that moment, whether
    the Telnyx API call succeeds, the identifier drawn by [uuid4].  The
    endpoints [/health], [/calls] and [/ws/telnyx] read the registry and
    leave it as it is; no handler suspends between the test of the limit
    and the insertion. *)
Inductive Request :=
| CallInitiated (direction call_control_id from to : string)
    (webrtc : nat) (answered : bool) (uuid : string)
| CallAnswered (call_control_id : string)
| CallHangup (call_control_id : string)
| OtherEvent (event_type : string)
| InitiateCall (to : string) (greeting : option string) (context : string)
    (webrtc : nat) (created : option string) (uuid : string)
| HangupCall (call_control_id : string) (hung_up : bool)
| Shutdown.

(** [len(webrtc_handler._pcs_map) + len(active_calls)] *)
Definition total_active (webrtc : nat) (active_calls : gmap string CallInfo) : Z :=
  Z.of_nat webrtc + Z.of_nat (size active_calls).

(** [telnyx_webhook], event [call.initiated] *)
Definition call_initiated (config : Config)
    (direction call_control_id from to : string)
    (webrtc : nat) (answered : bool) (uuid : string)
    (active_calls : gmap string CallInfo)
    : Clock.M (Response * gmap string CallInfo) :=
  if String.eqb direction "incoming" then
    if max_concurrent_calls config <=? total_active webrtc active_calls then
      Clock.ret (Json "rejected" 200, active_calls)
    else if negb answered then
      Clock.ret (Json "error" 500, active_calls)
    else
      let! now := Clock.time_time in
      Clock.ret
        (Json "ok" 200,
         <[call_control_id :=
             {| call_id := uuid;
                direction := "inbound";
                from := from;
                to := to;
                call_control_id := call_control_id;
                started_at := now;
                status := "answered";
                greeting := None;
                context := None |}]> active_calls)
  else Clock.ret (Json "ok" 200, active_calls).

(** [telnyx_webhook], event [call.hangup] *)
Definition call_hangup (call_control_id : string)
    (active_calls : gmap string CallInfo)
    : Clock.M (Response * gmap string CallInfo) :=
  match active_calls !! call_control_id with
  | Some call_info =>
      let! now := Clock.time_time in
      Clock.ret (Json "ok" 200, delete call_control_id active_calls)
  | None => Clock.ret (Json "ok" 200, active_calls)
  end.

(** [_initiate_call] *)
Definition _initiate_call (config : Config)
    (to_number : string) (greeting : option string) (context : string)
    (webrtc : nat) (created : option string) (uuid : string)
    (active_calls : gmap string CallInfo)
    : Clock.M (Response * gmap string CallInfo) :=
  if negb (truthy (telnyx_api_key config)) then
    Clock.ret (HTTPException 503, active_calls)
  else if negb (truthy to_number) then
    Clock.ret (HTTPException 400, active_calls)
  else if negb (existsb (startswith to_number) (allowed_prefixes config)) then
    Clock.ret (HTTPException 403, active_calls)
  else if existsb (startswith to_number) (blocked_prefixes config) then
    Clock.ret (HTTPException 403, active_calls)
  else if max_concurrent_calls config <=? total_active webrtc active_calls then
    Clock.ret (HTTPException 429, active_calls)
  else
    match created with
    | None => Clock.ret (HTTPException 500, active_calls)
    | Some call_control_id =>
        let! now := Clock.time_time in
        Clock.ret
          (Initiated uuid call_control_id to_number,
           <[call_control_id :=
               {| call_id := uuid;
                  direction := "outbound";
                  from := telnyx_phone_number config;
                  to := to_number;
                  call_control_id := call_control_id;
                  started_at := now;
                  status := "dialing";
                  greeting := greeting;
                  context := Some context |}]> active_calls)
    end.

(** [hangup_call]: the registry is read, not changed. *)
Definition hangup_call (call_control_id : string) (hung_up : bool)
    (active_calls : gmap string CallInfo) : Response :=
  match active_calls !! call_control_id with
  | None => HTTPException 404
  | Some _ => if hung_up then Json "hanging_up" 200 else HTTPException 500
  end.

(** One request served. *)
Definition handle (config : Config) (request : Request)
    (active_calls : gmap string CallInfo)
    : Clock.M (Response * gmap string CallInfo) :=
  match request with
  | CallInitiated direction call_control_id from to webrtc answered uuid =>
      call_initiated config direction call_control_id from to webrtc answered
                     uuid active_calls
  | CallAnswered _ => Clock.ret (Json "ok" 200, active_calls)
  | CallHangup call_control_id => call_hangup call_control_id active_calls
  | OtherEvent _ => Clock.ret (Json "ok" 200, active_calls)
  | InitiateCall to greeting context webrtc created uuid =>
      _initiate_call config to greeting context webrtc created uuid active_calls
  | HangupCall call_control_id hung_up =>
      Clock.ret (hangup_call call_control_id hung_up active_calls, active_calls)
  | Shutdown => Clock.ret (Json "ok" 200, ∅)
  end.

(** The requests of a run of the server, one after the other. *)
Fixpoint serve (config : Config) (requests : list Request)
    (active_calls : gmap string CallInfo) : Clock.M (gmap string CallInfo) :=
  match requests with
  | [] => Clock.ret active_calls
  | request :: rest =>
      let! (_, active_calls') := handle config request active_calls in
      serve config rest active_calls'
  end.

(** An admission attempt: the webhook of an incoming call, or the
    initiation of an outbound call; with the number of WebRTC
    connections it meets. *)
Definition admission (request : Request) : option nat :=
  match request with
  | CallInitiated direction _ _ _ webrtc _ _ =>
      if String.eqb direction "incoming" then Some webrtc else None
  | InitiateCall _ _ _ webrtc _ _ => Some webrtc
  | _ => None
  end.

(** The answer of a rejected admission: the body [{"status":
    "rejected"}] of the webhook, or the [HTTPException] of the
    initiation. *)
Definition rejected (response : Response) : Prop :=
  response = Json "rejected" 200 \/ exists code, response = HTTPException code.

(** The configuration of the defaults, with a Telnyx key. *)
Definition default_config : Config :=
  {| telnyx_api_key := "KEY";
     telnyx_phone_number := "+358401234567";
     max_concurrent_calls := 5;
     allowed_prefixes := ["+358"; "+46"; "+1"];
     blocked_prefixes := ["+3580700"; "+3580600"] |}.

(** Five outbound calls to five numbers, then a sixth. *)
Definition five_calls : list Request :=
  map (fun n : nat =>
         InitiateCall ("+35840000000" +:+ pretty n) None "" 0
                      (Some ("call-control-" +:+ pretty n))
                      ("uuid-" +:+ pretty n))
      (seq 1 5).

Definition sixth_call : Request :=
  InitiateCall "+358400000006" None "" 0 (Some "call-control-6") "uuid-6".

Definition sixth_incoming : Request :=
  CallInitiated "incoming" "call-control-7" "+358400000007" "+358401234567"
                0 true "uuid-7".

End Server.

(** ** lib/audio_buffer.py, continued *)

Module Playback.
Import Py.

(** A sequence of calls of [AudioBuffer.add_audio]. *)
Definition add_all (chunks : list bytes) (b : AudioBuffer.t) : AudioBuffer.t :=
  fold_left (fun acc chunk => AudioBuffer.add_audio chunk acc) chunks b.

(** [n] rounds of the loop of [AudioBuffer._playback_loop]: what each
    round hands to the callback, and the buffer after the last. *)
Fixpoint loop_steps (n : nat) (b : AudioBuffer.t)
    : list (option bytes) * AudioBuffer.t :=
  match n with
  | O => ([], b)
  | S n' =>
      let (out, b1) := AudioBuffer.playback_loop_step b in
      let (outs, b2) := loop_steps n' b1 in
      (out :: outs, b2)
  end.

(** The counter of buffered bytes agrees with the deque. *)
Definition consistent (b : AudioBuffer.t) : Prop :=
  AudioBuffer.total_buffered_bytes b = AudioBuffer.buffered_bytes b.

End Playback.

Module CircularAudioBuffer.
Import Py.

Record t := mk {
  capacity_bytes : Z;
  buffer : list Byte.byte;          (* deque(maxlen=capacity_bytes) *)
  sample_rate : Z
}.

(** [CircularAudioBuffer.__init__]; [deque(maxlen=n)] raises
    [ValueError] for a negative [n], which is [None] here.  The defaults
    are 200 ms at 8000 Hz. *)
Definition init (capacity_ms sample_rate : Z) : option t :=
  let capacity_bytes := int_div_1000 (sample_rate * capacity_ms) in
  if capacity_bytes <? 0 then None
  else Some {| capacity_bytes := capacity_bytes;
               buffer := [];
               sample_rate := sample_rate |}.

(** [CircularAudioBuffer.add] *)
Definition add (audio_data : bytes) (c : t) : t :=
  {| capacity_bytes := capacity_bytes c;
     buffer := fold_left (fun d byte => deque_append (capacity_bytes c) byte d)
                         audio_data (buffer c);
     sample_rate := sample_rate c |}.

(** [CircularAudioBuffer.get_last] *)
Definition get_last (duration_ms : Z) (c : t) : bytes :=
  let num_bytes := int_div_1000 (sample_rate c * duration_ms) in
  let num_bytes := Z.min num_bytes (len_bytes (buffer c)) in
  if num_bytes <=? 0 then []
  else last_slice num_bytes (buffer c).

(** [CircularAudioBuffer.clear] *)
Definition clear (c : t) : t :=
  {| capacity_bytes := capacity_bytes c;
     buffer := [];
     sample_rate := sample_rate c |}.

(** A sequence of calls of [add]. *)
Definition add_all (chunks : list bytes) (c : t) : t :=
  fold_left (fun acc chunk => add chunk acc) chunks c.

End CircularAudioBuffer.

(** ** lib/enhanced_vad.py, continued *)

Module VADSmoother.

Record t := mk {
  frames_to_trigger : Z;
  speech_frames : Z;
  silence_frames : Z;
  is_speech_active : bool
}.

(** [VADSmoother.__init__]; the default of [frames_to_trigger] is 3. *)
Definition init (frames_to_trigger : Z) : t :=
  {| frames_to_trigger := frames_to_trigger;
     speech_frames := 0;
     silence_frames := 0;
     is_speech_active := false |}.

(** [VADSmoother.update]; the result is ["started"], ["ended"] or
    [None]. *)
Definition update (is_speech : bool) (s : t) : option string * t :=
  if is_speech then
    let s1 := {| frames_to_trigger := frames_to_trigger s;
                 speech_frames := speech_frames s + 1;
                 silence_frames := 0;
                 is_speech_active := is_speech_active s |} in
    if negb (is_speech_active s1)
       && (frames_to_trigger s1 <=? speech_frames s1) then
      (Some "started",
       {| frames_to_trigger := frames_to_trigger s1;
          speech_frames := speech_frames s1;
          silence_frames := silence_frames s1;
          is_speech_active := true |})
    else (None, s1)
  else
    let s1 := {| frames_to_trigger := frames_to_trigger s;
                 speech_frames := 0;
                 silence_frames := silence_frames s + 1;
                 is_speech_active := is_speech_active s |} in
    if is_speech_active s1
       && (frames_to_trigger s1 <=? silence_frames s1) then
      (Some "ended",
       {| frames_to_trigger := frames_to_trigger s1;
          speech_frames := speech_frames s1;
          silence_frames := silence_frames s1;
          is_speech_active := false |})
    else (None, s1).

(** [VADSmoother.reset] *)
Definition reset (s : t) : t :=
  {| frames_to_trigger := frames_to_trigger s;
     speech_frames := 0;
     silence_frames := 0;
     is_speech_active := false |}.

(** [update] on each frame of a sequence. *)
Fixpoint updates (frames : list bool) (s : t) : list (option string) * t :=
  match frames with
  | [] => ([], s)
  | frame :: rest =>
      let (out, s1) := update frame s in
      let (outs, s2) := updates rest s1 in
      (out :: outs, s2)
  end.

(** The events among the results. *)
Definition events (results : list (option string)) : list string :=
  flat_map (fun r => match r with Some e => [e] | None => [] end) results.

(** The events take turns: ["started"] when no speech is active,
    ["ended"] when one is. *)
Fixpoint alternating (active : bool) (evs : list string) : Prop :=
  match evs with
  | [] => True
  | e :: rest =>
      e = (if active then "ended" else "started") /\
      alternating (negb active) rest
  end.

End VADSmoother.

(** ** lib/streaming_orchestrator.py, continued *)

Module CoordinatorRuns.

(** The calls on a coordinator. *)
Inductive Op :=
| OpToken (token : string)
| OpFlush.

(** The calls one after the other: the results of the calls of
    [add_token], the results of the calls of [flush], the coordinator at
    the end. *)
Fixpoint run (ops : list Op) (c : StreamCoordinator.t)
    : list (option string) * list (option string) * StreamCoordinator.t :=
  match ops with
  | [] => ([], [], c)
  | OpToken token :: rest =>
      let (chunk, c1) := StreamCoordinator.add_token token c in
      let '(chunks, flushes, c2) := run rest c1 in
      (chunk :: chunks, flushes, c2)
  | OpFlush :: rest =>
      let (text, c1) := StreamCoordinator.flush c in
      let '(chunks, flushes, c2) := run rest c1 in
      (chunks, text :: flushes, c2)
  end.

(** The results that are not [None]. *)
Definition returned (results : list (option string)) : list string :=
  flat_map (fun r => match r with Some text => [text] | None => [] end) results.

End CoordinatorRuns.

Module LatencyTracker.
Import Py.

(** [PipelineStage] *)
Inductive PipelineStage := STT | LLM | TTS | PLAYBACK.

(** The dictionary [stage_times]: one list for each stage. *)
Record StageTimes := mkStageTimes {
  stt_times : list Q;
  llm_times : list Q;
  tts_times : list Q;
  playback_times : list Q
}.

Definition get (stage : PipelineStage) (st : StageTimes) : list Q :=
  match stage with
  | STT => stt_times st
  | LLM => llm_times st
  | TTS => tts_times st
  | PLAYBACK => playback_times st
  end.

Definition set (stage : PipelineStage) (times : list Q) (st : StageTimes)
    : StageTimes :=
  match stage with
  | STT => {| stt_times := times; llm_times := llm_times st;
              tts_times := tts_times st; playback_times := playback_times st |}
  | LLM => {| stt_times := stt_times st; llm_times := times;
              tts_times := tts_times st; playback_times := playback_times st |}
  | TTS => {| stt_times := stt_times st; llm_times := llm_times st;
              tts_times := times; playback_times := playback_times st |}
  | PLAYBACK => {| stt_times := stt_times st; llm_times := llm_times st;
                   tts_times := tts_times st; playback_times := times |}
  end.

Record t := mk {
  stage_times : StageTimes;
  total_times : list Q;
  start_times : gmap string Q
}.

(** [LatencyTracker.__init__] *)
Definition init : t :=
  {| stage_times := {| stt_times := []; llm_times := []; tts_times := [];
                       playback_times := [] |};
     total_times := [];
     start_times := ∅ |}.

(** [if len(l) > 1000: l = l[-1000:]] *)
Definition trim (l : list Q) : list Q :=
  if 1000 <? len_list l then last_slice 1000 l else l.

(** [LatencyTracker.start] *)
Definition start (request_id : string) (tr : t) : Clock.M t :=
  let! now := Clock.time_time in
  Clock.ret {| stage_times := stage_times tr;
               total_times := total_times tr;
               start_times := <[request_id := now]> (start_times tr) |}.

(** [LatencyTracker.stage_complete] *)
Definition stage_complete (request_id : string) (stage : PipelineStage)
    (duration_ms : Q) (tr : t) : t :=
  {| stage_times :=
       set stage (trim (get stage (stage_times tr) ++ [duration_ms]))
           (stage_times tr);
     total_times := total_times tr;
     start_times := start_times tr |}.

(** [LatencyTracker.complete]; [None] is Python's [None]. *)
Definition complete (request_id : string) (tr : t) : Clock.M (option Q * t) :=
  match start_times tr !! request_id with
  | Some started =>
      let! now := Clock.time_time in
      let total_ms := elapsed_ms now started in
      Clock.ret
        (Some total_ms,
         {| stage_times := stage_times tr;
            total_times := trim (total_times tr ++ [total_ms]);
            start_times := delete request_id (start_times tr) |})
  | None => Clock.ret (None, tr)
  end.

#[global] Instance PipelineStage_eq_dec : EqDecision PipelineStage.
Proof. solve_decision. Defined.

(** Calls of [stage_complete], each with its stage and duration, one
    after the other (the request identifier is not used by the method). *)
Definition stage_completions (calls : list (PipelineStage * Q)) (tr : t) : t :=
  fold_left (fun acc call => stage_complete "" (fst call) (snd call) acc)
            calls tr.

(** The durations of the calls for one stage, in their order. *)
Definition durations_of (stage : PipelineStage) (calls : list (PipelineStage * Q))
    : list Q :=
  map snd (List.filter (fun call => bool_decide (fst call = stage)) calls).

End LatencyTracker.

Module ActivePipelines.
Import Py.

(** [StreamingOrchestrator.is_active], on the dictionary
    [active_pipelines]. *)
Definition is_active (call_id : string) (active_pipelines : gmap string bool)
    : bool :=
  existsb (fun item => startswith (fst item) call_id && snd item)
          (map_to_list active_pipelines).

(** The request identifier of [process_transcript]:
    [f"{call_id}_{int(time.time() * 1000)}"], with the digits of the
    time stamp as a string. *)
Definition request_id (call_id stamp : string) : string :=
  call_id +:+ "_" +:+ stamp.

(** [self.active_pipelines[request_id] = True] at the start of
    [process_transcript], and [self.active_pipelines.pop(request_id, None)]
    in its [finally]. *)
Definition register (call_id stamp : string) (active_pipelines : gmap string bool)
    : gmap string bool :=
  <[request_id call_id stamp := true]> active_pipelines.

Definition unregister (call_id stamp : string)
    (active_pipelines : gmap string bool) : gmap string bool :=
  delete (request_id call_id stamp) active_pipelines.

End ActivePipelines.

(** ** lib/llm_client.py, continued *)

Module Retry.
Import Py.

(** The entries of [config["retry_policy"]]; the defaults are 3
    attempts, 100 ms, 2000 ms and the base 2. *)
Record Policy := mkPolicy {
  max_attempts : Z;
  initial_backoff_ms : Z;
  max_backoff_ms : Z;
  exponential_base : Z
}.

Definition default_policy : Policy :=
  {| max_attempts := 3; initial_backoff_ms := 100; max_backoff_ms := 2000;
     exponential_base := 2 |}.

(** [min(initial_backoff_ms * (exponential_base ** attempt),
    max_backoff_ms)] *)
Definition backoff_ms (p : Policy) (attempt : Z) : Z :=
  Z.min (initial_backoff_ms p * exponential_base p ^ attempt) (max_backoff_ms p).

(** The counters of the client. *)
Record Stats := mkStats {
  total_requests : Z;
  total_tokens_used : Z;
  total_errors : Z
}.

(** How [generate] ends: with the text of a response, with the
    exception of the attempt that failed last, or with the
    [RuntimeError] behind the loop. *)
Inductive Outcome :=
| Returned (text : string)
| Raised (attempt : Z)
| RuntimeError.

(** The loop [for attempt in range(self.max_attempts)] of [generate].
    The API is what it answers to the attempt of each number: a text
    with its count of output tokens, or an exception ([None]).  The
    result has the backoffs slept, in milliseconds. *)
Fixpoint attempts (p : Policy) (api : Z -> option (string * Z))
    (todo : list Z) (stats : Stats) (slept : list Z)
    : Outcome * Stats * list Z :=
  match todo with
  | [] => (RuntimeError, stats, slept)
  | attempt :: rest =>
      match api attempt with
      | Some (text, output_tokens) =>
          (Returned text,
           {| total_requests := total_requests stats + 1;
              total_tokens_used := total_tokens_used stats + output_tokens;
              total_errors := total_errors stats |},
           slept)
      | None =>
          let stats := {| total_requests := total_requests stats;
                          total_tokens_used := total_tokens_used stats;
                          total_errors := total_errors stats + 1 |} in
          if attempt <? max_attempts p - 1
          then attempts p api rest stats (slept ++ [backoff_ms p attempt])
          else (Raised attempt, stats, slept)
      end
  end.

(** [range(n)] *)
Definition range (n : Z) : list Z := map Z.of_nat (seq 0 (Z.to_nat n)).

(** [generate], from the loop on. *)
Definition generate_attempts (p : Policy) (api : Z -> option (string * Z))
    (stats : Stats) : Outcome * Stats * list Z :=
  attempts p api (range (max_attempts p)) stats [].

(** The loop of [generate_stream].  The API answers each attempt with
    the tokens that it streams and with whether the stream then ends
    well ([true]) or with an exception.  The result has the tokens
    yielded to the consumer, the attempt whose exception is raised
    ([None] when the generator returns), and the backoffs slept. *)
Fixpoint stream_attempts (p : Policy) (api : Z -> list string * bool)
    (todo : list Z) (stats : Stats) (yielded : list string) (slept : list Z)
    : list string * option Z * Stats * list Z :=
  match todo with
  | [] => (yielded, None, stats, slept)
  | attempt :: rest =>
      let yielded := yielded ++ fst (api attempt) in
      if snd (api attempt) then
        (yielded, None,
         {| total_requests := total_requests stats + 1;
            total_tokens_used :=
              total_tokens_used stats + len_list (fst (api attempt));
            total_errors := total_errors stats |},
         slept)
      else
        let stats := {| total_requests := total_requests stats;
                        total_tokens_used := total_tokens_used stats;
                        total_errors := total_errors stats + 1 |} in
        if attempt <? max_attempts p - 1
        then stream_attempts p api rest stats yielded
                             (slept ++ [backoff_ms p attempt])
        else (yielded, Some attempt, stats, slept)
  end.

(** [generate_stream], from the loop on. *)
Definition generate_stream_attempts (p : Policy) (api : Z -> list string * bool)
    (stats : Stats) : list string * option Z * Stats * list Z :=
  stream_attempts p api (range (max_attempts p)) stats [] [].

(** The counters after [errors] failed attempts. *)
Definition failed (errors : Z) (stats : Stats) : Stats :=
  {| total_requests := total_requests stats;
     total_tokens_used := total_tokens_used stats;
     total_errors := total_errors stats + errors |}.

(** The counters after a response with [tokens] tokens. *)
Definition succeeded (tokens : Z) (stats : Stats) : Stats :=
  {| total_requests := total_requests stats + 1;
     total_tokens_used := total_tokens_used stats + tokens;
     total_errors := total_errors stats |}.

(** The rate limiter of the client. *)
Record RateLimit := mkRateLimit {
  requests_this_minute : Z;
  minute_start : Q;
  rate_limit_per_minute : Z
}.

(** [LLMClient._check_rate_limit]; the result has the time slept, if the
    call had to wait. *)
Definition _check_rate_limit (r : RateLimit) : Clock.M (option Q * RateLimit) :=
  let! current_time := Clock.time_time in
  let r :=
    if Qltb 60 (current_time - minute_start r)
    then {| requests_this_minute := 0; minute_start := current_time;
            rate_limit_per_minute := rate_limit_per_minute r |}
    else r in
  let bump r' :=
    {| requests_this_minute := requests_this_minute r' + 1;
       minute_start := minute_start r';
       rate_limit_per_minute := rate_limit_per_minute r' |} in
  if rate_limit_per_minute r <=? requests_this_minute r then
    let wait_time := (60 - (current_time - minute_start r))%Q in
    if Qltb 0 wait_time then
      let! now := Clock.time_time in
      Clock.ret
        (Some wait_time,
         bump {| requests_this_minute := 0; minute_start := now;
                 rate_limit_per_minute := rate_limit_per_minute r |})
    else Clock.ret (None, bump r)
  else Clock.ret (None, bump r).

End Retry.

(** ** lib/enhanced_vad.py: runs of the detector *)

Module VADRuns.
Import Py.

(** What reaches the detector. *)
Inductive Op :=
| OpDeepgram (event_type : string)
| OpFrame (audio_data : bytes)
| OpReset.

Definition step (o : Op) (v : EnhancedVAD.t)
    : Clock.M (list EnhancedVAD.Callback * EnhancedVAD.t) :=
  match o with
  | OpDeepgram event_type => EnhancedVAD.on_deepgram_vad_event event_type v
  | OpFrame audio_data => EnhancedVAD.process_audio_frame audio_data v
  | OpReset => Clock.ret ([], EnhancedVAD.reset v)
  end.

Fixpoint run (ops : list Op) (v : EnhancedVAD.t)
    : Clock.M (list EnhancedVAD.Callback * EnhancedVAD.t) :=
  match ops with
  | [] => Clock.ret ([], v)
  | o :: rest =>
      let! (called, v1) := step o v in
      let! (called', v2) := run rest v1 in
      Clock.ret (called ++ called', v2)
  end.

(** The number of calls of [on_speech_ended] among the callbacks. *)
Definition ended (called : list EnhancedVAD.Callback) : Z :=
  len_list (List.filter (fun c => match c with
                                  | EnhancedVAD.SpeechEnded => true
                                  | _ => false
                                  end) called).

(** 1 while a speech is active. *)
Definition active (v : EnhancedVAD.t) : Z :=
  if EnhancedVAD.is_speech_active v then 1 else 0.

Definition is_reset (o : Op) : bool :=
  match o with OpReset => true | _ => false end.

(** The speeches counted in [total_speech_events] that were not
    filtered and are not the active one. *)
Definition closed_speeches (v : EnhancedVAD.t) : Z :=
  EnhancedVAD.total_speech_events v - EnhancedVAD.filtered_events v - active v.

(** The window holds at most [energy_window_size] energies, and a start
    time is recorded exactly while a speech is active. *)
Definition well_formed (v : EnhancedVAD.t) : Prop :=
  len_list (EnhancedVAD.energy_buffer v) <= EnhancedVAD.energy_window_size v /\
  (EnhancedVAD.is_speech_active v = true ->
   exists start, EnhancedVAD.speech_start_time v = Some start) /\
  (EnhancedVAD.is_speech_active v = false ->
   EnhancedVAD.speech_start_time v = None).

End VADRuns.

(** ** lib/interruption_handler.py: runs of the handler *)

Module HandlerRuns.
Import Py InterruptionHandler.

(** The calls on a handler, and [play] on its playback controller. *)
Inductive Op :=
| OpSpeechStarted
| OpSpeechEnded
| OpStartListening
| OpStartProcessing
| OpStartSpeaking
| OpQueueSpeech (text : string) (priority : Z)
| OpGetNextSpeech
| OpPlay (playback_id : string)
| OpSetCallbacks (on_interruption on_state_change : bool).

Definition step (o : Op) (h : InterruptionHandler.t)
    : Clock.M InterruptionHandler.t :=
  match o with
  | OpSpeechStarted => on_speech_started h
  | OpSpeechEnded => on_speech_ended h
  | OpStartListening => Clock.ret (start_listening h)
  | OpStartProcessing => Clock.ret (start_processing h)
  | OpStartSpeaking => Clock.ret (start_speaking h)
  | OpQueueSpeech text priority =>
      let! r := queue_speech text priority h in Clock.ret (snd r)
  | OpGetNextSpeech => Clock.ret (snd (get_next_speech h))
  | OpPlay playback_id =>
      let! pc := AudioPlaybackController.play playback_id (playback_controller h) in
      Clock.ret (with_components h pc (state h) (speech_queue h) (notified h))
  | OpSetCallbacks a b => Clock.ret (set_callbacks a b h)
  end.

Fixpoint run (ops : list Op) (h : InterruptionHandler.t)
    : Clock.M InterruptionHandler.t :=
  match ops with
  | [] => Clock.ret h
  | o :: rest => let! h1 := step o h in run rest h1
  end.

(** A change of state that was notified is one into [INTERRUPTED] from
    [SPEAKING], or one into another state. *)
Definition interrupted_from_speaking (n : Notification) : Prop :=
  match n with
  | StateChange old_state INTERRUPTED => old_state = SPEAKING
  | _ => True
  end.

(** The handler keeps one latency for each of its last 100
    interruptions, and its notified changes of state into [INTERRUPTED]
    come from [SPEAKING]. *)
Definition consistent (h : InterruptionHandler.t) : Prop :=
  len_list (interruption_latencies h) = Z.min 100 (total_interruptions h) /\
  0 <= total_interruptions h /\
  List.Forall interrupted_from_speaking (notified h).

(** The calls that do not reach the playback controller from outside:
    every operation but [OpPlay]. *)
Definition is_play (o : Op) : bool :=
  match o with OpPlay _ => true | _ => false end.

End HandlerRuns.

(** ** lib/conversation.py, continued *)

Module Filler.
Import Py Conversation.

(** [len(set(l))] *)
Definition distinct (l : list string) : Z := len_list (remove_dups l).

(** [ConversationContext.should_inject_filler] *)
Definition should_inject_filler (c : Conversation.t) : bool :=
  if len_list (turns c) <? 3 then false
  else
    let sentiment_changes := distinct (map sentiment (turns c)) in
    let topic_changes :=
      distinct (map intent
                    (List.filter (fun turn => String.eqb (speaker turn) "user")
                                 (turns c))) in
    ((1 <? sentiment_changes) || (1 <? topic_changes))
    && (turn_count (metadata c) mod 3 =? 0).

(** A new conversation after the calls of [add_turn]. *)
Definition conversation_of (call_id : string) (calls : list Said)
    : Clock.M Conversation.t :=
  let! c0 := init call_id in add_turns calls c0.

(** The three results of [Turn.analyze_sentiment]. *)
Definition is_sentiment (s : string) : Prop :=
  s = "positive"%string \/ s = "neutral"%string \/ s = "negative"%string.

(** The turns of the user in the history. *)
Definition user_turns (c : Conversation.t) : list Turn :=
  List.filter (fun turn => String.eqb (speaker turn) "user") (turns c).

(** What [add_turn] keeps true of a conversation: the sentiments are
    those of [analyze_sentiment], [turn_count] is the length of the
    history, and [user_sentiment] is the largest sentiment of the user's
    turns in the history, when there are any. *)
Definition settled (c : Conversation.t) : Prop :=
  List.Forall (fun turn => is_sentiment (sentiment turn)) (turns c) /\
  turn_count (metadata c) = len_list (turns c) /\
  (user_turns c <> [] ->
   user_sentiment c = max_of sentiment (user_turns c) "").

End Filler.

(** ** config.py and server.py: the numbers that may be called *)

Module NumberSafety.
Import Py Server.

(** [s.split(sep)] for a separator of one character: a string without
    the separator gives one element (the empty string gives [[""]]), and
    a separator at the end gives an empty last element. *)
Fixpoint split (sep : ascii) (s : string) : list string :=
  match s with
  | EmptyString => [EmptyString]
  | String c s' =>
      if Ascii.eqb c sep then EmptyString :: split sep s'
      else
        match split sep s' with
        | first :: rest => String c first :: rest
        | [] => [String c EmptyString]      (* not reached *)
        end
  end.

(** The fields [allowed_prefixes] and [blocked_prefixes] of [Config]:
    [os.getenv(name, default).split(",")], from the value of the
    environment variable when it is set. *)
Definition allowed_prefixes_of (env : option string) : list string :=
  split "," (default "+358,+46,+1"%string env).

Definition blocked_prefixes_of (env : option string) : list string :=
  split "," (default "+3580700,+3580600"%string env).

(** A number that [_initiate_call] accepts. *)
Definition safe (config : Config) (to_number : string) : Prop :=
  truthy to_number = true /\
  existsb (startswith to_number) (allowed_prefixes config) = true /\
  existsb (startswith to_number) (blocked_prefixes config) = false.

(** An entry of the registry is under its own call control identifier,
    and an outbound call goes to a number that may be called. *)
Definition registered_safely (config : Config) (id : string) (info : CallInfo)
    : Prop :=
  call_control_id info = id /\
  (direction info = "outbound"%string -> safe config (to info)).

End NumberSafety.

(* ===================================================================== *)
(** * Part II: the properties *)
(* ===================================================================== *)

(** ** The playback buffer *)

Section AudioBufferFacts.
Import Py AudioBuffer.

Lemma len_bytes_nonneg (d : bytes) : 0 <= len_bytes d.
Proof. unfold len_bytes. lia. Qed.

Lemma buffered_bytes_app (q1 q2 : list bytes) :
  fold_right (fun chunk acc => len_bytes chunk + acc) 0 (q1 ++ q2) =
  fold_right (fun chunk acc => len_bytes chunk + acc) 0 q1 +
  fold_right (fun chunk acc => len_bytes chunk + acc) 0 q2.
Proof. induction q1 as [|c q1 IH]; simpl; lia. Qed.

(** What one call of [add_audio] does to a buffer that is not
    interrupted: at most one chunk leaves, and it is the oldest. *)
Lemma add_audio_cases (d : bytes) (b : AudioBuffer.t) :
  interrupted b = false ->
  let b' := add_audio d b in
  max_buffer_size b' = max_buffer_size b /\
  interrupted b' = false /\
  if max_buffer_size b <? total_buffered_bytes b + len_bytes d then
    exists oldest,
      buffer b ++ [d] = oldest :: buffer b' /\
      total_buffered_bytes b' =
        total_buffered_bytes b + len_bytes d - len_bytes oldest /\
      overruns b' = overruns b + 1
  else
    buffer b' = buffer b ++ [d] /\
    total_buffered_bytes b' = total_buffered_bytes b + len_bytes d /\
    overruns b' = overruns b.
Proof.
  intros Hi. unfold add_audio. rewrite Hi.
  destruct (max_buffer_size b <? total_buffered_bytes b + len_bytes d) eqn:E.
  - destruct (buffer b) as [|c q] eqn:Hq; cbn; rewrite ?Hq.
    + repeat split; auto. exists d. repeat split; auto.
    + repeat split; auto. exists c. repeat split; auto.
  - cbn. repeat split; auto.
Qed.

Lemma stop_playback_buffer (smooth : bool) (b : AudioBuffer.t) :
  buffer (stop_playback smooth b) = buffer b.
Proof.
  unfold stop_playback. destruct (is_playing b); cbn; auto.
  destruct smooth; auto.
  destruct (rev (buffer b)) as [|c front] eqn:E; auto.
  unfold _apply_fadeout. rewrite <- (rev_involutive (buffer b)), E. reflexivity.
Qed.





Lemma step_max_buffer_size (o : Op) (b : AudioBuffer.t) :
  max_buffer_size (step o b) = max_buffer_size b.
Proof.
  destruct o; cbn [step]; auto.
  - unfold add_audio. destruct (interrupted b); auto.
    destruct (max_buffer_size b <? _); auto.
    destruct (popleft _) as [[? ?]|]; auto.
  - unfold start_playback. destruct (is_playing b); auto.
  - unfold playback_loop_step. destruct (is_playing b && _); auto.
    destruct (popleft _) as [[? ?]|]; auto.
  - unfold stop_playback. destruct (negb _); auto.
Qed.

Lemma run_max_buffer_size (ops : list Op) (b : AudioBuffer.t) :
  max_buffer_size (run ops b) = max_buffer_size b.
Proof.
  revert b. induction ops as [|o ops IH]; intros b; cbn; auto.
  fold (run ops (step o b)). rewrite IH. apply step_max_buffer_size.
Qed.




Lemma interrupted_run_fixed (ops : list Op) (b : AudioBuffer.t) :
  Forall (fun o => clears_interrupted o = false) ops ->
  interrupted b = true -> buffer b = [] -> total_buffered_bytes b = 0 ->
  let b' := run ops b in
  interrupted b' = true /\ buffer b' = [] /\ total_buffered_bytes b' = 0 /\
  overruns b' = overruns b.
Proof.
  intros Hops. revert b.
  induction Hops as [|o ops Ho _ IH]; intros b Hi Hq Ht; cbn; auto.
  assert (H : interrupted (step o b) = true /\ buffer (step o b) = [] /\
              total_buffered_bytes (step o b) = 0 /\
              overruns (step o b) = overruns b).
  { destruct o; cbn [step]; try discriminate Ho.
    - unfold add_audio. rewrite Hi. auto.
    - cbn. auto.
    - unfold playback_loop_step. rewrite Hi, andb_false_r. cbn. auto.
    - rewrite stop_playback_buffer.
      unfold stop_playback. destruct (negb _); cbn; auto.
    - cbn. auto. }
  destruct H as (Hi' & Hq' & Ht' & Ho').
  destruct (IH (step o b) Hi' Hq' Ht') as (? & ? & ? & ?).
  fold (run ops (step o b)). repeat split; auto. congruence.
Qed.

(** C10: [interrupt] empties the buffer, and from then on, whatever is
    called on the buffer other than [reset] and [start_playback], the
    buffer stays empty, [overruns] keeps its value, and every call of
    [add_audio] returns the buffer as it was; [reset] and [start_playback]
    clear the flag, and [add_audio] buffers again. *)
Theorem interrupt_discards_audio (b : AudioBuffer.t) (ops : list Op) (d : bytes) :
  Forall (fun o => clears_interrupted o = false) ops ->
  let b1 := interrupt b in
  let b2 := run ops b1 in
  (buffer b1 = [] /\ total_buffered_bytes b1 = 0 /\ interrupted b1 = true) /\
  (buffer b2 = [] /\ total_buffered_bytes b2 = 0 /\ interrupted b2 = true /\
   overruns b2 = overruns b) /\
  add_audio d b2 = b2 /\
  (interrupted (reset b2) = false /\ interrupted (start_playback b2) = false) /\
  (len_bytes d <= max_buffer_size b ->
   buffer (add_audio d (reset b2)) = [d] /\
   buffer (add_audio d (start_playback b2)) = [d]).
Proof.
  intros Hops b1 b2.
  assert (H1 : buffer b1 = [] /\ total_buffered_bytes b1 = 0 /\
               interrupted b1 = true) by (cbn; auto).
  destruct H1 as (Hq1 & Ht1 & Hi1).
  destruct (interrupted_run_fixed ops b1 Hops Hi1 Hq1 Ht1) as (Hi2 & Hq2 & Ht2 & Ho2).
  fold b2 in Hi2, Hq2, Ht2, Ho2.
  assert (Hp2 : is_playing b2 = false).
  { clear - Hops. subst b2.
    assert (Hp1 : is_playing b1 = false) by reflexivity.
    revert Hp1. generalize b1. clear b1.
    induction Hops as [|o ops Ho _ IH]; intros b1 Hp1; cbn; auto.
    fold (run ops (step o b1)). apply IH.
    destruct o; cbn [step]; try discriminate Ho.
    - unfold add_audio. destruct (interrupted b1); auto.
      destruct (_ <? _); auto. destruct (popleft _) as [[? ?]|]; auto.
    - exact Hp1.
    - unfold playback_loop_step. rewrite Hp1. reflexivity.
    - unfold stop_playback. rewrite Hp1. exact Hp1.
    - reflexivity. }
  assert (Hm2 : max_buffer_size b2 = max_buffer_size b).
  { unfold b2. rewrite run_max_buffer_size. reflexivity. }
  repeat split; auto.
  - unfold add_audio. rewrite Hi2. reflexivity.
  - unfold start_playback. rewrite Hp2. reflexivity.
  - unfold add_audio. cbn. rewrite Hm2.
    destruct (max_buffer_size b <? 0 + len_bytes d) eqn:E; [|reflexivity].
    apply Z.ltb_lt in E. lia.
  - unfold add_audio, start_playback. rewrite Hp2. cbn. rewrite Hq2, Ht2, Hm2.
    destruct (max_buffer_size b <? 0 + len_bytes d) eqn:E; [|reflexivity].
    apply Z.ltb_lt in E. lia.
Qed.

Lemma interrupt_discards_audio_witness :
  let b := run [OpAdd (silence 160); OpStartPlayback; OpSpawn] AudioBuffer.default in
  let ops := [OpAdd (silence 160); OpLoopStep; OpAdd (silence 160)] in
  let b2 := run ops (interrupt b) in
  buffer b2 = [] /\ overruns b2 = overruns b /\
  add_audio (silence 160) b2 = b2 /\
  buffer (add_audio (silence 160) (reset b2)) = [silence 160].
Proof.
  assert (Hops : Forall (fun o => clears_interrupted o = false)
                   [OpAdd (silence 160); OpLoopStep; OpAdd (silence 160)])
    by (repeat constructor).
  pose proof (interrupt_discards_audio
    (run [OpAdd (silence 160); OpStartPlayback; OpSpawn] AudioBuffer.default)
    [OpAdd (silence 160); OpLoopStep; OpAdd (silence 160)] (silence 160) Hops) as H.
  cbv zeta in H.
  destruct H as (_ & (Hq & _ & _ & Ho) & Ha & _ & Hr).
  assert (Hd : len_bytes (silence 160) <=
               max_buffer_size
                 (run [OpAdd (silence 160); OpStartPlayback; OpSpawn]
                      AudioBuffer.default))
    by (vm_compute; discriminate).
  exact (conj Hq (conj Ho (conj Ha (proj1 (Hr Hd))))).
Defined.

End AudioBufferFacts.

(** ** Strings *)

Section PyFacts.
Import Py.

Lemma chars_str (l : list ascii) : chars (str l) = l.
Proof. apply list_ascii_of_string_of_list_ascii. Qed.

Lemma str_chars (s : string) : str (chars s) = s.
Proof. apply string_of_list_ascii_of_string. Qed.

Lemma chars_app (s1 s2 : string) :
  chars (s1 ++ s2)%string = chars s1 ++ chars s2.
Proof.
  unfold chars. induction s1 as [|a s1 IH]; [reflexivity|].
  change (a :: list_ascii_of_string (s1 +:+ s2) =
          a :: (list_ascii_of_string s1 ++ list_ascii_of_string s2)).
  f_equal. exact IH.
Qed.

Lemma str_app (l1 l2 : list ascii) :
  str (l1 ++ l2) = (str l1 ++ str l2)%string.
Proof.
  unfold str. induction l1 as [|a l1 IH]; [reflexivity|].
  change (String a (string_of_list_ascii (l1 ++ l2)) =
          String a (string_of_list_ascii l1 +:+ string_of_list_ascii l2)).
  f_equal. exact IH.
Qed.

Lemma prefix_one_char (c : ascii) (s : string) :
  String.prefix (String c EmptyString) s = true <-> exists s', s = String c s'.
Proof.
  destruct s as [|a s]; cbn.
  - split; [discriminate|]. intros [s' H]. discriminate.
  - destruct (ascii_dec c a) as [->|Hne].
    + split; [eauto|]. intros _. destruct s; reflexivity.
    + split; [discriminate|]. intros [s' H]. congruence.
Qed.

Lemma dropwhile_cons_inv {A} (p : A -> bool) (l : list A) (x : A) (l' : list A) :
  dropwhile p l = x :: l' ->
  p x = false /\ exists ws, l = ws ++ x :: l' /\ forallb p ws = true.
Proof.
  induction l as [|y l IH]; cbn; [discriminate|].
  destruct (p y) eqn:E.
  - intros H. destruct (IH H) as (Hx & ws & -> & Hws).
    split; [exact Hx|]. exists (y :: ws). cbn. rewrite E. auto.
  - intros H. inversion H; subst. split; [exact E|]. exists []. auto.
Qed.

Lemma dropwhile_skip {A} (p : A -> bool) (ws : list A) (x : A) (l' : list A) :
  forallb p ws = true -> p x = false -> dropwhile p (ws ++ x :: l') = x :: l'.
Proof.
  induction ws as [|y ws IH]; cbn; intros Hws Hx.
  - rewrite Hx. reflexivity.
  - apply andb_prop in Hws as [Hy Hws]. rewrite Hy. auto.
Qed.

Lemma forallb_rev {A} (p : A -> bool) (l : list A) :
  forallb p (rev l) = forallb p l.
Proof.
  induction l as [|x l IH]; cbn; [reflexivity|].
  rewrite forallb_app, IH. cbn. rewrite andb_true_r. apply andb_comm.
Qed.

(** [text.rstrip().endswith(c)] for a character that is not white space:
    the text is some body, then [c], then white space only. *)
Lemma rstrip_endswith_char (text : string) (c : ascii) :
  isspace c = false ->
  endswith (rstrip text) (String c EmptyString) = true <->
  StreamCoordinator.ends_with_upto_space text c.
Proof.
  intros Hc. unfold endswith, rstrip, StreamCoordinator.ends_with_upto_space.
  rewrite chars_str, rev_involutive. cbn [chars list_ascii_of_string rev app].
  change (str [c]) with (String c EmptyString).
  rewrite prefix_one_char. split.
  - intros [s' Hs'].
    assert (Hd : dropwhile isspace (rev (chars text)) = c :: chars s').
    { rewrite <- (chars_str (dropwhile _ _)). fold (str (dropwhile isspace (rev (chars text)))).
      unfold str in *. rewrite Hs'. reflexivity. }
    apply dropwhile_cons_inv in Hd as (_ & ws & Hrev & Hws).
    exists (str (rev (chars s'))), (str (rev ws)). split.
    + rewrite <- (str_chars text), <- (rev_involutive (chars text)), Hrev.
      rewrite rev_app_distr. cbn [rev]. rewrite <- app_assoc. cbn [app].
      rewrite str_app. reflexivity.
    + rewrite chars_str, forallb_rev. exact Hws.
  - intros (body & ws & -> & Hws).
    rewrite chars_app. cbn [chars list_ascii_of_string].
    rewrite rev_app_distr. cbn [rev]. rewrite <- app_assoc. cbn [app].
    rewrite dropwhile_skip; auto.
    + exists (str (rev (chars body))). reflexivity.
    + rewrite forallb_rev. exact Hws.
Qed.

End PyFacts.

(** ** The stream coordinator *)

Section StreamCoordinatorFacts.
Import Py StreamCoordinator.

Lemma endswith_any_marks (text : string) :
  endswith_any (rstrip text) ["."; "!"; "?"]%string = true <->
  ends_with_upto_space text "."%char
  \/ ends_with_upto_space text "!"%char
  \/ ends_with_upto_space text "?"%char.
Proof.
  unfold endswith_any. cbn [existsb].
  rewrite orb_false_r, !orb_true_iff.
  rewrite !rstrip_endswith_char by reflexivity. tauto.
Qed.

Lemma flush_rule_decide (chunk_size : Z) (text : string) :
  (chunk_size <=? len text)
  || endswith_any (rstrip text) ["."; "!"; "?"]%string
  || (100 <? len text) && endswith (rstrip text) "," = true
  <-> flush_rule chunk_size text.
Proof.
  unfold flush_rule.
  rewrite !orb_true_iff, andb_true_iff, Z.leb_le, Z.ltb_lt.
  rewrite endswith_any_marks, rstrip_endswith_char by reflexivity. tauto.
Qed.

(** The two results of [add_token]. *)
Lemma add_token_result (c : StreamCoordinator.t) (token : string) :
  let text := join (buffer c ++ [token]) in
  add_token token c =
    (Some text,
     {| chunk_size := chunk_size c; buffer := []; flushed := flushed c |})
  \/
  add_token token c =
    (None,
     {| chunk_size := chunk_size c; buffer := buffer c ++ [token];
        flushed := flushed c |}).
Proof.
  intros text. unfold add_token. cbn [chunk_size buffer]. fold text.
  destruct (chunk_size c <=? len text); [left; reflexivity|].
  destruct (endswith_any _ _); [left; reflexivity|].
  destruct (_ && _); [left; reflexivity|right; reflexivity].
Qed.

(** C5, as amended: [add_token] appends the token and returns a chunk
    exactly when the buffered text satisfies one of the flush rules, where
    the rules on the last character are applied to the text with the white
    space at its end stripped: (1) the length is at least the chunk size;
    (2) the stripped text ends with '.', '!' or '?'; (3) the length
    exceeds 100 and the stripped text ends with ','.  The chunk is the
    whole buffered text (white space included) and the buffer is emptied;
    otherwise no chunk is returned and the token stays buffered.  [flush]
    returns the buffered text when there is some and nothing was flushed
    before; called a second time it returns nothing. *)
Theorem add_token_flush_rules (c : StreamCoordinator.t) (token : string) :
  let text := join (buffer c ++ [token]) in
  (flush_rule (chunk_size c) text /\
   add_token token c =
     (Some text,
      {| chunk_size := chunk_size c; buffer := []; flushed := flushed c |})
   \/
   ~ flush_rule (chunk_size c) text /\
   add_token token c =
     (None,
      {| chunk_size := chunk_size c; buffer := buffer c ++ [token];
         flushed := flushed c |})) /\
  (buffer c <> [] /\ flushed c = false /\
   flush c =
     (Some (join (buffer c)),
      {| chunk_size := chunk_size c; buffer := []; flushed := true |})
   \/
   (buffer c = [] \/ flushed c = true) /\ flush c = (None, c)) /\
  fst (flush (snd (flush c))) = None.
Proof.
  intros text. split; [|split].
  - pose proof (flush_rule_decide (chunk_size c) text) as Hd.
    unfold add_token. cbn [chunk_size buffer]. fold text.
    destruct (chunk_size c <=? len text) eqn:E1.
    { left. split; [apply Hd; reflexivity|reflexivity]. }
    destruct (endswith_any (rstrip text) ["."; "!"; "?"]%string) eqn:E2.
    { left. split; [apply Hd; reflexivity|reflexivity]. }
    destruct ((100 <? len text) && endswith (rstrip text) ",") eqn:E3.
    { left. split; [apply Hd; reflexivity|reflexivity]. }
    right. split; [|reflexivity].
    intros Hr. apply Hd in Hr. discriminate Hr.
  - unfold flush. destruct (buffer c) as [|tok q] eqn:Hq.
    + right. split; [auto|]. reflexivity.
    + destruct (flushed c) eqn:Hf.
      * right. split; [auto|]. reflexivity.
      * left. split; [discriminate|]. split; reflexivity.
  - unfold flush. destruct (buffer c) as [|tok q] eqn:Hq.
    + cbn. rewrite Hq. reflexivity.
    + destruct (flushed c) eqn:Hf; cbn.
      * rewrite Hq, Hf. reflexivity.
      * reflexivity.
Qed.

(** C5, as stated, fails: of the text "Hi. " no rule of the specification
    holds (it has 4 characters and ends with a space), and [add_token]
    returns it as a chunk. *)
Lemma add_token_flush_rules_counterexample :
  let c := StreamCoordinator.init 512 in
  let text := join (buffer c ++ ["Hi. "]) in
  spec_flush_rule (chunk_size c) text = false /\
  fst (add_token "Hi. " c) = Some "Hi. ".
Proof. vm_compute. split; reflexivity. Qed.

End StreamCoordinatorFacts.

(** ** The pipeline run *)

Section PipelineFacts.
Import Py StreamingOrchestrator.

Lemma join_cons (x : string) (l : list string) :
  join (x :: l) = (x ++ join l)%string.
Proof.
  unfold join. destruct l as [|y l]; cbn.
  - induction x as [|a x IH]; [reflexivity|].
    change (String a x = String a (x +:+ EmptyString)). f_equal. exact IH.
  - reflexivity.
Qed.

Lemma append_assoc (s1 s2 s3 : string) :
  ((s1 ++ s2) ++ s3 = s1 ++ (s2 ++ s3))%string.
Proof.
  induction s1 as [|a s1 IH]; [reflexivity|].
  change (String a ((s1 +:+ s2) +:+ s3) = String a (s1 +:+ (s2 +:+ s3))).
  f_equal. exact IH.
Qed.

Lemma append_empty_r (s : string) : (s ++ "")%string = s.
Proof.
  induction s as [|a s IH]; [reflexivity|].
  change (String a (s +:+ EmptyString) = String a s). f_equal. exact IH.
Qed.

Lemma join_app (l1 l2 : list string) :
  join (l1 ++ l2) = (join l1 ++ join l2)%string.
Proof.
  induction l1 as [|x l1 IH]; [reflexivity|].
  cbn [app]. rewrite !join_cons, IH, append_assoc. reflexivity.
Qed.

Lemma join_single (x : string) : join [x] = x.
Proof. reflexivity. Qed.

Lemma sent_texts_app (l1 l2 : list TtsCall) :
  sent_texts (l1 ++ l2) = sent_texts l1 ++ sent_texts l2.
Proof. unfold sent_texts. apply flat_map_app. Qed.

Lemma truthy_false (s : string) : truthy s = false -> s = EmptyString.
Proof. destruct s; [reflexivity|discriminate]. Qed.

(** The loop over the stream: every token is accumulated, and what has
    been sent to the TTS socket, followed by what the coordinator still
    buffers, is the accumulated text. *)
Lemma llm_loop_spec (tokens : list string) (c : StreamCoordinator.t)
    (acc : list string) (sent : list TtsCall) :
  let '(c', response_tokens, sent') := llm_loop tokens c acc sent in
  response_tokens = acc ++ tokens /\
  StreamCoordinator.flushed c' = StreamCoordinator.flushed c /\
  (join (sent_texts sent') ++ join (StreamCoordinator.buffer c') =
   (join (sent_texts sent) ++ join (StreamCoordinator.buffer c)) ++ join tokens)%string.
Proof.
  revert c acc sent.
  induction tokens as [|token rest IH]; intros c acc sent; cbn [llm_loop].
  - rewrite app_nil_r. change (join []) with EmptyString.
    rewrite append_empty_r. auto.
  - pose proof (add_token_result c token) as Hadd. cbv zeta in Hadd.
    destruct (StreamCoordinator.add_token token c) as [chunk c1] eqn:Eadd.
    specialize (IH c1 (acc ++ [token])
      (match chunk with
       | Some text => if truthy text then sent ++ [SendText text false] else sent
       | None => sent
       end)).
    destruct (llm_loop rest c1 _ _) as [[c' toks] sent'].
    destruct IH as (Htoks & Hfl & Hjoin).
    rewrite Htoks, <- app_assoc, Hfl, Hjoin. cbn [app].
    rewrite join_cons.
    destruct Hadd as [Heq|Heq]; inversion Heq; subst; cbn.
    + repeat split; auto.
      change (join []) with EmptyString. rewrite append_empty_r.
      destruct (truthy (join (StreamCoordinator.buffer c ++ [token]))) eqn:Et.
      * rewrite sent_texts_app, join_app. cbn [sent_texts flat_map app].
        rewrite join_single, (join_app (StreamCoordinator.buffer c)), join_single.
        rewrite !append_assoc. reflexivity.
      * apply truthy_false in Et.
        rewrite (join_app (StreamCoordinator.buffer c)), join_single in Et.
        rewrite (append_assoc _ _ (token ++ join rest)).
        rewrite <- (append_assoc (join (StreamCoordinator.buffer c)) token).
        rewrite Et. reflexivity.
    + repeat split; auto.
      rewrite (join_app (StreamCoordinator.buffer c)), join_single.
      rewrite !append_assoc. reflexivity.
Qed.

(** C1, as amended: for every run of the streaming pipeline, whatever
    the sink does with the audio (played to the end, or cut short by a
    barge-in that interrupts the playback buffer), the text the run
    returns for the assistant turn is the full accumulated text of the
    LLM tokens; it is also the concatenation of the texts sent to the
    TTS socket.  The run computes no prefix for the frames played. *)
Theorem streaming_pipeline_records_full_text
    (tts : string -> list bytes) (Sink : Type) (on_audio : bytes -> Sink -> Sink)
    (stream_chunk_size : Z) (tokens : list string) (sink : Sink) :
  let '(result, sent, _) :=
    _streaming_pipeline tts Sink on_audio stream_chunk_size tokens sink in
  response_text result = join tokens /\
  join (sent_texts sent) = join tokens.
Proof.
  unfold _streaming_pipeline.
  pose proof (llm_loop_spec tokens (StreamCoordinator.init stream_chunk_size) [] [])
    as Hloop.
  destruct (llm_loop tokens _ [] []) as [[c toks] sent].
  destruct Hloop as (Htoks & Hfl & Hjoin).
  change (toks = tokens) in Htoks.
  change (StreamCoordinator.flushed c = false) in Hfl.
  change ((join (sent_texts sent) ++ join (StreamCoordinator.buffer c))%string
          = join tokens) in Hjoin.
  subst toks.
  unfold StreamCoordinator.flush, StreamCoordinator._flush_buffer.
  rewrite Hfl.
  destruct (StreamCoordinator.buffer c) as [|tok q] eqn:Hq;
    cbn [truthy_list andb negb StreamCoordinator.buffer response_text].
  - split; [reflexivity|].
    rewrite !sent_texts_app, !app_nil_r.
    change (join []) with EmptyString in Hjoin.
    rewrite append_empty_r in Hjoin. exact Hjoin.
  - split; [reflexivity|].
    destruct (truthy (join (tok :: q))) eqn:Et.
    + rewrite !sent_texts_app. cbn [sent_texts flat_map app].
      rewrite app_nil_r, join_app, join_single. exact Hjoin.
    + apply truthy_false in Et. rewrite Et, append_empty_r in Hjoin.
      rewrite !sent_texts_app, !app_nil_r. exact Hjoin.
Qed.

(** The happy turn of the specification: the tokens "Hi" and " there."
    are sent as one chunk at the sentence mark. *)
Example streaming_pipeline_happy_turn :
  let '(result, sent, sink) :=
    _streaming_pipeline one_frame_tts BufferSink buffer_on_audio 512
      ["Hi"; " there."] (playing_sink None) in
  response_text result = "Hi there." /\
  sent = [SendText "Hi there." false; FlushCall; CloseCall] /\
  played sink = [AudioBuffer.silence 160].
Proof. vm_compute. repeat split; reflexivity. Qed.

(** C1, as stated, fails: the LLM produces "Hi." and " Bye.", the TTS
    answers one frame to each, and the user barges in after the first
    frame.  One frame has been played, the text that goes with it is
    "Hi.", and the run returns "Hi. Bye.". *)
Lemma streaming_pipeline_played_prefix_counterexample :
  let '(result, sent, sink) :=
    _streaming_pipeline one_frame_tts BufferSink buffer_on_audio 512
      ["Hi."; " Bye."] (playing_sink (Some 1%nat)) in
  sent_texts sent = ["Hi."; " Bye."] /\
  tts_audio one_frame_tts sent = [AudioBuffer.silence 160; AudioBuffer.silence 160] /\
  played sink = [AudioBuffer.silence 160] /\
  AudioBuffer.interrupted (audio_buffer sink) = true /\
  played_prefix one_frame_tts (sent_texts sent) (length (played sink)) = "Hi." /\
  response_text result = "Hi. Bye." /\
  response_text result <>
    played_prefix one_frame_tts (sent_texts sent) (length (played sink)).
Proof. vm_compute. repeat split; try reflexivity. discriminate. Qed.

End PipelineFacts.

(** ** Readings of the clock *)

Section ClockFacts.
Import Py.

Lemma Qltb_lt (x y : Q) : Qltb x y = true <-> (x < y)%Q.
Proof.
  unfold Qltb. rewrite negb_true_iff. split.
  - intros H. apply Qnot_le_lt. intros Hle.
    apply Qle_bool_iff in Hle. congruence.
  - intros H. destruct (Qle_bool y x) eqn:E; [|reflexivity].
    apply Qle_bool_iff in E. exfalso. exact (Qlt_not_le _ _ H E).
Qed.

Lemma Qltb_ge (x y : Q) : Qltb x y = false <-> (y <= x)%Q.
Proof.
  unfold Qltb. rewrite negb_false_iff. apply Qle_bool_iff.
Qed.

Lemma truthy_time_iff (t : Q) : truthy_time t = true <-> ~ (t == 0)%Q.
Proof.
  unfold truthy_time. rewrite negb_true_iff. split.
  - intros H Heq. apply Qeq_bool_iff in Heq. congruence.
  - intros H. destruct (Qeq_bool t 0) eqn:E; [|reflexivity].
    apply Qeq_bool_iff in E. contradiction.
Qed.

End ClockFacts.

(** ** The voice activity detector *)

Section EnhancedVADFacts.
Import Py EnhancedVAD.

(** An upstream event inside the debounce window changes the two fields
    that record it, and nothing of the speech state. *)
Lemma deepgram_event_debounced (event_type : string) (v : EnhancedVAD.t)
    (clock : Clock.t) (last : Q) :
  last_event_time v = Some last ->
  ~ (last == 0)%Q ->
  (elapsed_ms (clock 0%nat) last < inject_Z (debounce_ms v))%Q ->
  let r := Clock.run (on_deepgram_vad_event event_type v) clock in
  fst r = [] /\ same_speech_state v (snd r) /\
  deepgram_events (snd r) = deepgram_events v + 1.
Proof.
  intros Hl Ht Hd.
  apply truthy_time_iff in Ht. apply Qltb_lt in Hd.
  unfold Clock.run, on_deepgram_vad_event, Clock.bind, Clock.time_time, debounced.
  cbn. rewrite Hl, Ht, Hd. cbn. unfold same_speech_state. cbn. tauto.
Qed.

Lemma trigger_speech_started_last_event (v : EnhancedVAD.t) (clock : Clock.t) :
  last_event_time (snd (Clock.run (_trigger_speech_started v) clock)) =
  last_event_time v.
Proof.
  unfold Clock.run, _trigger_speech_started.
  destruct (is_speech_active v); reflexivity.
Qed.

Lemma trigger_speech_ended_last_event (v : EnhancedVAD.t) (clock : Clock.t) :
  last_event_time (snd (Clock.run (_trigger_speech_ended v) clock)) =
  last_event_time v.
Proof.
  unfold Clock.run, _trigger_speech_ended, Clock.bind, Clock.time_time.
  destruct (is_speech_active v); [|reflexivity]. cbn [negb].
  destruct (speech_start_time v) as [start|]; [|reflexivity].
  destruct (truthy_time start); [|reflexivity].
  destruct (Qltb _ _); reflexivity.
Qed.

(** An upstream event outside the debounce window is accepted: its time
    becomes the time of the last accepted event. *)
Lemma deepgram_event_accepted (event_type : string) (v : EnhancedVAD.t)
    (clock : Clock.t) :
  debounced v (clock 0%nat) = false ->
  last_event_time (snd (Clock.run (on_deepgram_vad_event event_type v) clock)) =
  Some (clock 0%nat).
Proof.
  intros Hd.
  unfold Clock.run, on_deepgram_vad_event, Clock.bind, Clock.time_time.
  change (debounced (with_counters _ _ _ _ _) (clock 0%nat))
    with (debounced v (clock 0%nat)). rewrite Hd.
  destruct (String.eqb event_type "SpeechStarted").
  { etransitivity;
      [exact (trigger_speech_started_last_event _ (fun n => clock (S n)))
      |reflexivity]. }
  destruct (String.eqb event_type "UtteranceEnd").
  { etransitivity;
      [exact (trigger_speech_ended_last_event _ (fun n => clock (S n)))
      |reflexivity]. }
  reflexivity.
Qed.

(** The end of a speech that lasted less than the minimum: no callback,
    one more filtered event. *)
Lemma trigger_speech_ended_short (v : EnhancedVAD.t) (clock : Clock.t) (start : Q) :
  is_speech_active v = true ->
  speech_start_time v = Some start ->
  ~ (start == 0)%Q ->
  (elapsed_ms (clock 0%nat) start < inject_Z (min_speech_duration_ms v))%Q ->
  Clock.run (_trigger_speech_ended v) clock = ([], filter_short v).
Proof.
  intros Ha Hs Ht Hd.
  apply truthy_time_iff in Ht. apply Qltb_lt in Hd.
  unfold Clock.run, _trigger_speech_ended, Clock.bind, Clock.time_time.
  rewrite Ha, Hs, Ht. cbn [negb]. rewrite Hd. reflexivity.
Qed.

(** The end of a speech that lasted the minimum or more: the callback. *)
Lemma trigger_speech_ended_long (v : EnhancedVAD.t) (clock : Clock.t) (start : Q) :
  is_speech_active v = true ->
  speech_start_time v = Some start ->
  (inject_Z (min_speech_duration_ms v) <= elapsed_ms (clock 0%nat) start)%Q ->
  Clock.run (_trigger_speech_ended v) clock = speech_ended v.
Proof.
  intros Ha Hs Hd. apply Qltb_ge in Hd.
  unfold Clock.run, _trigger_speech_ended, Clock.bind, Clock.time_time.
  rewrite Ha, Hs. cbn [negb].
  destruct (truthy_time start); [|reflexivity]. rewrite Hd. reflexivity.
Qed.

Lemma deepgram_utterance_end_short (v : EnhancedVAD.t) (clock : Clock.t) (start : Q) :
  debounced v (clock 0%nat) = false ->
  is_speech_active v = true ->
  speech_start_time v = Some start ->
  ~ (start == 0)%Q ->
  (elapsed_ms (clock 1%nat) start < inject_Z (min_speech_duration_ms v))%Q ->
  let r := Clock.run (on_deepgram_vad_event "UtteranceEnd" v) clock in
  fst r = [] /\
  filtered_events (snd r) = filtered_events v + 1 /\
  is_speech_active (snd r) = false /\
  speech_start_time (snd r) = None.
Proof.
  intros Hd Ha Hs Ht Hshort.
  unfold Clock.run, on_deepgram_vad_event, Clock.bind, Clock.time_time.
  change (debounced (with_counters _ _ _ _ _) (clock 0%nat))
    with (debounced v (clock 0%nat)). rewrite Hd.
  cbn [String.eqb Ascii.eqb Bool.eqb andb].
  match goal with
  | |- context [_trigger_speech_ended ?v' ?c] =>
      pose proof (trigger_speech_ended_short v' c start Ha Hs Ht Hshort) as H
  end.
  unfold Clock.run in H.
  match type of H with fst ?x = _ => destruct x as [r c'] end.
  cbn [fst] in H. subst r. cbn. auto.
Qed.

(** The start of a speech while none is active: the callback, with no
    test of any duration. *)
Lemma trigger_speech_started_inactive (v : EnhancedVAD.t) (clock : Clock.t) :
  is_speech_active v = false ->
  Clock.run (_trigger_speech_started v) clock =
  (if on_speech_started v then [SpeechStarted] else [],
   with_counters (with_speech v true (Some (clock 0%nat)) (last_event_time v))
     (total_speech_events v + 1) (deepgram_events v) (local_vad_events v)
     (filtered_events v)).
Proof.
  intros Ha. unfold Clock.run, _trigger_speech_started. rewrite Ha. reflexivity.
Qed.

(** The local detector, rising edge: the callback at once. *)
Lemma local_rising_edge (audio_data : bytes) (v : EnhancedVAD.t) (clock : Clock.t) :
  window_full audio_data v ->
  loud audio_data v ->
  is_speech_active v = false ->
  let r := Clock.run (process_audio_frame audio_data v) clock in
  fst r = (if on_speech_started v then [SpeechStarted] else []) /\
  is_speech_active (snd r) = true /\
  speech_start_time (snd r) = Some (clock 1%nat) /\
  local_vad_events (snd r) = local_vad_events v + 1 /\
  filtered_events (snd r) = filtered_events v.
Proof.
  unfold window_full, loud. intros Hw Hl Ha.
  apply Z.ltb_ge in Hw. apply Qltb_lt in Hl.
  unfold Clock.run, process_audio_frame, Clock.bind, Clock.time_time.
  cbn [energy_window_size with_inputs energy_threshold is_speech_active].
  rewrite Hw, Hl, Ha. cbn [andb negb].
  match goal with
  | |- context [_trigger_speech_started ?v' ?c] =>
      pose proof (trigger_speech_started_inactive v' c Ha) as H
  end.
  unfold Clock.run in H. rewrite H. cbn. auto.
Qed.

(** The local detector, falling edge: the duration is tested first. *)
Lemma local_falling_edge (audio_data : bytes) (v : EnhancedVAD.t) (clock : Clock.t)
    (start : Q) :
  window_full audio_data v ->
  ~ loud audio_data v ->
  is_speech_active v = true ->
  speech_start_time v = Some start ->
  ~ (start == 0)%Q ->
  let r := Clock.run (process_audio_frame audio_data v) clock in
  ((elapsed_ms (clock 0%nat) start < inject_Z (min_speech_duration_ms v))%Q ->
   fst r = [] /\
   filtered_events (snd r) = filtered_events v + 1 /\
   is_speech_active (snd r) = false) /\
  ((inject_Z (min_speech_duration_ms v) <= elapsed_ms (clock 0%nat) start)%Q ->
   (clock 0%nat <= clock 1%nat)%Q ->
   fst r = (if on_speech_ended v then [SpeechEnded] else []) /\
   filtered_events (snd r) = filtered_events v /\
   is_speech_active (snd r) = false).
Proof.
  unfold window_full, loud. intros Hw Hl Ha Hs Ht.
  apply Z.ltb_ge in Hw.
  assert (Hl' : Qltb (energy_threshold v) (avg_energy (window_after audio_data v))
                = false).
  { destruct (Qltb _ _) eqn:E; [|reflexivity]. apply Qltb_lt in E. contradiction. }
  apply truthy_time_iff in Ht.
  unfold Clock.run, process_audio_frame, Clock.bind, Clock.time_time.
  cbn [energy_window_size with_inputs energy_threshold is_speech_active
       speech_start_time min_speech_duration_ms].
  rewrite Hw, Hl', Ha, Hs, Ht. cbn [andb negb]. split.
  - intros Hshort.
    destruct (Qle_bool _ _) eqn:E.
    { apply Qle_bool_iff in E. exfalso. exact (Qlt_not_le _ _ Hshort E). }
    cbn. auto.
  - intros Hlong Hmono.
    pose proof Hlong as E. apply Qle_bool_iff in E. rewrite E.
    match goal with
    | |- context [_trigger_speech_ended ?v' ?c] =>
        pose proof (trigger_speech_ended_long v' c start Ha Hs) as H
    end.
    unfold Clock.run in H. rewrite H.
    + cbn. destruct (on_speech_ended v); auto.
    + cbn [min_speech_duration_ms with_inputs].
      unfold elapsed_ms in *. lra.
Qed.

(** C6: an upstream event that arrives less than [debounce_ms] after the
    last accepted one is ignored (no callback, the speech state as it
    was), and an accepted event becomes the last accepted one; the end
    of a speech that was active for less than [min_speech_duration_ms]
    fires no callback and adds one to the filtered events; in the local
    detector the rising edge of the running average fires
    [speech_started] at once, and the falling edge tests the duration
    before it fires [speech_ended]. *)
Theorem vad_debounce_and_minimum_duration (v : EnhancedVAD.t) (clock : Clock.t) :
  (forall event_type last,
     last_event_time v = Some last ->
     ~ (last == 0)%Q ->
     (elapsed_ms (clock 0%nat) last < inject_Z (debounce_ms v))%Q ->
     let r := Clock.run (on_deepgram_vad_event event_type v) clock in
     fst r = [] /\ same_speech_state v (snd r)) /\
  (forall event_type,
     debounced v (clock 0%nat) = false ->
     let r := Clock.run (on_deepgram_vad_event event_type v) clock in
     last_event_time (snd r) = Some (clock 0%nat)) /\
  (forall start,
     debounced v (clock 0%nat) = false ->
     is_speech_active v = true ->
     speech_start_time v = Some start ->
     ~ (start == 0)%Q ->
     (elapsed_ms (clock 1%nat) start < inject_Z (min_speech_duration_ms v))%Q ->
     let r := Clock.run (on_deepgram_vad_event "UtteranceEnd" v) clock in
     fst r = [] /\
     filtered_events (snd r) = filtered_events v + 1 /\
     is_speech_active (snd r) = false) /\
  (forall audio_data,
     window_full audio_data v ->
     loud audio_data v ->
     is_speech_active v = false ->
     let r := Clock.run (process_audio_frame audio_data v) clock in
     fst r = (if on_speech_started v then [SpeechStarted] else []) /\
     is_speech_active (snd r) = true /\
     filtered_events (snd r) = filtered_events v) /\
  (forall audio_data start,
     window_full audio_data v ->
     ~ loud audio_data v ->
     is_speech_active v = true ->
     speech_start_time v = Some start ->
     ~ (start == 0)%Q ->
     let r := Clock.run (process_audio_frame audio_data v) clock in
     ((elapsed_ms (clock 0%nat) start < inject_Z (min_speech_duration_ms v))%Q ->
      fst r = [] /\
      filtered_events (snd r) = filtered_events v + 1 /\
      is_speech_active (snd r) = false) /\
     ((inject_Z (min_speech_duration_ms v) <= elapsed_ms (clock 0%nat) start)%Q ->
      (clock 0%nat <= clock 1%nat)%Q ->
      fst r = (if on_speech_ended v then [SpeechEnded] else []) /\
      filtered_events (snd r) = filtered_events v /\
      is_speech_active (snd r) = false)).
Proof.
  split; [|split; [|split; [|split]]].
  - intros event_type last Hl Ht Hd.
    destruct (deepgram_event_debounced event_type v clock last Hl Ht Hd)
      as (Hc & Hs & _).
    split; assumption.
  - intros event_type Hd. apply deepgram_event_accepted. exact Hd.
  - intros start Hd Ha Hs Ht Hshort.
    destruct (deepgram_utterance_end_short v clock start Hd Ha Hs Ht Hshort)
      as (Hc & Hf & Hi & _).
    repeat split; assumption.
  - intros audio_data Hw Hl Ha.
    destruct (local_rising_edge audio_data v clock Hw Hl Ha)
      as (Hc & Hi & _ & _ & Hf).
    repeat split; assumption.
  - intros audio_data start Hw Hl Ha Hs Ht.
    exact (local_falling_edge audio_data v clock start Hw Hl Ha Hs Ht).
Qed.

(** The detector in a speech since 100 s: an upstream event 20 ms later
    is ignored; the upstream end of the utterance 100 ms later is
    filtered; so is the local falling edge 100 ms later, and 300 ms later
    it fires [speech_ended].  The detector without speech: the tenth
    loud frame fires [speech_started]. *)
Lemma vad_debounce_and_minimum_duration_witness :
  let v := in_speech_since_100 in
  let r1 := Clock.run (on_deepgram_vad_event "UtteranceEnd" v)
                      (Clock.of_list [10002 # 100]%Q) in
  let r2 := Clock.run (on_deepgram_vad_event "UtteranceEnd" v)
                      (Clock.of_list [1001 # 10]%Q) in
  let r3 := Clock.run (process_audio_frame (quiet_frame 160) v)
                      (Clock.of_list [1001 # 10]%Q) in
  let r4 := Clock.run (process_audio_frame (quiet_frame 160) v)
                      (Clock.of_list [1003 # 10]%Q) in
  let r5 := Clock.run (process_audio_frame (loud_frame 160) nine_loud_frames)
                      (Clock.of_list [100 # 1]%Q) in
  (fst r1 = [] /\ same_speech_state v (snd r1)) /\
  (fst r2 = [] /\ filtered_events (snd r2) = filtered_events v + 1) /\
  last_event_time (snd r2) = Some (1001 # 10)%Q /\
  (fst r3 = [] /\ filtered_events (snd r3) = filtered_events v + 1) /\
  fst r4 = [SpeechEnded] /\
  fst r5 = [SpeechStarted].
Proof.
  intros v r1 r2 r3 r4 r5.
  pose proof (vad_debounce_and_minimum_duration v (Clock.of_list [10002 # 100]%Q))
    as (H1 & _).
  pose proof (vad_debounce_and_minimum_duration v (Clock.of_list [1001 # 10]%Q))
    as (_ & H2 & H3 & _ & H4).
  pose proof (vad_debounce_and_minimum_duration v (Clock.of_list [1003 # 10]%Q))
    as (_ & _ & _ & _ & H5).
  pose proof (vad_debounce_and_minimum_duration nine_loud_frames
                (Clock.of_list [100 # 1]%Q)) as (_ & _ & _ & H6 & _).
  assert (Hnz : ~ (100 # 1 == 0)%Q) by (vm_compute; discriminate).
  assert (Hquiet : ~ loud (quiet_frame 160) v)
    by (vm_compute; intros H; discriminate H).
  specialize (H1 "UtteranceEnd" (100 # 1)%Q eq_refl Hnz eq_refl).
  specialize (H2 "UtteranceEnd" eq_refl).
  specialize (H3 (100 # 1)%Q eq_refl eq_refl eq_refl Hnz eq_refl).
  destruct (H4 (quiet_frame 160) (100 # 1)%Q) as (H4a & _);
    [vm_compute; discriminate|exact Hquiet|reflexivity|reflexivity|exact Hnz|].
  destruct (H5 (quiet_frame 160) (100 # 1)%Q) as (_ & H5b);
    [vm_compute; discriminate|exact Hquiet|reflexivity|reflexivity|exact Hnz|].
  destruct (H6 (loud_frame 160)) as (H6a & _);
    [vm_compute; discriminate|vm_compute; reflexivity|reflexivity|].
  destruct H3 as (H3a & H3b & _).
  destruct (H4a eq_refl) as (H4c & H4f & _).
  destruct H5b as (H5c & _);
    [vm_compute; discriminate|vm_compute; discriminate|].
  split; [exact H1|]. split; [split; [exact H3a|exact H3b]|].
  split; [exact H2|]. split; [split; [exact H4c|exact H4f]|].
  split; [exact H5c|exact H6a].
Defined.

End EnhancedVADFacts.

(** ** The interruption handler *)

Section InterruptionHandlerFacts.
Import Py InterruptionHandler.

(** The barge-in path, once taken. *)
Lemma handle_barge_in_barged_in (h : InterruptionHandler.t) (clock : Clock.t) :
  barged_in h (Clock.run (_handle_barge_in h) clock).
Proof.
  unfold barged_in, Clock.run, _handle_barge_in, Clock.bind, Clock.time_time,
    AudioPlaybackController.interrupt.
  destruct (AudioPlaybackController.is_playing (playback_controller h)) eqn:Hp;
    cbn [negb Clock.ret Clock.bind Clock.time_time fst snd];
    unfold Clock.bind, Clock.time_time, Clock.ret;
    cbn; destruct (on_interruption h); cbn;
    rewrite ?Hp; repeat split; auto; discriminate.
Qed.

(** What the barge-in path leaves alone. *)
Lemma handle_barge_in_frame (h : InterruptionHandler.t) (clock : Clock.t) :
  let h' := Clock.run (_handle_barge_in h) clock in
  enabled h' = enabled h /\
  require_confident_speech h' = require_confident_speech h /\
  min_speech_duration_ms h' = min_speech_duration_ms h /\
  false_positives h' = false_positives h /\
  speech_start_time h' = speech_start_time h.
Proof.
  unfold Clock.run, _handle_barge_in, Clock.bind, Clock.time_time,
    AudioPlaybackController.interrupt.
  destruct (AudioPlaybackController.is_playing (playback_controller h));
    cbn; destruct (on_interruption h); cbn; auto.
Qed.

(** A speech interval shorter than the minimum ends: it is counted, and
    nothing else moves. *)
Lemma on_speech_ended_short (h : InterruptionHandler.t) (start : Q)
    (clock : Clock.t) :
  enabled h = true ->
  require_confident_speech h = true ->
  speech_start_time h = Some start ->
  ~ (start == 0)%Q ->
  (elapsed_ms (clock 0%nat) start < inject_Z (min_speech_duration_ms h))%Q ->
  let h' := Clock.run (on_speech_ended h) clock in
  false_positives h' = false_positives h + 1 /\
  state h' = state h /\
  speech_queue h' = speech_queue h /\
  playback_controller h' = playback_controller h /\
  total_interruptions h' = total_interruptions h.
Proof.
  intros He Hr Hs Ht Hshort.
  unfold Clock.run, on_speech_ended, Clock.bind, Clock.time_time, Clock.ret.
  rewrite He, Hs, Hr. cbn [negb fst andb].
  apply truthy_time_iff in Ht. apply Qltb_lt in Hshort.
  rewrite Ht, Hshort. cbn. auto.
Qed.

(** C2, as amended: with [require_confident_speech], a speech interval
    that ends before [min_speech_duration_ms] is counted as a false
    positive when its end is handled.  The count does not hold back the
    barge-in: a [speech_started] that is handled (handler enabled, event
    not debounced) while the state is [SPEAKING] enters the barge-in path
    at once (playback interrupted, speech queue cleared, state
    [INTERRUPTED]), and the short end of the interval leaves that as it
    is.  In the other states the barge-in path is not entered. *)
Theorem short_speech_false_positive_after_barge_in
    (h : InterruptionHandler.t) (clock clock' : Clock.t) :
  enabled h = true ->
  debounced h (clock 0%nat) = false ->
  require_confident_speech h = true ->
  ~ (clock 0%nat == 0)%Q ->
  (elapsed_ms (clock' 0%nat) (clock 0%nat)
   < inject_Z (min_speech_duration_ms h))%Q ->
  let h1 := Clock.run (on_speech_started h) clock in
  let h2 := Clock.run (on_speech_ended h1) clock' in
  false_positives h2 = false_positives h + 1 /\
  (state h = SPEAKING -> barged_in h h1 /\ barged_in h h2) /\
  (state h <> SPEAKING -> not_barged_in h h1 /\ not_barged_in h h2).
Proof.
  intros He Hd Hr Ht Hshort h1 h2.
  set (h0 := with_times h (Some (clock 0%nat)) (Some (clock 0%nat))).
  set (rest := fun n => clock (S n)).
  assert (Hh1 : h1 = match state h with
                     | SPEAKING => Clock.run (_handle_barge_in h0) rest
                     | _ => h0
                     end).
  { unfold h1, Clock.run, on_speech_started, Clock.bind, Clock.time_time.
    rewrite He. cbn [negb]. rewrite Hd. fold h0.
    change (state h0) with (state h). destruct (state h); reflexivity. }
  destruct (state h) eqn:Hst.
  1,2,4: (
    assert (Hend : speech_start_time h1 = Some (clock 0%nat)) by (rewrite Hh1; reflexivity);
    assert (He1 : enabled h1 = true) by (rewrite Hh1; exact He);
    assert (Hr1 : require_confident_speech h1 = true) by (rewrite Hh1; exact Hr);
    assert (Hshort1 : (elapsed_ms (clock' 0%nat) (clock 0%nat)
                       < inject_Z (min_speech_duration_ms h1))%Q)
      by (rewrite Hh1; exact Hshort);
    destruct (on_speech_ended_short h1 (clock 0%nat) clock' He1 Hr1 Hend Ht Hshort1)
      as (Hfp & Hs2 & Hq2 & Hp2 & Hti2);
    fold h2 in Hfp, Hs2, Hq2, Hp2, Hti2;
    split; [rewrite Hfp, Hh1; reflexivity|];
    split; [discriminate|]; intros _;
    assert (Hn1 : not_barged_in h h1)
      by (rewrite Hh1; unfold not_barged_in; cbn; rewrite Hst; auto);
    split; [exact Hn1|];
    destruct Hn1 as (? & ? & ? & ?);
    unfold not_barged_in; repeat split; congruence).
  pose proof (handle_barge_in_barged_in h0 rest) as Hb.
  pose proof (handle_barge_in_frame h0 rest) as (Hfe & Hfr & Hfm & Hff & Hfs).
  rewrite <- Hh1 in Hb, Hfe, Hfr, Hfm, Hff, Hfs.
  change (enabled h0) with (enabled h) in Hfe.
  change (require_confident_speech h0) with (require_confident_speech h) in Hfr.
  change (min_speech_duration_ms h0) with (min_speech_duration_ms h) in Hfm.
  change (false_positives h0) with (false_positives h) in Hff.
  change (speech_start_time h0) with (Some (clock 0%nat)) in Hfs.
  assert (Hb1 : barged_in h h1) by exact Hb.
  rewrite <- Hfm in Hshort. rewrite <- Hfe in He. rewrite <- Hfr in Hr.
  destruct (on_speech_ended_short h1 (clock 0%nat) clock' He Hr Hfs Ht Hshort)
    as (Hfp & Hs2 & Hq2 & Hp2 & Hti2).
  fold h2 in Hfp, Hs2, Hq2, Hp2, Hti2.
  split; [congruence|]. split; [|congruence]. intros _.
  split; [exact Hb1|].
  destruct Hb1 as (B1 & B2 & B3 & B4 & B5).
  unfold barged_in. rewrite Hs2, Hq2, Hp2, Hti2. repeat split; auto; apply B4; auto.
Qed.

(** The speaking handler hears 50 ms of speech. *)
Lemma short_speech_false_positive_after_barge_in_witness :
  let clock := Clock.of_list [1010 # 1; 1010001 # 1000; 1010002 # 1000;
                              1010003 # 1000; 1010004 # 1000]%Q in
  let clock' := Clock.of_list [101005 # 100]%Q in
  let h := speaking_handler in
  let h1 := Clock.run (on_speech_started h) clock in
  let h2 := Clock.run (on_speech_ended h1) clock' in
  false_positives h2 = false_positives h + 1 /\
  barged_in h h1 /\ barged_in h h2.
Proof.
  intros clock clock' h h1 h2.
  assert (Ht : ~ (clock 0%nat == 0)%Q) by (vm_compute; discriminate).
  assert (Hshort : (elapsed_ms (clock' 0%nat) (clock 0%nat)
                    < inject_Z (min_speech_duration_ms h))%Q)
    by (vm_compute; reflexivity).
  destruct (short_speech_false_positive_after_barge_in h clock clock'
              eq_refl eq_refl eq_refl Ht Hshort) as (Hfp & Hsp & _).
  split; [exact Hfp|]. exact (Hsp eq_refl).
Defined.

(** C2, as stated, fails: the speaking handler, with confident speech
    required and a minimum of 200 ms, hears speech that starts at
    1010.00 s and ends at 1010.05 s.  The false positive is counted, and
    the barge-in path has been entered all the same: playback is
    interrupted and the speech queue is cleared. *)
Lemma short_speech_barge_in_counterexample :
  let clock := Clock.of_list [1010 # 1; 1010001 # 1000; 1010002 # 1000;
                              1010003 # 1000; 1010004 # 1000]%Q in
  let clock' := Clock.of_list [101005 # 100]%Q in
  let h := speaking_handler in
  let h1 := Clock.run (on_speech_started h) clock in
  let h2 := Clock.run (on_speech_ended h1) clock' in
  (require_confident_speech h = true /\ state h = SPEAKING /\
   min_speech_duration_ms h = 200 /\
   Qeq (elapsed_ms (clock' 0%nat) (clock 0%nat)) (50 # 1)) /\
  false_positives h2 = 1 /\
  (length (SpeechQueue.queue (speech_queue h)) = 1%nat /\
   SpeechQueue.queue (speech_queue h2) = []) /\
  (AudioBuffer.interrupted
     (AudioPlaybackController.audio_buffer (playback_controller h)) = false /\
   AudioBuffer.interrupted
     (AudioPlaybackController.audio_buffer (playback_controller h2)) = true) /\
  state h2 = INTERRUPTED /\
  total_interruptions h2 = 1 /\
  ~ not_barged_in h h2.
Proof.
  vm_compute. repeat split; try reflexivity.
  intros (H & _). discriminate H.
Qed.

End InterruptionHandlerFacts.

(** ** The speech queue *)

Section SortFacts.
Import Py.
Context {A : Type} (key : A -> Z).

Lemma insert_desc_perm (x : A) (l : list A) :
  Permutation (insert_desc key x l) (x :: l).
Proof.
  induction l as [|y l IH]; cbn; [reflexivity|].
  destruct (key y <? key x); [reflexivity|].
  rewrite IH. apply perm_swap.
Qed.

Lemma sort_desc_snoc (l : list A) (x : A) :
  sort_desc key (l ++ [x]) = insert_desc key x (sort_desc key l).
Proof. unfold sort_desc. rewrite fold_left_app. reflexivity. Qed.

Lemma sort_desc_perm (l : list A) : Permutation (sort_desc key l) l.
Proof.
  induction l as [|x l IH] using rev_ind; [reflexivity|].
  rewrite sort_desc_snoc, insert_desc_perm, IH.
  apply Permutation_cons_append.
Qed.

Lemma insert_desc_last (x : A) (l : list A) :
  Forall (fun y => key x <= key y) l -> insert_desc key x l = l ++ [x].
Proof.
  induction 1 as [|y l Hy _ IH]; cbn; [reflexivity|].
  destruct (key y <? key x) eqn:E; [apply Z.ltb_lt in E; lia|].
  rewrite IH. reflexivity.
Qed.

Lemma insert_desc_sorted (x : A) (l : list A) :
  StronglySorted (fun a b => key b <= key a) l ->
  StronglySorted (fun a b => key b <= key a) (insert_desc key x l).
Proof.
  induction 1 as [|y l Hs IH Hy]; cbn; [repeat constructor|].
  destruct (key y <? key x) eqn:E.
  - apply Z.ltb_lt in E. constructor; [constructor; assumption|].
    constructor; [lia|]. eapply List.Forall_impl; [|exact Hy].
    cbn. intros; lia.
  - apply Z.ltb_ge in E. constructor; [exact IH|].
    eapply Permutation_Forall; [symmetry; apply insert_desc_perm|].
    constructor; assumption.
Qed.

(** The sort puts the keys in decreasing order ... *)
Lemma sort_desc_sorted (l : list A) :
  StronglySorted (fun a b => key b <= key a) (sort_desc key l).
Proof.
  induction l as [|x l IH] using rev_ind; [constructor|].
  rewrite sort_desc_snoc. apply insert_desc_sorted. exact IH.
Qed.

Lemma filter_key_below (k : Z) (l : list A) :
  Forall (fun y => key y < k) l -> List.filter (fun y => key y =? k) l = [].
Proof.
  induction 1 as [|y l Hy _ IH]; cbn; [reflexivity|].
  destruct (key y =? k) eqn:E; [apply Z.eqb_eq in E; lia|exact IH].
Qed.

Lemma insert_desc_filter (k : Z) (x : A) (l : list A) :
  StronglySorted (fun a b => key b <= key a) l ->
  List.filter (fun y => key y =? k) (insert_desc key x l) =
  List.filter (fun y => key y =? k) l ++ (if key x =? k then [x] else []).
Proof.
  induction 1 as [|y l Hs IH Hy]; cbn.
  - destruct (key x =? k); reflexivity.
  - destruct (key y <? key x) eqn:E; cbn.
    + apply Z.ltb_lt in E. destruct (key x =? k) eqn:Ex.
      * apply Z.eqb_eq in Ex.
        destruct (key y =? k) eqn:Ey; [apply Z.eqb_eq in Ey; lia|].
        rewrite filter_key_below; [reflexivity|].
        eapply List.Forall_impl; [|exact Hy]. cbn. intros; lia.
      * rewrite app_nil_r. reflexivity.
    + rewrite IH. destruct (key y =? k); reflexivity.
Qed.

(** ... and is stable: the elements of one key keep their order. *)
Lemma sort_desc_stable (k : Z) (l : list A) :
  List.filter (fun y => key y =? k) (sort_desc key l) =
  List.filter (fun y => key y =? k) l.
Proof.
  induction l as [|x l IH] using rev_ind; [reflexivity|].
  rewrite sort_desc_snoc, insert_desc_filter by apply sort_desc_sorted.
  rewrite IH, List.filter_app. cbn. reflexivity.
Qed.

Lemma StronglySorted_snoc_inv (R : A -> A -> Prop) (l : list A) (x : A) :
  StronglySorted R (l ++ [x]) ->
  StronglySorted R l /\ Forall (fun y => R y x) l.
Proof.
  induction l as [|y l IH]; cbn; intros H; [split; constructor|].
  inversion H as [|? ? Hs Hy]; subst.
  destruct (IH Hs) as (Hl & Hx). apply Forall_app in Hy as (Hy1 & Hy2).
  split; constructor; auto. inversion Hy2; auto.
Qed.

(** A list already in decreasing order of keys is left as it is. *)
Lemma sort_desc_sorted_id (l : list A) :
  StronglySorted (fun a b => key b <= key a) l -> sort_desc key l = l.
Proof.
  induction l as [|x l IH] using rev_ind; [reflexivity|].
  intros H. apply StronglySorted_snoc_inv in H as (Hl & Hx).
  rewrite sort_desc_snoc, IH by exact Hl.
  apply insert_desc_last. exact Hx.
Qed.

End SortFacts.

Section SpeechQueueFacts.
Import Py SpeechQueue.

Lemma speech_id_inj (a b : nat) : speech_id a = speech_id b -> a = b.
Proof.
  unfold speech_id. intros H.
  apply (inj (String.append "speech_")) in H.
  apply (inj pretty) in H. exact H.
Qed.

Lemma before_priority (x y : Speech) : before x y -> priority y <= priority x.
Proof. intros [H|(H & _)]; lia. Qed.

Lemma ordered_by_priority (l : list Speech) :
  StronglySorted before l ->
  StronglySorted (fun a b => priority b <= priority a) l.
Proof.
  induction 1 as [|x l Hs IH Hx]; constructor; auto.
  eapply List.Forall_impl; [|exact Hx]. apply before_priority.
Qed.

(** A new speech, whose number is above all numbers in the queue, goes
    to its place in the serving order. *)
Lemma insert_desc_before (x : Speech) (n : nat) (l : list Speech) :
  enqueued_as x n ->
  Forall (fun y => exists a, enqueued_as y a /\ (a < n)%nat) l ->
  StronglySorted before l ->
  StronglySorted before (insert_desc priority x l).
Proof.
  intros Hx Hnum Hs. induction Hs as [|y l Hs IH Hy]; cbn.
  - repeat constructor.
  - inversion Hnum as [|? ? (a & Ha & Hlt) Hnum']; subst.
    destruct (priority y <? priority x) eqn:E.
    + apply Z.ltb_lt in E. constructor; [constructor; assumption|].
      constructor; [left; exact E|].
      eapply List.Forall_impl; [|exact Hy]. cbn. intros z Hz.
      left. apply before_priority in Hz. lia.
    + apply Z.ltb_ge in E. constructor; [apply IH; exact Hnum'|].
      eapply Permutation_Forall; [symmetry; apply insert_desc_perm|].
      constructor; [|exact Hy].
      destruct (Z.eq_dec (priority x) (priority y)) as [Heq|Hne].
      * right. split; [exact Heq|]. exists a, n. auto.
      * left. lia.
Qed.

Lemma add_unfold (text : string) (prio : Z) (q : SpeechQueue.t) (clock : Clock.t) :
  add text prio q clock =
  (speech_id (next_speech_id q),
   {| queue :=
        sort_desc priority
          (queue q ++ [{| id := speech_id (next_speech_id q); text := text;
                          priority := prio; queued_at := clock 0%nat |}]);
      current_speech_id := current_speech_id q;
      next_speech_id := S (next_speech_id q) |},
   fun n => clock (S n)).
Proof. reflexivity. Qed.

Lemma add_ordered (text : string) (prio : Z) (q : SpeechQueue.t) (clock : Clock.t) :
  ordered q -> ordered (snd (Clock.run (add text prio q) clock)).
Proof.
  intros (Hs & Hn). unfold Clock.run. rewrite add_unfold. cbn [fst snd].
  set (x := {| id := speech_id (next_speech_id q); text := text;
               priority := prio; queued_at := clock 0%nat |}).
  assert (Hq : sort_desc priority (queue q ++ [x]) =
               insert_desc priority x (queue q)).
  { rewrite sort_desc_snoc, sort_desc_sorted_id; [reflexivity|].
    apply ordered_by_priority. exact Hs. }
  unfold ordered. cbn [queue next_speech_id]. rewrite Hq. split.
  - apply (insert_desc_before x (next_speech_id q)); auto. reflexivity.
  - eapply Permutation_Forall; [symmetry; apply insert_desc_perm|].
    constructor.
    + exists (next_speech_id q). split; [reflexivity|lia].
    + eapply List.Forall_impl; [|exact Hn]. cbn.
      intros y (a & Ha & Hlt). exists a. split; [exact Ha|lia].
Qed.

Lemma step_ordered (o : Op) (q : SpeechQueue.t) (clock : Clock.t) :
  ordered q ->
  ordered (fst (step o q clock)) /\
  next_speech_id (fst (step o q clock)) =
    (next_speech_id q + adds [o])%nat.
Proof.
  intros Ho. destruct o as [text prio| |]; cbn [step adds List.filter length].
  - split.
    + apply (add_ordered text prio q clock Ho).
    + unfold Clock.bind. rewrite add_unfold. cbn. lia.
  - unfold get_next, Clock.ret. cbn [fst].
    destruct Ho as (Hs & Hn). destruct (queue q) as [|x rest] eqn:Hq; cbn.
    + split; [|lia]. unfold ordered. rewrite Hq. auto.
    + inversion Hs; inversion Hn; subst. split; [|lia]. split; assumption.
  - cbn. split; [|lia]. split; constructor.
Qed.

Lemma run_ordered (ops : list Op) (q : SpeechQueue.t) (clock : Clock.t) :
  ordered q ->
  ordered (Clock.run (run ops q) clock) /\
  next_speech_id (Clock.run (run ops q) clock) = (next_speech_id q + adds ops)%nat.
Proof.
  revert q clock. induction ops as [|o ops IH]; intros q clock Ho.
  - cbn. split; [exact Ho|]. unfold adds. cbn. lia.
  - unfold Clock.run. cbn [run]. unfold Clock.bind.
    destruct (step_ordered o q clock Ho) as (Ho' & Hn').
    destruct (step o q clock) as [q' clock'] eqn:E. cbn [fst] in Ho', Hn'.
    destruct (IH q' clock' Ho') as (Ho'' & Hn'').
    unfold Clock.run in Ho'', Hn''. split; [exact Ho''|].
    rewrite Hn'', Hn'. unfold adds. cbn [List.filter].
    destruct o; cbn [length]; lia.
Qed.

Lemma init_ordered : ordered SpeechQueue.init.
Proof. split; constructor. Qed.

(** C7: after any sequence of [add], [get_next] and [clear] on a new
    queue, [get_next] returns the head of the queue, and every other
    speech still in the queue has a priority that is not higher and,
    when it has the same priority, was enqueued later; the queue after
    [add] holds the new speech and the speeches it held, and the call
    number [n] of [add] (from 0) returns the id "speech_n", different
    numbers giving different ids. *)
Theorem get_next_priority_fifo (ops : list Op) (clock : Clock.t) :
  let q := Clock.run (run ops SpeechQueue.init) clock in
  match get_next q with
  | (Some speech, q') =>
      queue q = speech :: queue q' /\
      current_speech_id q' = Some (id speech) /\
      forall other, In other (queue q') ->
        priority other <= priority speech /\
        (priority other = priority speech ->
         exists a b,
           enqueued_as speech a /\ enqueued_as other b /\ (a < b)%nat)
  | (None, q') => queue q = [] /\ q' = q
  end /\
  (forall text prio clock',
     let '(sid, q1) := Clock.run (add text prio q) clock' in
     sid = speech_id (adds ops) /\
     next_speech_id q1 = S (adds ops) /\
     exists speech,
       id speech = sid /\ SpeechQueue.text speech = text /\
       priority speech = prio /\
       Permutation (queue q1) (speech :: queue q)) /\
  (forall a b, speech_id a = speech_id b -> a = b).
Proof.
  intros q.
  destruct (run_ordered ops SpeechQueue.init clock init_ordered) as (Ho & Hn).
  fold q in Ho, Hn. cbn [next_speech_id SpeechQueue.init plus] in Hn.
  split; [|split].
  - unfold get_next. destruct Ho as (Hs & _).
    destruct (queue q) as [|x rest] eqn:Hq; [auto|].
    cbn [queue current_speech_id]. split; [reflexivity|]. split; [reflexivity|].
    inversion Hs as [|? ? _ Hx]; subst.
    intros other Hin. rewrite List.Forall_forall in Hx.
    specialize (Hx other Hin). split; [apply before_priority; exact Hx|].
    intros Heq. destruct Hx as [Hlt|(_ & Hab)]; [lia|exact Hab].
  - intros text prio clock'. unfold Clock.run. rewrite add_unfold. cbn [fst].
    rewrite Hn. split; [reflexivity|]. split; [reflexivity|].
    exists {| id := speech_id (adds ops); text := text; priority := prio;
              queued_at := clock' 0%nat |}.
    split; [reflexivity|]. split; [reflexivity|]. split; [reflexivity|].
    cbn [queue snd]. rewrite sort_desc_perm. symmetry. apply Permutation_cons_append.
  - exact speech_id_inj.
Qed.

(** Three utterances, the second with a higher priority: it is served
    first, and the two others in the order they came. *)
Example get_next_order :
  let q := Clock.run (run [OpAdd "a" 0; OpAdd "b" 5; OpAdd "c" 0]
                          SpeechQueue.init)
                     (Clock.of_list [1 # 1; 2 # 1; 3 # 1]%Q) in
  map id (queue q) = ["speech_1"; "speech_0"; "speech_2"].
Proof. vm_compute. reflexivity. Qed.

End SpeechQueueFacts.

(** ** The messages for the LLM *)

Section LLMClientFacts.
Import Py LLMClient.

Lemma dropwhile_nil {A} (p : A -> bool) (l : list A) :
  dropwhile p l = [] <-> forallb p l = true.
Proof.
  induction l as [|x l IH]; cbn; [tauto|].
  destruct (p x); cbn; [exact IH|]. split; discriminate.
Qed.

Lemma forallb_dropwhile {A} (p : A -> bool) (l : list A) :
  forallb p (dropwhile p l) = forallb p l.
Proof.
  induction l as [|x l IH]; cbn; [reflexivity|].
  destruct (p x) eqn:E; cbn; [exact IH|]. rewrite E. reflexivity.
Qed.

Lemma truthy_str (l : list ascii) : truthy (str l) = true <-> l <> [].
Proof. destruct l; cbn; split; congruence. Qed.

(** [s.strip()] is not empty exactly when [s] has a character that is
    not white space. *)
Lemma truthy_strip (s : string) :
  truthy (strip s) = true <->
  exists c, In c (chars s) /\ isspace c = false.
Proof.
  unfold strip, rstrip, lstrip. rewrite truthy_str, chars_str.
  assert (H : rev (dropwhile isspace (rev (dropwhile isspace (chars s)))) = []
              <-> forallb isspace (chars s) = true).
  { rewrite <- (forallb_dropwhile isspace (chars s)).
    rewrite <- (forallb_rev isspace (dropwhile isspace (chars s))).
    rewrite <- dropwhile_nil. split.
    - intros H. apply (f_equal (@rev ascii)) in H.
      rewrite rev_involutive in H. exact H.
    - intros ->. reflexivity. }
  rewrite H. split.
  - intros Hne. destruct (forallb isspace (chars s)) eqn:E; [congruence|].
    clear -E. induction (chars s) as [|c l IH]; [discriminate|].
    cbn in E. destruct (isspace c) eqn:Ec.
    + destruct (IH E) as (c' & Hin & Hc'). exists c'. split; [right|]; assumption.
    + exists c. split; [left; reflexivity|exact Ec].
  - intros (c & Hin & Hc) Hall. rewrite List.forallb_forall in Hall.
    specialize (Hall c Hin). congruence.
Qed.

Lemma forwardedb_iff (turn : gmap string string) :
  forwardedb turn = true <-> forwarded turn.
Proof.
  unfold forwardedb, forwarded.
  destruct (turn !! "role") as [role|] eqn:Hr.
  - rewrite andb_true_iff, orb_true_iff, !String.eqb_eq, truthy_strip. split.
    + intros (Hrole & c & Hin & Hc). split.
      * destruct Hrole as [->| ->]; auto.
      * destruct (turn !! "content") as [content|]; [|destruct Hin].
        exists content, c. auto.
    + intros (Hrole & content & c & Hcont & Hin & Hc). split.
      * destruct Hrole as [H|H]; inversion H; auto.
      * rewrite Hcont. exists c. auto.
  - split; [discriminate|]. intros ([H|H] & _); discriminate.
Qed.

(** The loop over the window keeps the turns that pass the test. *)
Lemma fold_add_turn_message (window : list (gmap string string))
    (messages : list (gmap string string)) :
  fold_left add_turn_message window messages =
  messages ++ map message_of (List.filter forwardedb window).
Proof.
  revert messages. induction window as [|turn window IH]; intros messages.
  - cbn. rewrite app_nil_r. reflexivity.
  - change (fold_left add_turn_message (turn :: window) messages)
      with (fold_left add_turn_message window (add_turn_message messages turn)).
    change (List.filter forwardedb (turn :: window))
      with (if forwardedb turn then turn :: List.filter forwardedb window
            else List.filter forwardedb window).
    rewrite IH. unfold add_turn_message. unfold forwardedb at 2.
    destruct (turn !! "role") as [role|] eqn:Hr; [|reflexivity].
    destruct ((String.eqb role "user" || String.eqb role "assistant")
              && truthy (strip (default "" (turn !! "content")))).
    + rewrite <- app_assoc. cbn [map app]. unfold message_of at 2.
      rewrite Hr. reflexivity.
    + reflexivity.
Qed.

(** [l[-k:]] for a positive [k]: the last [k] elements, or all of them. *)
Lemma last_slice_positive {A} (k : Z) (l : list A) :
  0 < k ->
  exists older,
    l = older ++ last_slice k l /\
    length (last_slice k l) = Nat.min (Z.to_nat k) (length l).
Proof.
  intros Hk. unfold last_slice, slice_from, len_list.
  destruct (- k <? 0) eqn:E; [|apply Z.ltb_ge in E; lia].
  exists (take (Z.to_nat (Z.max 0 (- k + Z.of_nat (length l)))) l).
  split; [symmetry; apply take_drop|].
  rewrite length_drop. lia.
Qed.

Lemma message_role (role content : string) :
  message role content !! "role" = Some role.
Proof. unfold message. apply lookup_insert_eq. Qed.

Lemma message_content (role content : string) :
  message role content !! "content" = Some content.
Proof.
  unfold message. rewrite lookup_insert_ne by discriminate.
  apply lookup_singleton_eq.
Qed.

(** The messages made of forwarded turns have the two roles and a text
    that is not blank. *)
Lemma forwarded_messages (window : list (gmap string string)) :
  Forall (fun m =>
            (m !! "role" = Some "user" \/ m !! "role" = Some "assistant") /\
            exists content,
              m !! "content" = Some content /\ truthy (strip content) = true)
         (map message_of (List.filter forwardedb window)).
Proof.
  apply List.Forall_forall. intros m Hin.
  apply in_map_iff in Hin as (turn & <- & Hin).
  apply filter_In in Hin as (_ & Hf).
  unfold forwardedb in Hf. unfold message_of.
  destruct (turn !! "role") as [role|]; [|discriminate].
  apply andb_prop in Hf as (Hrole & Hcontent).
  rewrite message_role, message_content. split.
  - apply orb_prop in Hrole as [H|H]; apply String.eqb_eq in H; subst; auto.
  - eexists. split; [reflexivity|exact Hcontent].
Qed.

(** X30: with a positive [max_history_turns] (20 by default), the
    messages of the request are those of the turns among the last
    [max_history_turns] of the context whose role is "user" or
    "assistant" and whose text is not blank, in their order, then the
    current user message; no other turn is forwarded; the system prompt
    is an argument of its own of the request. *)
Theorem build_messages_window (c : LLMClient.t)
    (conversation_context : list (gmap string string)) (user_message : string) :
  0 < max_history_turns c ->
  let req := request c conversation_context user_message in
  exists older window,
    conversation_context = older ++ window /\
    length window =
      Nat.min (Z.to_nat (max_history_turns c)) (length conversation_context) /\
    req_messages req =
      map message_of (List.filter forwardedb window)
      ++ [message "user" user_message] /\
    (forall turn, forwardedb turn = true <-> forwarded turn) /\
    Forall (fun m =>
              (m !! "role" = Some "user" \/ m !! "role" = Some "assistant") /\
              exists content,
                m !! "content" = Some content /\ truthy (strip content) = true)
           (map message_of (List.filter forwardedb window)) /\
    req_system req =
      (if truthy (system_prompt c) then Some (system_prompt c) else None).
Proof.
  intros Hk req.
  destruct (last_slice_positive (max_history_turns c) conversation_context Hk)
    as (older & Hctx & Hlen).
  exists older, (last_slice (max_history_turns c) conversation_context).
  split; [exact Hctx|]. split; [exact Hlen|]. split.
  - unfold req, request, _build_messages. cbn [req_messages].
    rewrite fold_add_turn_message. reflexivity.
  - split; [exact forwardedb_iff|]. split; [apply forwarded_messages|reflexivity].
Qed.

(** The window of 20 turns holds the four turns of the history; the turn
    of the system and the blank turn are left out. *)
Lemma build_messages_window_witness :
  req_messages (request default_client four_turns "and now?") =
  [message "user" "hi"; message "assistant" "hello"; message "user" "and now?"].
Proof.
  assert (Hk : 0 < max_history_turns default_client) by reflexivity.
  destruct (build_messages_window default_client four_turns "and now?" Hk)
    as (older & window & Hctx & Hlen & Hmsg & _).
  rewrite Hmsg.
  assert (Holder : older = []).
  { apply (f_equal (@length _)) in Hctx. rewrite length_app, Hlen in Hctx.
    destruct older; [reflexivity|]. cbn in Hctx. lia. }
  subst older. cbn [app] in Hctx. subst window. reflexivity.
Defined.

(** C8, at the failing input [max_history_turns = 0]: the last zero
    turns of a history are no turns, so the window of the claim is empty
    and the current message would be sent alone.  The slice
    [conversation_context[-0:]] is the whole list: the client sends the
    turns of the whole history that pass the test, then the current
    message. *)
Theorem build_messages_zero_window :
  let c0 := init "claude-3-7-sonnet-20250219" 150 (7 # 10)%Q "" 0 in
  max_history_turns c0 = 0 /\
  keep_last (Z.to_nat (max_history_turns c0)) four_turns = [] /\
  last_slice (max_history_turns c0) four_turns = four_turns /\
  req_messages (request c0 four_turns "and now?") =
    [message "user" "hi"; message "assistant" "hello";
     message "user" "and now?"] /\
  req_messages (request c0 four_turns "and now?") <>
    [message "user" "and now?"].
Proof.
  cbv zeta. split; [reflexivity|]. split; [reflexivity|].
  split; [reflexivity|].
  assert (Hsent :
            req_messages
              (request (init "claude-3-7-sonnet-20250219" 150 (7 # 10)%Q "" 0)
                       four_turns "and now?") =
            [message "user" "hi"; message "assistant" "hello";
             message "user" "and now?"]) by reflexivity.
  split; [exact Hsent|].
  rewrite Hsent. intros H. apply (f_equal (@length _)) in H. discriminate H.
Qed.

End LLMClientFacts.

(** ** The history of a conversation *)

Section ConversationFacts.
Import Py Conversation.

Lemma keep_last_all {A} (n : nat) (l : list A) :
  (length l <= n)%nat -> keep_last n l = l.
Proof.
  intros H. unfold keep_last. replace (length l - n)%nat with 0%nat by lia.
  reflexivity.
Qed.

Lemma keep_last_length {A} (n : nat) (l : list A) :
  length (keep_last n l) = Nat.min n (length l).
Proof. unfold keep_last. rewrite length_drop. lia. Qed.

Lemma keep_last_app {A} (n : nat) (l k : list A) :
  keep_last n (keep_last n l ++ k) = keep_last n (l ++ k).
Proof.
  destruct (Nat.le_gt_cases (length l) n) as [Hle|Hgt].
  - rewrite (keep_last_all n l Hle). reflexivity.
  - unfold keep_last at 1 3. rewrite !length_app, keep_last_length.
    replace (Nat.min n (length l) + length k - n)%nat with (length k) by lia.
    replace (length l + length k - n)%nat
      with ((length l - n) + length k)%nat by lia.
    rewrite <- drop_drop. unfold keep_last.
    rewrite (drop_app_le l k (length l - n)) by lia. reflexivity.
Qed.

Lemma keep_last_map {A B} (f : A -> B) (n : nat) (l : list A) :
  map f (keep_last n l) = keep_last n (map f l).
Proof. unfold keep_last. rewrite length_map. symmetry. apply skipn_map. Qed.

(** The window of ten turns, as [add_turn] cuts it. *)
Lemma window_of_ten (l : list Turn) :
  (if 10 <? len_list l then last_slice 10 l else l) = keep_last 10 l.
Proof.
  unfold last_slice, slice_from, len_list, keep_last.
  destruct (10 <? Z.of_nat (length l)) eqn:E.
  - apply Z.ltb_lt in E. change (- (10) <? 0) with true. cbv iota.
    f_equal. lia.
  - apply Z.ltb_ge in E. replace (length l - 10)%nat with 0%nat by lia.
    reflexivity.
Qed.

Lemma add_turn_turns (speaker text : string) (confidence : Q)
    (c : Conversation.t) (clock : Clock.t) :
  turns (Clock.run (add_turn speaker text confidence c) clock) =
  keep_last 10
    (turns c ++ [{| speaker := speaker; text := text; timestamp := clock 0%nat;
                    confidence := confidence; intent := detect_intent text;
                    sentiment := analyze_sentiment text |}]).
Proof.
  unfold Clock.run, add_turn, new_turn, Clock.bind, Clock.time_time, Clock.ret.
  cbn [fst turns]. apply window_of_ten.
Qed.

Lemma add_turns_turns (calls : list Said) (c : Conversation.t) (clock : Clock.t) :
  (length (turns c) <= 10)%nat ->
  map said_of (turns (Clock.run (add_turns calls c) clock)) =
  keep_last 10 (map said_of (turns c) ++ calls).
Proof.
  revert c clock. induction calls as [|call rest IH]; intros c clock Hc.
  - cbn. rewrite app_nil_r, keep_last_all; [reflexivity|].
    rewrite length_map. exact Hc.
  - destruct call as [speaker text confidence].
    set (call := {| said_speaker := speaker; said_text := text;
                    said_confidence := confidence |}).
    unfold Clock.run. cbn [add_turns]. unfold Clock.bind.
    pose proof (add_turn_turns (said_speaker call) (said_text call)
                  (said_confidence call) c clock) as Hstep.
    unfold Clock.run in Hstep.
    destruct (add_turn (said_speaker call) (said_text call)
                (said_confidence call) c clock) as [c' clock'].
    cbn [fst] in Hstep.
    specialize (IH c' clock'). unfold Clock.run in IH. rewrite IH.
    + rewrite Hstep, keep_last_map, map_app. cbn [map].
      change (said_of _) with call at 1.
      rewrite keep_last_app, <- app_assoc. reflexivity.
    + rewrite Hstep, keep_last_length. lia.
Qed.

(** C9, as amended: [add_turn] puts the new turn at the end of the
    history and keeps the last ten turns: the history after the call is
    the history before it followed by the new turn, without its oldest
    turn when that makes more than ten.  The turns that stay are
    unchanged and in their order.  After any number of calls on a new
    conversation the history holds the last ten of the turns that were
    added (all of them when they are ten or fewer), in their order. *)
Theorem add_turn_keeps_last_ten (c : Conversation.t) (speaker text : string)
    (confidence : Q) (call_id : string) (calls : list Said) (clock : Clock.t) :
  (let c' := Clock.run (add_turn speaker text confidence c) clock in
   exists new_turn dropped,
     said_of new_turn =
       {| said_speaker := speaker; said_text := text;
          said_confidence := confidence |} /\
     turns c ++ [new_turn] = dropped ++ turns c' /\
     length (turns c') = Nat.min 10 (length (turns c) + 1)) /\
  (let c' := Clock.run (let! c0 := init call_id in add_turns calls c0) clock in
   map said_of (turns c') = keep_last 10 calls).
Proof.
  split.
  - cbv zeta. rewrite add_turn_turns.
    exists {| speaker := speaker; text := text; timestamp := clock 0%nat;
              confidence := confidence; intent := detect_intent text;
              sentiment := analyze_sentiment text |}.
    eexists (take _ _). split; [reflexivity|]. split.
    + unfold keep_last. symmetry. apply take_drop.
    + rewrite keep_last_length, length_app. cbn. reflexivity.
  - cbv zeta. unfold Clock.run, init, Clock.bind, Clock.time_time, Clock.ret.
    cbv beta iota.
    match goal with
    | |- context [add_turns calls ?c0 ?clock0] =>
        pose proof (add_turns_turns calls c0 clock0) as H
    end.
    unfold Clock.run in H. rewrite H; [reflexivity|]. cbn. lia.
Qed.

(** C9, as stated, fails: after eleven calls of [add_turn] on a new
    conversation the history has ten turns, and the first turn is not
    among them. *)
Lemma add_turn_append_only_counterexample :
  let c := Clock.run (let! c0 := init "call" in add_turns eleven_calls c0)
                     (fun _ => (1000 # 1)%Q) in
  length eleven_calls = 11%nat /\
  map said_text (firstn 1 eleven_calls) = ["turn 1"] /\
  length (turns c) = 10%nat /\
  map text (turns c) =
    ["turn 2"; "turn 3"; "turn 4"; "turn 5"; "turn 6"; "turn 7"; "turn 8";
     "turn 9"; "turn 10"; "turn 11"] /\
  ~ In "turn 1" (map text (turns c)).
Proof.
  vm_compute. repeat split; try reflexivity.
  intros H. repeat (destruct H as [H|H]; [discriminate H|]). exact H.
Qed.

End ConversationFacts.

(** ** The registry of active calls *)

Section ServerFacts.
Import Py Server.

Lemma size_insert_le (k : string) (info : CallInfo) (m : gmap string CallInfo) :
  (size (<[k := info]> m) <= S (size m))%nat.
Proof. rewrite map_size_insert. destruct (m !! k); cbn; lia. Qed.

Lemma size_delete_le (k : string) (m : gmap string CallInfo) :
  (size (delete k m) <= size m)%nat.
Proof. rewrite map_size_delete. destruct (m !! k); cbn; lia. Qed.

(** An admission attempt at the limit is rejected, and the registry is
    the one before the attempt. *)
Lemma admission_at_limit (config : Config) (request : Request) (webrtc : nat)
    (active_calls : gmap string CallInfo) (clock : Clock.t) :
  admission request = Some webrtc ->
  max_concurrent_calls config <= total_active webrtc active_calls ->
  rejected (fst (Clock.run (handle config request active_calls) clock)) /\
  snd (Clock.run (handle config request active_calls) clock) = active_calls.
Proof.
  intros Ha Hmax. apply Z.leb_le in Hmax. unfold Clock.run.
  destruct request as [dir cc src dst w answered uuid|cc|cc|ev|dst greet ctx w created uuid|cc hung|];
    cbn in Ha; try discriminate Ha.
  - destruct (String.eqb dir "incoming") eqn:Hd; [|discriminate Ha].
    inversion Ha; subst. cbn [handle]. unfold call_initiated.
    rewrite Hd, Hmax. cbn. split; [left|]; reflexivity.
  - inversion Ha; subst. cbn [handle]. unfold _initiate_call, rejected.
    destruct (negb (truthy (telnyx_api_key config))); [cbn; eauto|].
    destruct (negb (truthy dst)); [cbn; eauto|].
    destruct (negb (existsb _ _)); [cbn; eauto|].
    destruct (existsb _ _); [cbn; eauto|].
    rewrite Hmax. cbn. eauto.
Qed.

(** A request leaves the registry within the limit. *)
Lemma handle_within_limit (config : Config) (request : Request)
    (active_calls : gmap string CallInfo) (clock : Clock.t) :
  Z.of_nat (size active_calls) <= max_concurrent_calls config ->
  Z.of_nat (size (snd (Clock.run (handle config request active_calls) clock)))
  <= max_concurrent_calls config.
Proof.
  intros Hs. unfold Clock.run.
  destruct request as [dir cc src dst w answered uuid|cc|cc|ev|dst greet ctx w created uuid|cc hung|];
    cbn [handle].
  - unfold call_initiated, total_active.
    destruct (String.eqb dir "incoming"); [|exact Hs].
    destruct (max_concurrent_calls config <=? _) eqn:E; [exact Hs|].
    apply Z.leb_gt in E. destruct (negb answered); [exact Hs|].
    cbn. pose proof (size_insert_le cc
      {| call_id := uuid; direction := "inbound"; from := src; to := dst;
         call_control_id := cc; started_at := clock 0%nat;
         status := "answered"; greeting := None; context := None |}
      active_calls). lia.
  - exact Hs.
  - unfold call_hangup. destruct (active_calls !! cc); [|exact Hs].
    cbn. pose proof (size_delete_le cc active_calls). lia.
  - exact Hs.
  - unfold _initiate_call, total_active.
    destruct (negb (truthy (telnyx_api_key config))); [exact Hs|].
    destruct (negb (truthy dst)); [exact Hs|].
    destruct (negb (existsb _ _)); [exact Hs|].
    destruct (existsb _ _); [exact Hs|].
    destruct (max_concurrent_calls config <=? _) eqn:E; [exact Hs|].
    apply Z.leb_gt in E. destruct created as [cc|]; [|exact Hs].
    cbn. pose proof (size_insert_le cc
      {| call_id := uuid; direction := "outbound";
         from := telnyx_phone_number config; to := dst;
         call_control_id := cc; started_at := clock 0%nat;
         status := "dialing"; greeting := greet; context := Some ctx |}
      active_calls). lia.
  - exact Hs.
  - cbn. rewrite map_size_empty. lia.
Qed.

Lemma serve_within_limit (config : Config) (requests : list Request)
    (active_calls : gmap string CallInfo) (clock : Clock.t) :
  Z.of_nat (size active_calls) <= max_concurrent_calls config ->
  Z.of_nat (size (Clock.run (serve config requests active_calls) clock))
  <= max_concurrent_calls config.
Proof.
  revert active_calls clock.
  induction requests as [|request rest IH]; intros active_calls clock Hs.
  - exact Hs.
  - unfold Clock.run. cbn [serve]. unfold Clock.bind.
    pose proof (handle_within_limit config request active_calls clock Hs) as H.
    unfold Clock.run in H.
    destruct (handle config request active_calls clock) as [[response st] clock'].
    cbn [fst snd] in H. apply (IH st clock' H).
Qed.

(** C4: an admission attempt (the webhook of an incoming call, the
    initiation of an outbound call) made when the active calls, WebRTC
    connections and registered PSTN calls together, are at least
    [max_concurrent_calls] is rejected and leaves the registry as it
    was; this is so in particular when the registry alone has reached the
    limit; and in every run of the server, from the empty registry, the
    size of the registry is at most [max_concurrent_calls] (which is not
    negative). *)
Theorem admission_rejected_at_limit (config : Config) :
  (forall request webrtc active_calls clock,
     admission request = Some webrtc ->
     (max_concurrent_calls config <= total_active webrtc active_calls \/
      max_concurrent_calls config <= Z.of_nat (size active_calls)) ->
     rejected (fst (Clock.run (handle config request active_calls) clock)) /\
     snd (Clock.run (handle config request active_calls) clock) = active_calls) /\
  (forall requests clock,
     0 <= max_concurrent_calls config ->
     Z.of_nat (size (Clock.run (serve config requests ∅) clock))
     <= max_concurrent_calls config).
Proof.
  split.
  - intros request webrtc active_calls clock Ha Hmax.
    apply (admission_at_limit config request webrtc); [exact Ha|].
    unfold total_active. destruct Hmax as [H|H]; [exact H|lia].
  - intros requests clock Hmax. apply serve_within_limit.
    rewrite map_size_empty. exact Hmax.
Qed.

(** With five calls registered and a limit of five, a sixth outbound
    call and an incoming call are rejected, and the registry keeps its
    five calls. *)
Lemma admission_rejected_at_limit_witness :
  let clock := fun _ : nat => (1000 # 1)%Q in
  let active_calls := Clock.run (serve default_config five_calls ∅) clock in
  Z.of_nat (size active_calls) <= 5 /\
  (rejected (fst (Clock.run (handle default_config sixth_call active_calls) clock)) /\
   snd (Clock.run (handle default_config sixth_call active_calls) clock)
   = active_calls) /\
  (rejected (fst (Clock.run (handle default_config sixth_incoming active_calls) clock)) /\
   snd (Clock.run (handle default_config sixth_incoming active_calls) clock)
   = active_calls).
Proof.
  intros clock active_calls.
  destruct (admission_rejected_at_limit default_config) as (Hrej & Hsize).
  assert (Hfull : max_concurrent_calls default_config <= total_active 0 active_calls
                  \/ max_concurrent_calls default_config
                     <= Z.of_nat (size active_calls))
    by (right; vm_compute; discriminate).
  split; [apply (Hsize five_calls clock); vm_compute; discriminate|].
  split.
  - apply (Hrej sixth_call 0%nat active_calls clock eq_refl Hfull).
  - apply (Hrej sixth_incoming 0%nat active_calls clock eq_refl Hfull).
Defined.

End ServerFacts.

(* ===================================================================== *)
(** * Part III: further properties of the code *)
(* ===================================================================== *)

(** ** The playback buffer: counters and order *)

Section PlaybackFacts.
Import Py AudioBuffer Playback.

Lemma step_consistent (o : Op) (b : AudioBuffer.t) :
  consistent b -> consistent (step o b).
Proof.
  unfold consistent, buffered_bytes. intros Hc.
  destruct o; cbn [step].
  - destruct (interrupted b) eqn:Hi.
    { unfold add_audio. rewrite Hi. exact Hc. }
    pose proof (add_audio_cases audio_data b Hi) as (_ & _ & H).
    cbv zeta in H.
    assert (Hsum : fold_right (fun chunk acc => len_bytes chunk + acc) 0
                              (buffer b ++ [audio_data]) =
                   total_buffered_bytes b + len_bytes audio_data).
    { rewrite buffered_bytes_app. cbn. lia. }
    destruct (max_buffer_size b <? _).
    + destruct H as (oldest & Hq & Ht & _). rewrite Hq in Hsum.
      cbn in Hsum. lia.
    + destruct H as (Hq & Ht & _). rewrite Hq. lia.
  - unfold start_playback. destruct (is_playing b); exact Hc.
  - exact Hc.
  - unfold playback_loop_step. destruct (is_playing b && _); [|exact Hc].
    destruct (buffer b) as [|c q] eqn:Hq; cbn.
    + rewrite Hq. exact Hc.
    + cbn in Hc. lia.
  - rewrite stop_playback_buffer.
    unfold stop_playback. destruct (negb _); exact Hc.
  - reflexivity.
  - reflexivity.
Qed.

Lemma run_consistent (ops : list Op) (b : AudioBuffer.t) :
  consistent b -> consistent (run ops b).
Proof.
  revert b. induction ops as [|o ops IH]; intros b Hc; [exact Hc|].
  cbn. fold (run ops (step o b)). apply IH. apply step_consistent. exact Hc.
Qed.

(** X1: in every run of the buffer, from its construction, the counter
    [total_buffered_bytes] is the number of bytes in the deque, whatever
    the sizes of the chunks and whatever is called ([add_audio], the
    rounds of the playback loop, [stop_playback], [interrupt], [reset]);
    it is never negative. *)
Theorem buffer_counter_consistent
    (jitter_ms max_ms chunk_ms rate : Z) (ops : list Op) :
  let b := run ops (init jitter_ms max_ms chunk_ms rate) in
  total_buffered_bytes b = buffered_bytes b /\ 0 <= total_buffered_bytes b.
Proof.
  intros b.
  assert (Hc : consistent b) by (apply run_consistent; reflexivity).
  split; [exact Hc|]. rewrite Hc. unfold buffered_bytes.
  induction (buffer b) as [|c q IH]; cbn; [lia|].
  pose proof (len_bytes_nonneg c). lia.
Qed.

Lemma add_all_accounting (chunks : list bytes) (b : AudioBuffer.t) :
  interrupted b = false ->
  exists dropped,
    buffer b ++ chunks = dropped ++ buffer (add_all chunks b) /\
    overruns (add_all chunks b) = overruns b + len_list dropped.
Proof.
  revert b. induction chunks as [|d rest IH]; intros b Hi.
  - exists []. cbn. rewrite app_nil_r. unfold len_list. cbn. split; [reflexivity|lia].
  - pose proof (add_audio_cases d b Hi) as (_ & Hi' & H). cbv zeta in H.
    destruct (IH (add_audio d b) Hi') as (dropped & Hq & Ho).
    change (add_all (d :: rest) b) with (add_all rest (add_audio d b)).
    destruct (max_buffer_size b <? _).
    + destruct H as (oldest & Hb & _ & Ho1).
      exists (oldest :: dropped). split.
      * change (d :: rest) with ([d] ++ rest). rewrite app_assoc, Hb.
        cbn [app]. rewrite Hq. reflexivity.
      * rewrite Ho, Ho1. unfold len_list. cbn [length]. lia.
    + destruct H as (Hb & _ & Ho1).
      exists dropped. split.
      * change (d :: rest) with ([d] ++ rest). rewrite app_assoc, <- Hb.
        exact Hq.
      * rewrite Ho, Ho1. reflexivity.
Qed.

(** X2: of the chunks passed to [add_audio] on a new buffer, whatever
    their sizes, the buffer holds the most recent ones in their order:
    the chunks that left are the oldest ones, and [overruns] is their
    number.  No chunk is lost without being counted. *)
Theorem add_audio_accounting
    (jitter_ms max_ms chunk_ms rate : Z) (chunks : list bytes) :
  let b := add_all chunks (init jitter_ms max_ms chunk_ms rate) in
  exists dropped,
    chunks = dropped ++ buffer b /\
    overruns b = len_list dropped /\
    len_list chunks = len_list (buffer b) + overruns b.
Proof.
  intros b.
  destruct (add_all_accounting chunks (init jitter_ms max_ms chunk_ms rate) eq_refl)
    as (dropped & Hq & Ho).
  fold b in Hq, Ho. cbn in Hq, Ho.
  exists dropped. split; [exact Hq|]. split; [exact Ho|].
  rewrite Ho, Hq at 1. unfold len_list. rewrite length_app. lia.
Qed.

Lemma loop_steps_drain (b : AudioBuffer.t) :
  is_playing b = true -> interrupted b = false -> on_chunk_callback b = true ->
  let r := loop_steps (length (buffer b)) b in
  fst r = map Some (buffer b) /\
  buffer (snd r) = [] /\
  total_bytes_played (snd r) = total_bytes_played b + buffered_bytes b /\
  total_buffered_bytes (snd r) = total_buffered_bytes b - buffered_bytes b /\
  underruns (snd r) = underruns b /\
  is_playing (snd r) = true /\ interrupted (snd r) = false.
Proof.
  remember (buffer b) as q eqn:Hq. revert b Hq.
  induction q as [|c q IH]; intros b Hq Hp Hi Hc.
  - cbn. unfold buffered_bytes. rewrite <- Hq. cbn. repeat split; auto; lia.
  - cbn [length loop_steps]. unfold playback_loop_step.
    rewrite Hp, Hi, <- Hq, Hc. cbn [andb negb popleft].
    match goal with
    | |- context [loop_steps (length q) ?b1] =>
        specialize (IH b1 eq_refl Hp Hi Hc);
        destruct (loop_steps (length q) b1) as [outs b2]
    end.
    cbn [fst snd] in *. destruct IH as (H1 & H2 & H3 & H4 & H5 & H6 & H7).
    unfold buffered_bytes in *. rewrite <- Hq. cbn in *.
    repeat split; auto; try lia. rewrite H1. reflexivity.
Qed.

(** X3: a buffer that is playing and not interrupted hands its chunks to
    the callback in the order they were added, one in each round of the
    playback loop; when the last one is out the buffer is empty,
    [total_bytes_played] has grown by the bytes handed out, no underrun
    was counted, and the next round counts one underrun and hands out
    nothing. *)
Theorem playback_loop_fifo (b : AudioBuffer.t) :
  is_playing b = true ->
  interrupted b = false ->
  on_chunk_callback b = true ->
  let r := loop_steps (length (buffer b)) b in
  fst r = map Some (buffer b) /\
  buffer (snd r) = [] /\
  total_bytes_played (snd r) = total_bytes_played b + buffered_bytes b /\
  underruns (snd r) = underruns b /\
  fst (playback_loop_step (snd r)) = None /\
  underruns (snd (playback_loop_step (snd r))) = underruns b + 1.
Proof.
  intros Hp Hi Hc r.
  destruct (loop_steps_drain b Hp Hi Hc) as (H1 & H2 & H3 & _ & H5 & H6 & H7).
  fold r in H1, H2, H3, H5, H6, H7.
  repeat split; auto.
  - unfold playback_loop_step. rewrite H6, H7, H2. reflexivity.
  - unfold playback_loop_step. rewrite H6, H7, H2. cbn. lia.
Qed.

(** Three chunks are added to the default buffer, playback starts, and
    three rounds of the loop hand them out in order. *)
Lemma playback_loop_fifo_witness :
  let chunks := [silence 100; silence 160; silence 40] in
  let b := start_playback_spawn (start_playback (add_all chunks AudioBuffer.default)) in
  let r := loop_steps 3 b in
  fst r = map Some chunks /\
  buffer (snd r) = [] /\
  total_bytes_played (snd r) = 300 /\
  underruns (snd r) = 0 /\
  fst (playback_loop_step (snd r)) = None /\
  underruns (snd (playback_loop_step (snd r))) = 1.
Proof.
  exact (playback_loop_fifo
           (start_playback_spawn
              (start_playback
                 (add_all [silence 100; silence 160; silence 40]
                          AudioBuffer.default)))
           eq_refl eq_refl eq_refl).
Defined.

(** X4: [interrupt] is idempotent, and it makes [stop_playback] and the
    rounds of the playback loop leave the audio alone: a second
    [interrupt] changes nothing, and after [interrupt] neither of them
    hands out a chunk or touches the buffer and the counters of bytes. *)
Theorem interrupt_idempotent (b : AudioBuffer.t) (smooth : bool) :
  let b1 := interrupt b in
  interrupt b1 = b1 /\
  stop_playback smooth b1 = b1 /\
  fst (playback_loop_step b1) = None /\
  buffer (snd (playback_loop_step b1)) = [] /\
  total_bytes_played (snd (playback_loop_step b1)) = total_bytes_played b /\
  underruns (snd (playback_loop_step b1)) = underruns b.
Proof.
  cbv zeta. split; [|split].
  - unfold interrupt. cbn. destruct (playback_task b) as [[]|]; reflexivity.
  - reflexivity.
  - unfold playback_loop_step. cbn. auto.
Qed.

End PlaybackFacts.

(** ** The circular buffer *)

Section CircularBufferFacts.
Import Py CircularAudioBuffer.

Lemma deque_append_keep_last {A} (n : nat) (x : A) (d : list A) :
  (length d <= n)%nat ->
  deque_append (Z.of_nat n) x d = keep_last n (d ++ [x]).
Proof.
  intros Hd. unfold deque_append, len_list, keep_last.
  rewrite length_app. cbn [length].
  destruct (Z.of_nat n <? Z.of_nat (length d + 1)) eqn:E.
  - apply Z.ltb_lt in E.
    replace (length d + 1 - n)%nat with 1%nat by lia.
    destruct (d ++ [x]); reflexivity.
  - apply Z.ltb_ge in E.
    replace (length d + 1 - n)%nat with 0%nat by lia. reflexivity.
Qed.

Lemma fold_deque_append {A} (n : nat) (data d : list A) :
  (length d <= n)%nat ->
  fold_left (fun acc x => deque_append (Z.of_nat n) x acc) data d =
  keep_last n (d ++ data).
Proof.
  revert d. induction data as [|x rest IH]; intros d Hd; cbn [fold_left].
  - rewrite app_nil_r. symmetry. apply keep_last_all. exact Hd.
  - rewrite deque_append_keep_last by exact Hd.
    rewrite IH by (rewrite keep_last_length; lia).
    rewrite keep_last_app, <- app_assoc. reflexivity.
Qed.

Lemma circular_add_all (n : nat) (chunks : list bytes) (c : CircularAudioBuffer.t) :
  capacity_bytes c = Z.of_nat n ->
  (length (buffer c) <= n)%nat ->
  capacity_bytes (add_all chunks c) = Z.of_nat n /\
  buffer (add_all chunks c) = keep_last n (buffer c ++ concat chunks).
Proof.
  revert c. induction chunks as [|chunk rest IH]; intros c Hn Hd.
  - cbn. rewrite app_nil_r. split; [exact Hn|].
    symmetry. apply keep_last_all. exact Hd.
  - change (add_all (chunk :: rest) c) with (add_all rest (add chunk c)).
    assert (Hb : buffer (add chunk c) = keep_last n (buffer c ++ chunk)).
    { unfold add. cbn [buffer]. rewrite Hn. apply fold_deque_append. exact Hd. }
    destruct (IH (add chunk c)) as (Hn' & Hb').
    + exact Hn.
    + rewrite Hb, keep_last_length. lia.
    + split; [exact Hn'|]. rewrite Hb', Hb, keep_last_app.
      cbn [concat]. rewrite <- app_assoc. reflexivity.
Qed.

(** X5: a circular buffer that could be constructed holds, after any
    calls of [add], the last [capacity_bytes] bytes of all the audio it
    was given, in order (all of it while it is shorter); it never holds
    more than [capacity_bytes] bytes. *)
Theorem circular_buffer_keeps_last
    (capacity_ms rate : Z) (c : CircularAudioBuffer.t) (chunks : list bytes) :
  init capacity_ms rate = Some c ->
  let c' := add_all chunks c in
  buffer c' = keep_last (Z.to_nat (capacity_bytes c)) (concat chunks) /\
  len_bytes (buffer c') <= capacity_bytes c.
Proof.
  unfold init. intros Hinit.
  destruct (int_div_1000 (rate * capacity_ms) <? 0) eqn:E; [discriminate|].
  apply Z.ltb_ge in E. inversion Hinit; subst c. cbn [capacity_bytes].
  set (cap := int_div_1000 (rate * capacity_ms)) in *.
  match goal with
  | |- context [add_all chunks ?c0] =>
      destruct (circular_add_all (Z.to_nat cap) chunks c0) as (_ & Hb)
  end.
  - cbn. lia.
  - cbn. lia.
  - cbv zeta. cbn [buffer app] in Hb. rewrite Hb. split; [reflexivity|].
    unfold len_bytes. rewrite keep_last_length. lia.
Qed.

(** The default buffer of 1600 bytes is given 1000, then 1000 bytes. *)
Lemma circular_buffer_keeps_last_witness :
  exists c,
    init 200 8000 = Some c /\
    let c' := add_all [repeat Byte.x01 1000; repeat Byte.x02 1000] c in
    buffer c' = repeat Byte.x01 600 ++ repeat Byte.x02 1000 /\
    len_bytes (buffer c') <= 1600.
Proof.
  eexists. split; [reflexivity|].
  match goal with
  | |- let c' := add_all ?chunks ?c in _ =>
      pose proof (circular_buffer_keeps_last 200 8000 c chunks eq_refl) as H
  end.
  cbv zeta in *. destruct H as (Hb & Hl). split; [|exact Hl].
  rewrite Hb. vm_compute. reflexivity.
Defined.

(** X6: [get_last] returns the last bytes of the buffer, as many as the
    duration asks for, or all of them when there are fewer; for a
    duration that is not positive it returns nothing. *)
Theorem circular_get_last (duration_ms : Z) (c : CircularAudioBuffer.t) :
  let n := int_div_1000 (sample_rate c * duration_ms) in
  get_last duration_ms c = keep_last (Z.to_nat n) (buffer c) /\
  len_bytes (get_last duration_ms c) = Z.max 0 (Z.min n (len_bytes (buffer c))).
Proof.
  intros n.
  assert (H : get_last duration_ms c = keep_last (Z.to_nat n) (buffer c)).
  { unfold get_last. fold n. unfold len_bytes, keep_last, last_slice, slice_from,
      len_list.
    destruct (Z.min n (Z.of_nat (length (buffer c))) <=? 0) eqn:E.
    - apply Z.leb_le in E. symmetry.
      destruct (Z.le_gt_cases n 0) as [Hn|Hn].
      + replace (Z.to_nat n) with 0%nat by lia. rewrite Nat.sub_0_r.
        apply drop_all.
      + destruct (buffer c); [reflexivity|cbn in E; lia].
    - apply Z.leb_gt in E.
      destruct (- Z.min n (Z.of_nat (length (buffer c))) <? 0) eqn:E2;
        [|apply Z.ltb_ge in E2; lia].
      f_equal. lia. }
  split; [exact H|]. rewrite H. unfold len_bytes. rewrite keep_last_length. lia.
Qed.

End CircularBufferFacts.

(** ** The smoother of the detector *)

Section VADSmootherFacts.
Import VADSmoother.

Lemma update_event (frame : bool) (s : VADSmoother.t) :
  match fst (update frame s) with
  | Some e =>
      e = (if is_speech_active s then "ended" else "started") /\
      is_speech_active (snd (update frame s)) = negb (is_speech_active s)
  | None => is_speech_active (snd (update frame s)) = is_speech_active s
  end /\
  frames_to_trigger (snd (update frame s)) = frames_to_trigger s.
Proof.
  unfold update. destruct frame; cbn [is_speech_active frames_to_trigger
    speech_frames silence_frames];
    destruct (is_speech_active s); cbn [negb andb];
    try destruct (frames_to_trigger s <=? _); cbn; auto.
Qed.

(** X7: whatever the frames, the events of the smoother take turns:
    ["started"] is returned only when no speech is active and ["ended"]
    only when one is, so two events of the same kind never follow each
    other. *)
Theorem smoother_events_alternate (frames : list bool) (s : VADSmoother.t) :
  alternating (is_speech_active s) (events (fst (updates frames s))).
Proof.
  revert s. induction frames as [|frame rest IH]; intros s; cbn [updates].
  - exact I.
  - pose proof (update_event frame s) as (He & _).
    destruct (update frame s) as [out s1]. cbn [fst snd] in He.
    specialize (IH s1). destruct (updates rest s1) as [outs s2].
    cbn [fst events flat_map] in *. destruct out as [e|].
    + destruct He as (He & Ha). cbn [app alternating]. split; [exact He|].
      rewrite <- Ha. exact IH.
    + cbn [app]. rewrite <- He. exact IH.
Qed.

Lemma speech_frames_below (k : nat) (s : VADSmoother.t) :
  is_speech_active s = false ->
  speech_frames s + Z.of_nat k < frames_to_trigger s ->
  fst (updates (repeat true k) s) = repeat None k /\
  is_speech_active (snd (updates (repeat true k) s)) = false /\
  speech_frames (snd (updates (repeat true k) s)) = speech_frames s + Z.of_nat k /\
  frames_to_trigger (snd (updates (repeat true k) s)) = frames_to_trigger s.
Proof.
  revert s. induction k as [|k IH]; intros s Ha Hk.
  - cbn. repeat split; auto; lia.
  - cbn [repeat updates]. unfold update. rewrite Ha.
    cbn [is_speech_active frames_to_trigger speech_frames negb andb].
    destruct (frames_to_trigger s <=? speech_frames s + 1) eqn:E;
      [apply Z.leb_le in E; lia|].
    match goal with
    | |- context [updates (repeat true k) ?s1] =>
        destruct (IH s1) as (H1 & H2 & H3 & H4); [reflexivity|cbn; lia|];
        destruct (updates (repeat true k) s1) as [outs s2]
    end.
    cbn [fst snd] in *. cbn in H3, H4. rewrite H1.
    repeat split; auto; lia.
Qed.

Lemma updates_app (l1 l2 : list bool) (s : VADSmoother.t) :
  updates (l1 ++ l2) s =
  (fst (updates l1 s) ++ fst (updates l2 (snd (updates l1 s))),
   snd (updates l2 (snd (updates l1 s)))).
Proof.
  revert s. induction l1 as [|frame rest IH]; intros s; cbn [app updates].
  - cbn. destruct (updates l2 s); reflexivity.
  - destruct (update frame s) as [out s1]. rewrite IH.
    destruct (updates rest s1) as [outs s2]. reflexivity.
Qed.

(** X8: a new smoother with a positive [frames_to_trigger] returns
    nothing for the first speech frames and ["started"] at the frame
    number [frames_to_trigger] of an unbroken run; a silent frame before
    that puts the count of speech frames back to zero, without any
    event. *)
Theorem smoother_trigger (n : Z) (k : nat) :
  0 < n ->
  Z.of_nat k < n ->
  fst (updates (repeat true (Z.to_nat n)) (init n)) =
    repeat None (Z.to_nat n - 1) ++ [Some "started"] /\
  fst (updates (repeat true k ++ [false]) (init n)) = repeat None (k + 1) /\
  speech_frames (snd (updates (repeat true k ++ [false]) (init n))) = 0.
Proof.
  intros Hn Hk. split.
  - replace (Z.to_nat n) with ((Z.to_nat n - 1) + 1)%nat at 1 by lia.
    rewrite repeat_app, updates_app. cbn [fst].
    destruct (speech_frames_below (Z.to_nat n - 1) (init n)) as (H1 & H2 & H3 & H4);
      [reflexivity|cbn; lia|].
    rewrite H1. f_equal. cbn [repeat updates]. unfold update.
    rewrite H2, H3, H4. cbn [negb andb is_speech_active frames_to_trigger
      speech_frames init].
    destruct (n <=? 0 + Z.of_nat (Z.to_nat n - 1) + 1) eqn:E;
      [reflexivity|apply Z.leb_gt in E; lia].
  - rewrite updates_app. cbn [fst snd].
    destruct (speech_frames_below k (init n)) as (H1 & H2 & H3 & H4);
      [reflexivity|cbn; lia|].
    rewrite H1. cbn [updates]. unfold update. rewrite H2. cbn.
    split; [|reflexivity].
    rewrite repeat_app. reflexivity.
Qed.

(** The default smoother: two speech frames and a silent one give
    nothing, three speech frames give ["started"]. *)
Lemma smoother_trigger_witness :
  fst (updates [true; true; true] (init 3)) = [None; None; Some "started"] /\
  fst (updates [true; true; false] (init 3)) = [None; None; None].
Proof.
  destruct (smoother_trigger 3 2) as (H1 & H2 & _); [lia|lia|].
  split; [exact H1|exact H2].
Defined.

End VADSmootherFacts.

(** ** The stream coordinator, continued *)

Section CoordinatorRunFacts.
Import Py StreamCoordinator CoordinatorRuns.

Lemma ends_with_upto_space_truthy (text : string) (c : ascii) :
  ends_with_upto_space text c -> truthy text = true.
Proof.
  intros (body & ws & -> & _). destruct body; reflexivity.
Qed.

(** X9: with a positive chunk size, a chunk returned by [add_token] is
    never the empty string. *)
Theorem add_token_chunk_not_empty
    (c : StreamCoordinator.t) (token chunk : string) :
  0 < chunk_size c ->
  fst (add_token token c) = Some chunk ->
  truthy chunk = true.
Proof.
  intros Hsize Hfst.
  remember (join (buffer c ++ [token])) as text eqn:Htext.
  assert (Hchunk : chunk = text).
  { destruct (add_token_result c token) as [H|H]; rewrite H in Hfst;
      cbn [fst] in Hfst; [|discriminate]. rewrite Htext. congruence. }
  subst chunk.
  destruct ((chunk_size c <=? len text)
            || endswith_any (rstrip text) ["."; "!"; "?"]%string
            || (100 <? len text) && endswith (rstrip text) ",") eqn:E.
  - apply flush_rule_decide in E as [H|[[H|[H|H]]|(_ & H)]];
      try exact (ends_with_upto_space_truthy _ _ H).
    unfold len in H. destruct text; [cbn in H; lia|reflexivity].
  - apply orb_false_elim in E as (E & E3).
    apply orb_false_elim in E as (E1 & E2).
    unfold add_token in Hfst. cbn [chunk_size buffer] in Hfst.
    rewrite <- Htext, E1, E2, E3 in Hfst. discriminate Hfst.
Qed.

Lemma add_token_chunk_not_empty_witness :
  truthy "Hi there." = true.
Proof.
  apply (add_token_chunk_not_empty
           {| chunk_size := 512; buffer := ["Hi"]; flushed := false |}
           " there." "Hi there.").
  - reflexivity.
  - reflexivity.
Defined.

Lemma add_token_flushed (token : string) (c : StreamCoordinator.t) :
  flushed (snd (add_token token c)) = flushed c.
Proof.
  destruct (add_token_result c token) as [H|H]; rewrite H; reflexivity.
Qed.

Lemma run_after_flush (ops : list Op) (c : StreamCoordinator.t) :
  flushed c = true ->
  returned (snd (fst (run ops c))) = [].
Proof.
  revert c. induction ops as [|[token|] rest IH]; intros c Hf; cbn [run].
  - reflexivity.
  - pose proof (add_token_flushed token c) as Hf'.
    destruct (add_token token c) as [chunk c1]. cbn [snd] in Hf'.
    specialize (IH c1). destruct (run rest c1) as [[chunks flushes] c2].
    cbn [fst snd] in *. apply IH. congruence.
  - unfold flush. rewrite Hf, andb_false_r.
    specialize (IH c Hf). destruct (run rest c) as [[chunks flushes] c2].
    cbn [fst snd] in *. exact IH.
Qed.

(** X10: in the life of a coordinator, whatever tokens are added between
    the calls, [flush] returns text at most once; every later call of
    [flush] returns nothing, also when tokens are buffered again. *)
Theorem flush_returns_at_most_once (ops : list Op) (c : StreamCoordinator.t) :
  (length (returned (snd (fst (run ops c)))) <= 1)%nat.
Proof.
  revert c. induction ops as [|[token|] rest IH]; intros c; cbn [run].
  - cbn. lia.
  - destruct (add_token token c) as [chunk c1].
    specialize (IH c1). destruct (run rest c1) as [[chunks flushes] c2].
    exact IH.
  - unfold flush.
    destruct (truthy_list (buffer c) && negb (flushed c)) eqn:E.
    + cbn [_flush_buffer buffer flushed chunk_size].
      match goal with
      | |- context [run rest ?c1] =>
          pose proof (run_after_flush rest c1 eq_refl) as H;
          destruct (run rest c1) as [[chunks flushes] c2]
      end.
      cbn [fst snd] in *. unfold returned in *. cbn [flat_map].
      rewrite H. cbn. lia.
    + specialize (IH c). destruct (run rest c) as [[chunks flushes] c2].
      exact IH.
Qed.

End CoordinatorRunFacts.

(** ** The latency tracker and the registry of pipelines *)

Section LatencyTrackerFacts.
Import Py LatencyTracker.

Lemma trim_keep_last (l : list Q) : trim l = keep_last 1000 l.
Proof.
  unfold trim, last_slice, slice_from, len_list, keep_last.
  destruct (1000 <? Z.of_nat (length l)) eqn:E.
  - apply Z.ltb_lt in E. change (- (1000) <? 0) with true. cbv iota.
    f_equal. lia.
  - apply Z.ltb_ge in E. replace (length l - 1000)%nat with 0%nat by lia.
    reflexivity.
Qed.

Lemma get_set (stage other : PipelineStage) (times : list Q) (st : StageTimes) :
  get other (set stage times st) =
  if decide (other = stage) then times else get other st.
Proof. destruct stage, other; reflexivity. Qed.

Lemma stage_completions_stage (stage : PipelineStage)
    (calls : list (PipelineStage * Q)) (tr : t) :
  (length (get stage (stage_times tr)) <= 1000)%nat ->
  get stage (stage_times (stage_completions calls tr)) =
  keep_last 1000 (get stage (stage_times tr) ++ durations_of stage calls).
Proof.
  revert tr. induction calls as [|[s d] rest IH]; intros tr Hlen.
  - cbn. rewrite app_nil_r. symmetry. apply keep_last_all. exact Hlen.
  - change (stage_completions ((s, d) :: rest) tr)
      with (stage_completions rest (stage_complete "" s d tr)).
    rewrite IH.
    + unfold stage_complete. cbn [stage_times fst snd]. rewrite get_set.
      unfold durations_of. cbn [List.filter fst].
      destruct (decide (stage = s)) as [->|Hne].
      * rewrite bool_decide_eq_true_2 by reflexivity. cbn [map snd].
        rewrite trim_keep_last, keep_last_app, <- app_assoc. reflexivity.
      * rewrite bool_decide_eq_false_2 by congruence. reflexivity.
    + unfold stage_complete. cbn [stage_times fst snd]. rewrite get_set.
      destruct (decide (stage = s)); [|exact Hlen].
      rewrite trim_keep_last, keep_last_length. lia.
Qed.

(** X11: the tracker keeps, for every stage, the last 1000 durations
    recorded for that stage, in their order: calls of [stage_complete]
    for other stages do not touch them, and no list grows beyond 1000
    measurements. *)
Theorem stage_times_keep_last_1000
    (stage : PipelineStage) (calls : list (PipelineStage * Q)) :
  let tr := stage_completions calls init in
  get stage (stage_times tr) = keep_last 1000 (durations_of stage calls) /\
  len_list (get stage (stage_times tr)) <= 1000.
Proof.
  intros tr. unfold tr.
  rewrite stage_completions_stage by (destruct stage; cbn; lia).
  replace (get stage (stage_times init)) with (@nil Q) by (destruct stage; reflexivity).
  cbn [app]. split; [reflexivity|].
  unfold len_list. rewrite keep_last_length. lia.
Qed.

(** X12: [complete] after [start] returns the milliseconds between the
    two readings of the clock, records them and forgets the request: a
    second [complete] of the same request returns [None] and changes
    nothing. *)
Theorem latency_start_complete (request_id : string) (tr : t) (clock : Clock.t) :
  let r1 := start request_id tr clock in
  let r2 := complete request_id (fst r1) (snd r1) in
  let r3 := complete request_id (snd (fst r2)) (snd r2) in
  fst (fst r2) = Some (elapsed_ms (clock 1%nat) (clock 0%nat)) /\
  total_times (snd (fst r2)) =
    keep_last 1000 (total_times tr ++ [elapsed_ms (clock 1%nat) (clock 0%nat)]) /\
  start_times (snd (fst r2)) = delete request_id (start_times tr) /\
  stage_times (snd (fst r2)) = stage_times tr /\
  fst r3 = (None, snd (fst r2)).
Proof.
  cbv zeta.
  unfold start, Clock.bind, Clock.time_time, Clock.ret. cbn [fst snd].
  match goal with
  | |- context [complete request_id ?tr1 ?c1] =>
      remember (complete request_id tr1 c1) as r2 eqn:H2
  end.
  unfold complete in H2. cbn [start_times] in H2.
  rewrite lookup_insert_eq in H2.
  unfold Clock.bind, Clock.time_time, Clock.ret in H2.
  cbn [stage_times total_times start_times] in H2.
  rewrite delete_insert_eq, trim_keep_last in H2. subst r2.
  cbn [fst snd stage_times total_times start_times].
  repeat split.
  unfold complete. cbn [start_times]. rewrite lookup_delete_eq. reflexivity.
Qed.

End LatencyTrackerFacts.

Section ActivePipelinesFacts.
Import Py ActivePipelines.

Lemma prefix_append (p s rest : string) :
  String.prefix p s = true -> String.prefix p (s +:+ rest) = true.
Proof.
  revert s. induction p as [|a p IH]; intros s H.
  - destruct (s +:+ rest); reflexivity.
  - destruct s as [|b s]; [discriminate H|].
    change (String.prefix (String a p) (String b (s +:+ rest)) = true).
    cbn in H |- *. destruct (Ascii.ascii_dec a b); [|discriminate H].
    apply IH. exact H.
Qed.

Lemma is_active_iff (call_id : string) (m : gmap string bool) :
  is_active call_id m = true <->
  exists req_id, m !! req_id = Some true /\ startswith req_id call_id = true.
Proof.
  unfold is_active. rewrite existsb_exists. split.
  - intros ([k a] & Hin & H). cbn [fst snd] in H.
    apply andb_true_iff in H as (Hp & ->).
    apply list_elem_of_In, elem_of_map_to_list in Hin.
    exists k. split; assumption.
  - intros (k & Hk & Hp). exists (k, true). split.
    + apply list_elem_of_In, elem_of_map_to_list. exact Hk.
    + cbn [fst snd]. rewrite Hp. reflexivity.
Qed.

(** X13: [is_active] matches request identifiers by prefix.  It is true
    exactly when an active request identifier starts with the call
    identifier; so once [process_transcript] has registered a pipeline
    of a call, [is_active] is true for that call and for every call
    whose identifier is a prefix of that call's. *)
Theorem is_active_prefix
    (call_id other stamp : string) (m : gmap string bool) :
  startswith other call_id = true ->
  is_active call_id (register other stamp m) = true /\
  (is_active call_id m = true <->
   exists req_id, m !! req_id = Some true /\ startswith req_id call_id = true).
Proof.
  intros Hp. split; [|apply is_active_iff].
  apply is_active_iff. exists (request_id other stamp). split.
  - unfold register. apply lookup_insert_eq.
  - unfold startswith, request_id in *. apply prefix_append. exact Hp.
Qed.

Lemma is_active_prefix_witness :
  is_active "call1" (register "call10" "1700000000000" ∅) = true.
Proof.
  exact (proj1 (is_active_prefix "call1" "call10" "1700000000000" ∅ eq_refl)).
Defined.

End ActivePipelinesFacts.

(** ** The retries and the rate limit of the language-model client *)

Section RetryFacts.
Import Py Retry.

Lemma failed_0 (stats : Stats) : failed 0 stats = stats.
Proof. destruct stats. unfold failed. cbn. f_equal. lia. Qed.

Lemma failed_failed (a b : Z) (stats : Stats) :
  failed a (failed b stats) = failed (b + a) stats.
Proof. unfold failed. cbn. f_equal. lia. Qed.

Lemma range_split (k n : Z) :
  0 <= k < n ->
  range n = range k ++ k :: map Z.of_nat (seq (S (Z.to_nat k)) (Z.to_nat (n - k - 1))).
Proof.
  intros H. unfold range.
  replace (Z.to_nat n) with (Z.to_nat k + S (Z.to_nat (n - k - 1)))%nat by lia.
  rewrite seq_app, map_app. cbn [seq map Nat.add]. f_equal. f_equal. lia.
Qed.

Lemma attempts_failing (p : Policy) (api : Z -> option (string * Z))
    (k first : nat) (rest : list Z) (stats : Stats) (slept : list Z) :
  (forall j, (first <= j < first + k)%nat -> api (Z.of_nat j) = None) ->
  Z.of_nat (first + k) <= max_attempts p - 1 ->
  attempts p api (map Z.of_nat (seq first k) ++ rest) stats slept =
  attempts p api rest (failed (Z.of_nat k) stats)
           (slept ++ map (backoff_ms p) (map Z.of_nat (seq first k))).
Proof.
  revert first stats slept.
  induction k as [|k IH]; intros first stats slept Hfail Hmax.
  - cbn. rewrite failed_0, app_nil_r. reflexivity.
  - cbn [seq map app attempts]. rewrite Hfail by lia.
    replace (Z.of_nat first <? max_attempts p - 1) with true
      by (symmetry; apply Z.ltb_lt; lia).
    fold (failed 1 stats).
    rewrite IH by (try (intros j Hj; apply Hfail); lia).
    rewrite failed_failed, <- app_assoc. do 2 f_equal. f_equal. lia.
Qed.

Lemma stream_attempts_failing (p : Policy) (api : Z -> list string * bool)
    (k first : nat) (rest : list Z) (stats : Stats)
    (yielded : list string) (slept : list Z) :
  (forall j, (first <= j < first + k)%nat -> snd (api (Z.of_nat j)) = false) ->
  Z.of_nat (first + k) <= max_attempts p - 1 ->
  stream_attempts p api (map Z.of_nat (seq first k) ++ rest) stats yielded slept =
  stream_attempts p api rest (failed (Z.of_nat k) stats)
    (yielded ++ concat (map (fun j => fst (api j)) (map Z.of_nat (seq first k))))
    (slept ++ map (backoff_ms p) (map Z.of_nat (seq first k))).
Proof.
  revert first stats yielded slept.
  induction k as [|k IH]; intros first stats yielded slept Hfail Hmax.
  - cbn. rewrite failed_0, !app_nil_r. reflexivity.
  - cbn [seq map app stream_attempts concat]. rewrite Hfail by lia.
    replace (Z.of_nat first <? max_attempts p - 1) with true
      by (symmetry; apply Z.ltb_lt; lia).
    fold (failed 1 stats).
    rewrite IH by (try (intros j Hj; apply Hfail); lia).
    rewrite failed_failed, <- !app_assoc. do 2 f_equal. f_equal. lia.
Qed.

Lemma range_seq (k : Z) : range k = map Z.of_nat (seq 0 (Z.to_nat k)).
Proof. reflexivity. Qed.

Lemma backoff_le_max (p : Policy) (attempt : Z) :
  backoff_ms p attempt <= max_backoff_ms p.
Proof. unfold backoff_ms. lia. Qed.

(** X14: [generate] returns the text of the first attempt that the API
    answers, when that attempt is among the [max_attempts] first.  Every
    failed attempt before it is counted in [total_errors] and followed
    by its backoff, the smaller of [max_backoff_ms] and
    [initial_backoff_ms] times the power of [exponential_base]; one
    request and the output tokens of the answer are counted. *)
Theorem generate_retries_until_success
    (p : Policy) (api : Z -> option (string * Z)) (stats : Stats)
    (k : Z) (text : string) (tokens : Z) :
  0 <= k < max_attempts p ->
  (forall j, 0 <= j < k -> api j = None) ->
  api k = Some (text, tokens) ->
  generate_attempts p api stats =
  (Returned text, succeeded tokens (failed k stats),
   map (backoff_ms p) (range k)).
Proof.
  intros Hk Hfail Hok. unfold generate_attempts.
  rewrite (range_split k (max_attempts p)) by exact Hk.
  rewrite range_seq, attempts_failing.
  - cbn [attempts]. rewrite Hok. rewrite Z2Nat.id by lia. reflexivity.
  - intros j Hj. apply Hfail. lia.
  - lia.
Qed.

Lemma generate_retries_until_success_witness :
  generate_attempts default_policy
    (fun attempt => if attempt =? 2 then Some ("Hello."%string, 3) else None)
    {| total_requests := 0; total_tokens_used := 0; total_errors := 0 |} =
  (Returned "Hello.",
   {| total_requests := 1; total_tokens_used := 3; total_errors := 2 |},
   [100; 200]).
Proof.
  refine (generate_retries_until_success default_policy
            (fun attempt => if attempt =? 2 then Some ("Hello."%string, 3) else None)
            {| total_requests := 0; total_tokens_used := 0; total_errors := 0 |}
            2 "Hello." 3 _ _ _).
  - cbn. lia.
  - intros j Hj. destruct (j =? 2) eqn:E; [apply Z.eqb_eq in E; lia|reflexivity].
  - reflexivity.
Defined.

(** X15: when the API fails every time, [generate] makes exactly
    [max_attempts] attempts, sleeps between them (not after the last
    one), never longer than [max_backoff_ms], and raises the exception
    of the last attempt; [total_errors] grows by [max_attempts] and no
    request is counted. *)
Theorem generate_gives_up
    (p : Policy) (api : Z -> option (string * Z)) (stats : Stats) :
  1 <= max_attempts p ->
  (forall j, 0 <= j < max_attempts p -> api j = None) ->
  let slept := map (backoff_ms p) (range (max_attempts p - 1)) in
  generate_attempts p api stats =
    (Raised (max_attempts p - 1), failed (max_attempts p) stats, slept) /\
  len_list slept = max_attempts p - 1 /\
  List.Forall (fun ms => ms <= max_backoff_ms p) slept.
Proof.
  intros Hn Hfail slept. split; [|split].
  - unfold generate_attempts.
    rewrite (range_split (max_attempts p - 1) (max_attempts p)) by lia.
    rewrite range_seq, attempts_failing.
    + cbn [attempts]. rewrite Hfail by lia.
      rewrite Z2Nat.id by lia.
      replace (max_attempts p - 1 <? max_attempts p - 1) with false
        by (symmetry; apply Z.ltb_ge; lia).
      fold (failed 1 (failed (max_attempts p - 1) stats)).
      rewrite failed_failed.
      replace (max_attempts p - 1 + 1) with (max_attempts p) by lia.
      reflexivity.
    + intros j Hj. apply Hfail. lia.
    + lia.
  - unfold slept, len_list, range. rewrite !length_map, length_seq. lia.
  - apply List.Forall_forall. intros ms Hin. unfold slept in Hin.
    apply in_map_iff in Hin as (a & <- & _). apply backoff_le_max.
Qed.

Lemma generate_gives_up_witness :
  generate_attempts default_policy (fun _ => None)
    {| total_requests := 0; total_tokens_used := 0; total_errors := 0 |} =
  (Raised 2,
   {| total_requests := 0; total_tokens_used := 0; total_errors := 3 |},
   [100; 200]).
Proof.
  destruct (generate_gives_up default_policy (fun _ => None)
              {| total_requests := 0; total_tokens_used := 0; total_errors := 0 |})
    as (H & _); [cbn; lia|reflexivity|exact H].
Defined.

(** X16: [generate_stream] starts the stream again after a failed
    attempt, and what a failed attempt had streamed is already with the
    consumer: the consumer receives the tokens of every failed attempt,
    then the tokens of the attempt that ended well.  Only the tokens of
    that last attempt are counted in [total_tokens_used]. *)
Theorem generate_stream_repeats_tokens
    (p : Policy) (api : Z -> list string * bool) (stats : Stats) (k : Z) :
  0 <= k < max_attempts p ->
  (forall j, 0 <= j < k -> snd (api j) = false) ->
  snd (api k) = true ->
  generate_stream_attempts p api stats =
  (concat (map (fun j => fst (api j)) (range k)) ++ fst (api k), None,
   succeeded (len_list (fst (api k))) (failed k stats),
   map (backoff_ms p) (range k)).
Proof.
  intros Hk Hfail Hok. unfold generate_stream_attempts.
  rewrite (range_split k (max_attempts p)) by exact Hk.
  rewrite range_seq, stream_attempts_failing.
  - cbn [stream_attempts]. rewrite Hok. rewrite Z2Nat.id by lia. reflexivity.
  - intros j Hj. apply Hfail. lia.
  - lia.
Qed.

Lemma generate_stream_repeats_tokens_witness :
  generate_stream_attempts default_policy
    (fun attempt => if attempt =? 0 then (["Hel"%string], false)
                    else (["Hel"%string; "lo."%string], true))
    {| total_requests := 0; total_tokens_used := 0; total_errors := 0 |} =
  (["Hel"; "Hel"; "lo."]%string, None,
   {| total_requests := 1; total_tokens_used := 2; total_errors := 1 |},
   [100]).
Proof.
  refine (generate_stream_repeats_tokens default_policy
            (fun attempt => if attempt =? 0 then (["Hel"%string], false)
                            else (["Hel"%string; "lo."%string], true))
            {| total_requests := 0; total_tokens_used := 0; total_errors := 0 |}
            1 _ _ _).
  - cbn. lia.
  - intros j Hj. replace j with 0 by lia. reflexivity.
  - reflexivity.
Defined.

(** X17: [_check_rate_limit] keeps the counter of the minute within the
    limit: from a counter within the limit, the counter after the call
    is within it, unless the call comes exactly 60 seconds after the
    start of the minute.  When the call has to wait, it sleeps for the
    rest of the minute, which is a positive time, and starts a new
    minute with this one request. *)
Theorem rate_limit_bound (r : RateLimit) (clock : Clock.t) :
  1 <= rate_limit_per_minute r ->
  requests_this_minute r <= rate_limit_per_minute r ->
  ~ (clock 0%nat - minute_start r == 60)%Q ->
  let out := Clock.run (_check_rate_limit r) clock in
  requests_this_minute (snd out) <= rate_limit_per_minute r /\
  rate_limit_per_minute (snd out) = rate_limit_per_minute r /\
  (forall wait, fst out = Some wait ->
     (0 < wait)%Q /\
     wait = (60 - (clock 0%nat - minute_start r))%Q /\
     requests_this_minute (snd out) = 1 /\
     minute_start (snd out) = clock 1%nat).
Proof.
  intros Hlimit Hreq Hne.
  unfold Clock.run, _check_rate_limit, Clock.bind, Clock.time_time, Clock.ret.
  cbv zeta.
  destruct (Qltb 60 (clock 0%nat - minute_start r)) eqn:Hreset.
  - cbn [rate_limit_per_minute requests_this_minute minute_start].
    replace (rate_limit_per_minute r <=? 0) with false
      by (symmetry; apply Z.leb_gt; lia).
    cbn. split; [lia|]. split; [reflexivity|]. intros wait H. discriminate H.
  - apply Qltb_ge in Hreset.
    destruct (rate_limit_per_minute r <=? requests_this_minute r) eqn:Hfull.
    + assert (Hpos : (0 < 60 - (clock 0%nat - minute_start r))%Q).
      { destruct (Qlt_le_dec 0 (60 - (clock 0%nat - minute_start r))) as [H|H];
          [exact H|].
        exfalso. apply Hne. lra. }
      apply Qltb_lt in Hpos as Hwait. rewrite Hwait. cbn.
      split; [lia|]. split; [reflexivity|].
      intros wait H. injection H as <-.
      split; [exact Hpos|]. split; [reflexivity|]. split; reflexivity.
    + apply Z.leb_gt in Hfull. cbn. split; [lia|]. split; [reflexivity|].
      intros wait H. discriminate H.
Qed.

Lemma rate_limit_bound_witness :
  let r := {| requests_this_minute := 60; minute_start := 100;
              rate_limit_per_minute := 60 |} in
  let out := Clock.run (_check_rate_limit r) (Clock.of_list [130; 160]%Q) in
  requests_this_minute (snd out) = 1 /\ minute_start (snd out) = 160%Q /\
  fst out = Some (60 - (130 - 100))%Q.
Proof.
  intros r out.
  destruct (rate_limit_bound r (Clock.of_list [130; 160]%Q)) as (_ & _ & H).
  - cbn. lia.
  - cbn. lia.
  - cbn. intros H. discriminate H.
  - destruct (H (60 - (130 - 100))%Q eq_refl) as (_ & _ & H1 & H2).
    split; [exact H1|]. split; [exact H2|reflexivity].
Defined.

(** X18: a call of [_check_rate_limit] exactly 60 seconds after the
    start of the minute, with the counter at the limit, neither resets
    the counter (the minute is not yet over) nor waits (nothing is left
    to wait for): the request goes on at once and the counter passes the
    limit. *)
Theorem rate_limit_passed_at_60_seconds (r : RateLimit) (clock : Clock.t) :
  (clock 0%nat - minute_start r == 60)%Q ->
  rate_limit_per_minute r <= requests_this_minute r ->
  fst (_check_rate_limit r clock) =
  (None, {| requests_this_minute := requests_this_minute r + 1;
            minute_start := minute_start r;
            rate_limit_per_minute := rate_limit_per_minute r |}).
Proof.
  intros Heq Hfull.
  unfold _check_rate_limit, Clock.bind, Clock.time_time, Clock.ret. cbv zeta.
  replace (Qltb 60 (clock 0%nat - minute_start r)) with false
    by (symmetry; apply Qltb_ge; lra).
  replace (rate_limit_per_minute r <=? requests_this_minute r) with true
    by (symmetry; apply Z.leb_le; exact Hfull).
  replace (Qltb 0 (60 - (clock 0%nat - minute_start r))) with false
    by (symmetry; apply Qltb_ge; lra).
  reflexivity.
Qed.

Lemma rate_limit_passed_at_60_seconds_witness :
  requests_this_minute
    (snd (fst (_check_rate_limit
                 {| requests_this_minute := 60; minute_start := 100;
                    rate_limit_per_minute := 60 |}
                 (Clock.of_list [160%Q])))) = 61.
Proof.
  rewrite rate_limit_passed_at_60_seconds; [reflexivity| |].
  - cbn. reflexivity.
  - cbn. lia.
Defined.

End RetryFacts.

(** ** The voice activity detector, continued *)

Section VADRunFacts.
Import Py EnhancedVAD VADRuns.

Lemma energy_sum_bounds (audio_data : bytes) (acc : Z) :
  acc <= fold_left (fun acc b => acc + Z.abs (Z.of_N (Byte.to_N b) - 128))
                   audio_data acc
      <= acc + 128 * len_bytes audio_data.
Proof.
  revert acc. induction audio_data as [|b rest IH]; intros acc; cbn [fold_left].
  - unfold len_bytes. cbn. lia.
  - specialize (IH (acc + Z.abs (Z.of_N (Byte.to_N b) - 128))).
    pose proof (Byte.to_N_bounded b). unfold len_bytes in *. cbn [length]. lia.
Qed.

(** X19: the energy of a frame is a number between 0 and 1, for every
    frame, also the empty one. *)
Theorem calculate_energy_normalized (audio_data : bytes) :
  (0 <= _calculate_energy audio_data <= 1)%Q.
Proof.
  unfold _calculate_energy. destruct audio_data as [|b rest]; [lra|].
  set (data := b :: rest).
  pose proof (energy_sum_bounds data 0) as H.
  destruct (0 <? 128 * len_bytes data) eqn:E; [|lra].
  apply Z.ltb_lt in E.
  assert (Hpos : (0 < inject_Z (128 * len_bytes data))%Q)
    by (change 0%Q with (inject_Z 0); rewrite <- Zlt_Qlt; exact E).
  split.
  - apply Qle_shift_div_l; [exact Hpos|]. rewrite Qmult_0_l.
    change 0%Q with (inject_Z 0). rewrite <- Zle_Qle. lia.
  - apply Qle_shift_div_r; [exact Hpos|]. rewrite Qmult_1_l.
    rewrite <- Zle_Qle. lia.
Qed.

Ltac balance_done :=
  cbn; unfold len_list; cbn; split; [lia|reflexivity].

Lemma trigger_speech_started_balance (v : EnhancedVAD.t) (clock : Clock.t) :
  let r := _trigger_speech_started v clock in
  closed_speeches (snd (fst r)) = closed_speeches v + ended (fst (fst r)) /\
  on_speech_ended (snd (fst r)) = on_speech_ended v.
Proof.
  unfold _trigger_speech_started, closed_speeches, active, ended.
  destruct (is_speech_active v) eqn:E; cbn; [rewrite E; balance_done|].
  destruct (on_speech_started v); balance_done.
Qed.

Lemma trigger_speech_ended_balance (v : EnhancedVAD.t) (clock : Clock.t) :
  on_speech_ended v = true ->
  let r := _trigger_speech_ended v clock in
  closed_speeches (snd (fst r)) = closed_speeches v + ended (fst (fst r)) /\
  on_speech_ended (snd (fst r)) = on_speech_ended v.
Proof.
  intros Hcb.
  unfold _trigger_speech_ended, closed_speeches, active, ended, speech_ended,
    filter_short.
  destruct (is_speech_active v) eqn:E; cbn; [|rewrite E; balance_done].
  destruct (speech_start_time v) as [start|]; cbn.
  - destruct (truthy_time start); cbn.
    + destruct (Qltb _ _); cbn; [balance_done|]. rewrite Hcb. balance_done.
    + rewrite Hcb. balance_done.
  - rewrite Hcb. balance_done.
Qed.

Lemma step_balance (o : Op) (v : EnhancedVAD.t) (clock : Clock.t) :
  on_speech_ended v = true ->
  is_reset o = false ->
  let r := step o v clock in
  closed_speeches (snd (fst r)) = closed_speeches v + ended (fst (fst r)) /\
  on_speech_ended (snd (fst r)) = on_speech_ended v.
Proof.
  intros Hcb Hreset. destruct o as [event_type|audio_data|]; [| |discriminate].
  - cbn [step]. unfold on_deepgram_vad_event, Clock.bind, Clock.time_time.
    cbv zeta.
    match goal with
    | |- context [debounced ?v1 _] => set (v' := v1)
    end.
    assert (Hv' : closed_speeches v' = closed_speeches v /\
                  on_speech_ended v' = on_speech_ended v) by (split; reflexivity).
    destruct Hv' as (Hb & Hc).
    destruct (debounced v' (clock 0%nat)).
    { unfold Clock.ret. cbn [fst snd]. rewrite Hb. unfold ended, len_list.
      cbn [List.filter length Z.of_nat]. split; [lia|exact Hc]. }
    match goal with
    | |- context [_trigger_speech_started ?v1] => set (v2 := v1)
    end.
    assert (Hb2 : closed_speeches v2 = closed_speeches v) by exact Hb.
    assert (Hc2 : on_speech_ended v2 = true) by (rewrite <- Hcb; exact Hc).
    destruct (String.eqb event_type "SpeechStarted").
    { destruct (trigger_speech_started_balance v2 (fun n => clock (S n))) as (H1 & H2).
      cbv zeta in H1, H2. rewrite H1, H2, Hb2. split; [reflexivity|congruence]. }
    destruct (String.eqb event_type "UtteranceEnd").
    { destruct (trigger_speech_ended_balance v2 (fun n => clock (S n)) Hc2) as (H1 & H2).
      cbv zeta in H1, H2. rewrite H1, H2, Hb2. split; [reflexivity|congruence]. }
    unfold Clock.ret. cbn [fst snd]. rewrite Hb2. split; [|congruence].
    unfold ended, len_list. cbn [List.filter length Z.of_nat]. lia.
  - cbn [step]. unfold process_audio_frame, Clock.bind, Clock.time_time.
    cbv zeta.
    set (v1 := with_inputs v (last_deepgram_event v) (window_after audio_data v)).
    assert (Hb1 : closed_speeches v1 = closed_speeches v) by reflexivity.
    assert (Hc1 : on_speech_ended v1 = on_speech_ended v) by reflexivity.
    clearbody v1.
    assert (Hplain :
              closed_speeches v1 = closed_speeches v + ended [] /\
              on_speech_ended v1 = on_speech_ended v).
    { unfold ended, len_list. cbn [List.filter length Z.of_nat].
      split; [lia|exact Hc1]. }
    destruct (len_list _ <? _); [exact Hplain|].
    destruct (Qltb _ _); cbn [andb negb].
    + destruct (is_speech_active v1) eqn:Ea; cbn [negb]; [exact Hplain|].
      match goal with
      | |- context [_trigger_speech_started ?v2] =>
          destruct (trigger_speech_started_balance v2 (fun n => clock (S n)))
            as (H1 & H2);
          assert (Hb2 : closed_speeches v2 = closed_speeches v) by exact Hb1
      end.
      cbv zeta in H1, H2. rewrite H1, H2, Hb2. split; [reflexivity|exact Hc1].
    + destruct (is_speech_active v1) eqn:Ea; [|exact Hplain].
      destruct (speech_start_time v1) as [start|]; [|exact Hplain].
      destruct (truthy_time start); [|exact Hplain].
      destruct (Qle_bool _ _).
      * destruct (trigger_speech_ended_balance v1 (fun n => clock (S n)))
          as (H1 & H2); [congruence|].
        cbv zeta in H1, H2. rewrite H1, H2, Hb1. split; [reflexivity|exact Hc1].
      * unfold Clock.ret. cbn [fst snd]. split; [|exact Hc1].
        rewrite <- Hb1. unfold closed_speeches, active, filter_short, ended, len_list.
        cbn. rewrite Ea. lia.
Qed.

Lemma run_balance (ops : list Op) (v : EnhancedVAD.t) (clock : Clock.t) :
  on_speech_ended v = true ->
  forallb (fun o => negb (is_reset o)) ops = true ->
  let r := run ops v clock in
  closed_speeches (snd (fst r)) = closed_speeches v + ended (fst (fst r)).
Proof.
  revert v clock. induction ops as [|o rest IH]; intros v clock Hcb Hops.
  - cbn. unfold ended, len_list. cbn. lia.
  - cbn [forallb] in Hops. apply andb_true_iff in Hops as (Ho & Hrest).
    apply negb_true_iff in Ho.
    pose proof (step_balance o v clock Hcb Ho) as Hstep. cbv zeta in Hstep.
    cbn [run]. unfold Clock.bind, Clock.ret.
    destruct (step o v clock) as [[called v1] clock1]. cbn [fst snd] in Hstep.
    destruct Hstep as (H1 & H2).
    specialize (IH v1 clock1 (eq_trans H2 Hcb) Hrest). cbv zeta in IH.
    destruct (run rest v1 clock1) as [[called' v2] clock2]. cbn [fst snd] in *.
    rewrite IH, H1. unfold ended, len_list.
    rewrite List.filter_app, length_app. lia.
Qed.

(** X20: the detector loses no speech.  In a run of events of the
    upstream detector and of audio frames on a new detector with the
    callback [on_speech_ended], without [reset], every speech counted in
    [total_speech_events] is either reported to [on_speech_ended],
    counted in [filtered_events], or still active. *)
Theorem speech_events_accounted
    (sensitivity : Q) (min_speech_ms debounce : Z) (started : bool)
    (ops : list Op) (clock : Clock.t) :
  forallb (fun o => negb (is_reset o)) ops = true ->
  let r := Clock.run (run ops (init sensitivity min_speech_ms debounce started true))
                     clock in
  total_speech_events (snd r) =
  ended (fst r) + filtered_events (snd r) + active (snd r).
Proof.
  intros Hops r.
  pose proof (run_balance ops (init sensitivity min_speech_ms debounce started true)
                clock eq_refl Hops) as H.
  cbv zeta in H. unfold closed_speeches in H. cbn in H.
  unfold r, Clock.run. lia.
Qed.

Lemma speech_events_accounted_witness :
  let r := Clock.run
             (run [OpDeepgram "SpeechStarted"; OpDeepgram "UtteranceEnd"]
                  (init (7 # 10) 200 50 true true))
             (Clock.of_list [100; 100; 101; 101]%Q) in
  total_speech_events (snd r) =
  ended (fst r) + filtered_events (snd r) + active (snd r).
Proof.
  exact (speech_events_accounted (7 # 10) 200 50 true
           [OpDeepgram "SpeechStarted"; OpDeepgram "UtteranceEnd"]
           (Clock.of_list [100; 100; 101; 101]%Q) eq_refl).
Defined.

Lemma deque_append_bound {A} (maxlen : Z) (x : A) (d : list A) :
  len_list d <= maxlen -> len_list (deque_append maxlen x d) <= maxlen.
Proof.
  unfold deque_append, len_list. intros H.
  destruct (maxlen <? _) eqn:E.
  - destruct d; cbn [app tl length] in *; rewrite ?length_app; cbn [length]; lia.
  - apply Z.ltb_ge in E. exact E.
Qed.

Lemma trigger_speech_started_well_formed (v : EnhancedVAD.t) (clock : Clock.t) :
  well_formed v -> well_formed (snd (fst (_trigger_speech_started v clock))).
Proof.
  intros Hwf. unfold _trigger_speech_started.
  destruct (is_speech_active v) eqn:E; [exact Hwf|].
  destruct Hwf as (Hw & _ & _). unfold well_formed. cbn.
  split; [exact Hw|]. split; [eauto|discriminate].
Qed.

Lemma ended_well_formed (v v' : EnhancedVAD.t) :
  energy_buffer v' = energy_buffer v ->
  energy_window_size v' = energy_window_size v ->
  is_speech_active v' = false ->
  speech_start_time v' = None ->
  well_formed v -> well_formed v'.
Proof.
  intros Hb Hs Ha Ht (Hw & _ & _). unfold well_formed.
  rewrite Hb, Hs, Ha, Ht. split; [exact Hw|]. split; [discriminate|reflexivity].
Qed.

Lemma trigger_speech_ended_well_formed (v : EnhancedVAD.t) (clock : Clock.t) :
  well_formed v -> well_formed (snd (fst (_trigger_speech_ended v clock))).
Proof.
  intros Hwf. unfold _trigger_speech_ended.
  destruct (is_speech_active v) eqn:E; cbn [negb]; [|exact Hwf].
  assert (Hend : well_formed (snd (speech_ended v)))
    by (apply (ended_well_formed v); [reflexivity..|exact Hwf]).
  assert (Hshort : well_formed (filter_short v))
    by (apply (ended_well_formed v); [reflexivity..|exact Hwf]).
  destruct (speech_start_time v) as [start|]; [|exact Hend].
  destruct (truthy_time start); [|exact Hend].
  unfold Clock.bind, Clock.time_time.
  destruct (Qltb _ _); [exact Hshort|exact Hend].
Qed.

Lemma step_well_formed (o : Op) (v : EnhancedVAD.t) (clock : Clock.t) :
  well_formed v -> well_formed (snd (fst (step o v clock))).
Proof.
  intros Hwf. destruct o as [event_type|audio_data|]; cbn [step].
  - unfold on_deepgram_vad_event, Clock.bind, Clock.time_time. cbv zeta.
    match goal with
    | |- context [debounced ?v1 _] =>
        assert (Hwf1 : well_formed v1) by exact Hwf;
        destruct (debounced v1 (clock 0%nat)); [exact Hwf1|]
    end.
    match goal with
    | |- context [_trigger_speech_started ?v2] =>
        assert (Hwf2 : well_formed v2) by exact Hwf; set (w := v2) in *
    end.
    clearbody w.
    destruct (String.eqb event_type "SpeechStarted");
      [apply trigger_speech_started_well_formed; exact Hwf2|].
    destruct (String.eqb event_type "UtteranceEnd");
      [apply trigger_speech_ended_well_formed; exact Hwf2|].
    exact Hwf2.
  - unfold process_audio_frame, Clock.bind, Clock.time_time. cbv zeta.
    set (v1 := with_inputs v (last_deepgram_event v) (window_after audio_data v)).
    assert (Hwf1 : well_formed v1).
    { destruct Hwf as (Hw & Hs). split; [|exact Hs].
      apply deque_append_bound. exact Hw. }
    clearbody v1.
    destruct (len_list _ <? _); [exact Hwf1|].
    destruct (Qltb _ _); cbn [andb negb].
    + destruct (is_speech_active v1) eqn:Ea; cbn [negb]; [exact Hwf1|].
      apply trigger_speech_started_well_formed.
      destruct Hwf1 as (Hw & Hs1 & Hs2). unfold well_formed. cbn.
      split; [exact Hw|]. split; [exact Hs1|exact Hs2].
    + destruct (is_speech_active v1) eqn:Ea; [|exact Hwf1].
      destruct (speech_start_time v1) as [start|] eqn:Es; [|exact Hwf1].
      destruct (truthy_time start); [|exact Hwf1].
      destruct (Qle_bool _ _).
      * apply trigger_speech_ended_well_formed. exact Hwf1.
      * apply (ended_well_formed v1); [reflexivity..|exact Hwf1].
  - destruct Hwf as (Hw & _). unfold Clock.ret, well_formed, reset. cbn.
    split; [|split; [discriminate|reflexivity]].
    unfold len_list in *. cbn. lia.
Qed.

Lemma run_well_formed (ops : list Op) (v : EnhancedVAD.t) (clock : Clock.t) :
  well_formed v -> well_formed (snd (fst (run ops v clock))).
Proof.
  revert v clock. induction ops as [|o rest IH]; intros v clock Hwf; [exact Hwf|].
  pose proof (step_well_formed o v clock Hwf) as Hstep.
  cbn [run]. unfold Clock.bind, Clock.ret.
  destruct (step o v clock) as [[called v1] clock1]. cbn [fst snd] in Hstep.
  specialize (IH v1 clock1 Hstep).
  destruct (run rest v1 clock1) as [[called' v2] clock2]. exact IH.
Qed.

Lemma step_window_size (o : Op) (v : EnhancedVAD.t) (clock : Clock.t) :
  energy_window_size (snd (fst (step o v clock))) = energy_window_size v.
Proof.
  destruct o; cbn [step];
    unfold on_deepgram_vad_event, process_audio_frame, _trigger_speech_started,
      _trigger_speech_ended, speech_ended, filter_short, Clock.bind,
      Clock.time_time, Clock.ret, reset;
    cbv zeta;
    repeat match goal with
           | |- context [if ?b then _ else _] => destruct b
           | |- context [match ?x with Some _ => _ | None => _ end] => destruct x
           end;
    reflexivity.
Qed.

Lemma run_window_size (ops : list Op) (v : EnhancedVAD.t) (clock : Clock.t) :
  energy_window_size (snd (fst (run ops v clock))) = energy_window_size v.
Proof.
  revert v clock. induction ops as [|o rest IH]; intros v clock; [reflexivity|].
  pose proof (step_window_size o v clock) as Hstep.
  cbn [run]. unfold Clock.bind, Clock.ret.
  destruct (step o v clock) as [[called v1] clock1]. cbn [fst snd] in Hstep.
  specialize (IH v1 clock1).
  destruct (run rest v1 clock1) as [[called' v2] clock2]. cbn [fst snd] in *.
  congruence.
Qed.

(** X21: whatever reaches a new detector (events of the upstream
    detector, audio frames, [reset]), the energy window never holds more
    than its ten frames, and a start time is recorded exactly while a
    speech is active. *)
Theorem vad_state_well_formed
    (sensitivity : Q) (min_speech_ms debounce : Z) (started ended : bool)
    (ops : list Op) (clock : Clock.t) :
  let v := snd (Clock.run (run ops (init sensitivity min_speech_ms debounce
                                         started ended)) clock) in
  len_list (energy_buffer v) <= 10 /\
  (is_speech_active v = true -> exists start, speech_start_time v = Some start) /\
  (is_speech_active v = false -> speech_start_time v = None).
Proof.
  intros v.
  assert (Hwf : well_formed v).
  { apply run_well_formed. unfold well_formed, len_list. cbn.
    split; [lia|]. split; [discriminate|reflexivity]. }
  assert (Hsize : energy_window_size v = 10)
    by (unfold v, Clock.run; rewrite run_window_size; reflexivity).
  destruct Hwf as (Hw & Hs). split; [lia|exact Hs].
Qed.

End VADRunFacts.

(** ** The interruption handler, continued *)

Section HandlerRunFacts.
Import Py InterruptionHandler HandlerRuns.

Lemma latencies_keep_last (l : list Q) :
  (if 100 <? len_list l then last_slice 100 l else l) = keep_last 100 l.
Proof.
  unfold last_slice, slice_from, len_list, keep_last.
  destruct (100 <? Z.of_nat (length l)) eqn:E.
  - apply Z.ltb_lt in E. change (- (100) <? 0) with true. cbv iota.
    f_equal. lia.
  - apply Z.ltb_ge in E. replace (length l - 100)%nat with 0%nat by lia.
    reflexivity.
Qed.

Lemma handle_barge_in_consistent (h : InterruptionHandler.t) (clock : Clock.t) :
  state h = SPEAKING ->
  consistent h -> consistent (fst (_handle_barge_in h clock)).
Proof.
  intros Hs (Hl & Ht & Hn).
  unfold _handle_barge_in, Clock.bind, Clock.time_time.
  destruct (AudioPlaybackController.interrupt _ _) as [[stop pc] clock1].
  cbv zeta. rewrite latencies_keep_last. unfold Clock.ret, consistent.
  unfold _transition_state. rewrite Hs.
  cbn -[keep_last Z.min Z.add len_list].
  assert (Hlen : forall x,
            len_list (keep_last 100 (interruption_latencies h ++ [x])) =
            Z.min 100 (total_interruptions h + 1)).
  { intros x. unfold len_list in *. rewrite keep_last_length, length_app.
    cbn [length]. lia. }
  destruct (on_interruption h), (on_state_change h);
    cbn -[keep_last Z.min Z.add len_list];
    (split; [apply Hlen|]); (split; [lia|]);
    rewrite ?Forall_app; repeat split; try exact Hn;
    repeat constructor.
Qed.

Lemma step_consistent_handler (o : Op) (h : InterruptionHandler.t)
    (clock : Clock.t) :
  consistent h -> consistent (fst (step o h clock)).
Proof.
  intros Hc.
  assert (Htrans : forall new_state,
            new_state <> INTERRUPTED -> consistent (_transition_state new_state h)).
  { intros new_state Hne. destruct Hc as (Hl & Ht & Hn).
    unfold consistent, _transition_state. cbn -[Z.min len_list].
    split; [exact Hl|]. split; [exact Ht|].
    destruct (on_state_change h); [|exact Hn].
    apply Forall_app. split; [exact Hn|]. constructor; [|constructor].
    destruct new_state; cbn; first [exact I | contradiction]. }
  destruct o; cbn [step]; unfold Clock.ret, Clock.bind; cbn [fst].
  - unfold on_speech_started. destruct (negb (enabled h)); [exact Hc|].
    unfold Clock.bind, Clock.time_time.
    destruct (debounced h (clock 0%nat)); [exact Hc|].
    cbv zeta.
    match goal with
    | |- context [state ?h1] =>
        assert (Hc1 : consistent h1) by exact Hc; set (w := h1) in *
    end.
    clearbody w.
    destruct (state w) eqn:Es; try exact Hc1.
    apply handle_barge_in_consistent; assumption.
  - unfold on_speech_ended. destruct (negb (enabled h)); [exact Hc|].
    unfold Clock.bind, Clock.time_time, Clock.ret. cbn [fst].
    destruct (speech_start_time h) as [start|]; [|exact Hc].
    destruct (truthy_time start && _); exact Hc.
  - apply Htrans. discriminate.
  - apply Htrans. discriminate.
  - apply Htrans. discriminate.
  - unfold queue_speech, Clock.bind.
    destruct (SpeechQueue.add text priority (speech_queue h) clock) as [[sid sq] c1].
    exact Hc.
  - unfold get_next_speech.
    destruct (SpeechQueue.get_next (speech_queue h)) as [speech sq]. exact Hc.
  - exact Hc.
  - exact Hc.
Qed.

Lemma run_consistent_handler (ops : list Op) (h : InterruptionHandler.t)
    (clock : Clock.t) :
  consistent h -> consistent (fst (run ops h clock)).
Proof.
  revert h clock. induction ops as [|o rest IH]; intros h clock Hc; [exact Hc|].
  pose proof (step_consistent_handler o h clock Hc) as Hstep.
  cbn [run]. unfold Clock.bind.
  destruct (step o h clock) as [h1 clock1]. apply IH. exact Hstep.
Qed.

(** X22: in every run of a new handler, the handler holds one latency
    for each of its last 100 interruptions: the length of
    [interruption_latencies] is the smaller of 100 and
    [total_interruptions]. *)
Theorem interruption_latencies_last_100
    (pc : AudioPlaybackController.t) (enabled : bool)
    (min_speech_ms stop_target_ms debounce : Z) (confident : bool)
    (ops : list Op) (clock : Clock.t) :
  let h := Clock.run (run ops (init pc enabled min_speech_ms stop_target_ms
                                    debounce confident)) clock in
  len_list (interruption_latencies h) = Z.min 100 (total_interruptions h) /\
  0 <= total_interruptions h.
Proof.
  intros h.
  assert (Hc : consistent h).
  { apply run_consistent_handler. unfold consistent, len_list. cbn.
    split; [reflexivity|]. split; [lia|constructor]. }
  destruct Hc as (Hl & Ht & _). split; assumption.
Qed.

(** X23: a new handler enters [INTERRUPTED] from [SPEAKING] only: in
    every run, each change of state into [INTERRUPTED] that the handler
    reports to [on_state_change] has [SPEAKING] as its old state. *)
Theorem interrupted_only_from_speaking
    (pc : AudioPlaybackController.t) (enabled : bool)
    (min_speech_ms stop_target_ms debounce : Z) (confident : bool)
    (ops : list Op) (clock : Clock.t) (old_state : InterruptionState) :
  let h := Clock.run (run ops (init pc enabled min_speech_ms stop_target_ms
                                    debounce confident)) clock in
  In (StateChange old_state INTERRUPTED) (notified h) -> old_state = SPEAKING.
Proof.
  intros h Hin.
  assert (Hc : consistent h).
  { apply run_consistent_handler. unfold consistent, len_list. cbn.
    split; [reflexivity|]. split; [lia|constructor]. }
  destruct Hc as (_ & _ & Hn).
  rewrite List.Forall_forall in Hn. exact (Hn _ Hin).
Qed.

(** A handler with both callbacks starts to speak, and the user talks. *)
Lemma interrupted_only_from_speaking_witness :
  let h := Clock.run
             (run [OpSetCallbacks true true; OpStartSpeaking; OpSpeechStarted]
                  (default (AudioPlaybackController.init AudioBuffer.default)))
             (Clock.of_list [100; 100; 100]%Q) in
  exists old_state,
    In (StateChange old_state INTERRUPTED) (notified h) /\ old_state = SPEAKING.
Proof.
  intros h. exists SPEAKING.
  assert (Hin : In (StateChange SPEAKING INTERRUPTED) (notified h))
    by (vm_compute; right; left; reflexivity).
  split; [exact Hin|].
  exact (interrupted_only_from_speaking
           (AudioPlaybackController.init AudioBuffer.default) true 200 150 50 true
           [OpSetCallbacks true true; OpStartSpeaking; OpSpeechStarted]
           (Clock.of_list [100; 100; 100]%Q) SPEAKING Hin).
Defined.

Lemma step_disabled (o : Op) (h : InterruptionHandler.t) (clock : Clock.t) :
  enabled h = false ->
  let h' := fst (step o h clock) in
  enabled h' = false /\
  (state h <> INTERRUPTED -> state h' <> INTERRUPTED) /\
  total_interruptions h' = total_interruptions h /\
  false_positives h' = false_positives h /\
  AudioPlaybackController.is_playing (playback_controller h') =
    AudioPlaybackController.is_playing (playback_controller h) || is_play o.
Proof.
  intros He. destruct o; cbn [step is_play]; rewrite ?orb_false_r, ?orb_true_r;
    unfold Clock.ret, Clock.bind; cbn [fst].
  - unfold on_speech_started. rewrite He. cbn. auto.
  - unfold on_speech_ended. rewrite He. cbn. auto.
  - cbn. repeat split; auto; discriminate.
  - cbn. repeat split; auto; discriminate.
  - cbn. repeat split; auto; discriminate.
  - unfold queue_speech, Clock.bind.
    destruct (SpeechQueue.add text priority (speech_queue h) clock) as [[sid sq] c1].
    cbn. auto.
  - unfold get_next_speech.
    destruct (SpeechQueue.get_next (speech_queue h)) as [speech sq]. cbn. auto.
  - cbn. auto.
  - cbn. auto.
Qed.

Lemma run_disabled (ops : list Op) (h : InterruptionHandler.t) (clock : Clock.t) :
  enabled h = false ->
  let h' := fst (run ops h clock) in
  (state h <> INTERRUPTED -> state h' <> INTERRUPTED) /\
  total_interruptions h' = total_interruptions h /\
  false_positives h' = false_positives h /\
  AudioPlaybackController.is_playing (playback_controller h') =
    AudioPlaybackController.is_playing (playback_controller h)
    || existsb is_play ops.
Proof.
  revert h clock. induction ops as [|o rest IH]; intros h clock He.
  - cbn. rewrite orb_false_r. auto.
  - pose proof (step_disabled o h clock He) as Hstep. cbv zeta in Hstep.
    cbn [run existsb]. unfold Clock.bind.
    destruct (step o h clock) as [h1 clock1]. cbn [fst] in Hstep.
    destruct Hstep as (He1 & Hs1 & Ht1 & Hf1 & Hp1).
    specialize (IH h1 clock1 He1). cbv zeta in IH.
    destruct IH as (Hs & Ht & Hf & Hp).
    rewrite Ht, Hf, Hp, Hp1, Ht1, Hf1, orb_assoc. auto.
Qed.

(** X24: a handler with [interruption.enabled] off never interrupts.
    Whatever the detector reports and whatever else is called, the
    handler does not enter [INTERRUPTED], counts no interruption and no
    false positive, and playback, once started, is not stopped by it. *)
Theorem disabled_handler_never_interrupts
    (pc : AudioPlaybackController.t)
    (min_speech_ms stop_target_ms debounce : Z) (confident : bool)
    (ops : list Op) (clock : Clock.t) :
  let h := Clock.run (run ops (init pc false min_speech_ms stop_target_ms
                                    debounce confident)) clock in
  state h <> INTERRUPTED /\
  total_interruptions h = 0 /\
  false_positives h = 0 /\
  AudioPlaybackController.is_playing (playback_controller h) =
    AudioPlaybackController.is_playing pc || existsb is_play ops.
Proof.
  intros h.
  pose proof (run_disabled ops (init pc false min_speech_ms stop_target_ms
                                     debounce confident) clock eq_refl) as H.
  cbv zeta in H. destruct H as (Hs & Ht & Hf & Hp).
  unfold h, Clock.run. rewrite Ht, Hf, Hp. cbn.
  split; [apply Hs; discriminate|]. auto.
Qed.

End HandlerRunFacts.

(** ** The conversation context, continued *)

Section FillerFacts.
Import Py Conversation Filler.

Lemma analyze_sentiment_values (text : string) :
  is_sentiment (analyze_sentiment text).
Proof.
  unfold analyze_sentiment, is_sentiment. cbv zeta.
  destruct (any_in _ _); [auto|]. destruct (any_in _ _); auto.
Qed.

Lemma max_str_sentiments (first : string) (rest : list string) :
  is_sentiment first -> List.Forall is_sentiment rest ->
  max_str first rest =
  if existsb (String.eqb "positive") (first :: rest) then "positive"%string
  else if existsb (String.eqb "neutral") (first :: rest) then "neutral"%string
  else "negative"%string.
Proof.
  intros Hf Hr. revert first Hf.
  induction Hr as [|x rest Hx Hr IH]; intros first Hf.
  - destruct Hf as [-> | [-> | ->]]; reflexivity.
  - unfold max_str. cbn [fold_left]. fold (max_str (if String.ltb first x then x else first) rest).
    destruct Hf as [-> | [-> | ->]], Hx as [-> | [-> | ->]];
      match goal with
      | |- context [String.ltb ?a ?b] =>
          let r := eval vm_compute in (String.ltb a b) in
          change (String.ltb a b) with r
      end; cbv iota;
      (rewrite IH by (unfold is_sentiment; auto));
      cbn [existsb String.eqb Ascii.eqb Bool.eqb andb orb];
      repeat match goal with
             | |- context [existsb ?f rest] => destruct (existsb f rest)
             end; reflexivity.
Qed.

Lemma add_turn_settled (speaker text : string) (confidence : Q)
    (c : Conversation.t) (clock : Clock.t) :
  List.Forall (fun turn => is_sentiment (sentiment turn)) (turns c) ->
  settled (fst (add_turn speaker text confidence c clock)).
Proof.
  intros Hv.
  pose proof (add_turn_turns speaker text confidence c clock) as Hturns.
  unfold Clock.run in Hturns.
  unfold settled, user_turns.
  split; [|split].
  - rewrite Hturns. unfold keep_last. apply Forall_drop.
    apply Forall_app. split; [exact Hv|].
    constructor; [|constructor]. cbn. apply analyze_sentiment_values.
  - unfold add_turn, new_turn, Clock.bind, Clock.time_time, Clock.ret.
    reflexivity.
  - unfold add_turn, new_turn, Clock.bind, Clock.time_time, Clock.ret.
    cbn [fst turns user_sentiment].
    destruct (List.filter _ _); [congruence|reflexivity].
Qed.

Lemma add_turns_settled (calls : list Said) (c : Conversation.t)
    (clock : Clock.t) :
  settled c -> settled (fst (add_turns calls c clock)).
Proof.
  revert c clock. induction calls as [|call rest IH]; intros c clock Hc;
    [exact Hc|].
  cbn [add_turns]. unfold Clock.bind.
  pose proof (add_turn_settled (said_speaker call) (said_text call)
                (said_confidence call) c clock (proj1 Hc)) as Hstep.
  destruct (add_turn _ _ _ c clock) as [c' clock']. apply IH. exact Hstep.
Qed.

Lemma conversation_of_settled (call_id : string) (calls : list Said)
    (clock : Clock.t) :
  let c := Clock.run (conversation_of call_id calls) clock in
  settled c /\ len_list (turns c) = Z.min 10 (len_list calls).
Proof.
  unfold Clock.run, conversation_of, init, Clock.bind, Clock.time_time, Clock.ret.
  cbv beta iota zeta.
  match goal with
  | |- context [add_turns calls ?c0 ?clock0] =>
      pose proof (add_turns_turns calls c0 clock0) as H;
      pose proof (add_turns_settled calls c0 clock0) as Hs
  end.
  split.
  - apply Hs. unfold settled, user_turns. cbn.
    split; [constructor|]. split; [reflexivity|congruence].
  - unfold Clock.run in H. cbn [turns map app] in H.
    apply (f_equal (@length Said)) in H; [|cbn; lia].
    rewrite length_map, keep_last_length in H. unfold len_list. lia.
Qed.

(** X25: [user_sentiment] is not the most frequent sentiment of the
    user.  After calls of [add_turn] on a new conversation it is the
    largest, as a string, of the sentiments of the user's turns in the
    history: ["positive"] as soon as one of them is positive, else
    ["neutral"] as soon as one is neutral, else ["negative"]. *)
Theorem user_sentiment_largest
    (call_id : string) (calls : list Said) (clock : Clock.t) :
  let c := Clock.run (conversation_of call_id calls) clock in
  let sentiments := map sentiment (user_turns c) in
  sentiments <> [] ->
  user_sentiment c =
  if existsb (String.eqb "positive") sentiments then "positive"%string
  else if existsb (String.eqb "neutral") sentiments then "neutral"%string
  else "negative"%string.
Proof.
  intros c sentiments Hne.
  destruct (conversation_of_settled call_id calls clock) as ((Hv & _ & Hu) & _).
  fold c in Hv, Hu.
  assert (Hvu : List.Forall is_sentiment sentiments).
  { unfold sentiments, user_turns. apply List.Forall_forall. intros x Hin.
    apply in_map_iff in Hin as (turn & <- & Hin).
    apply filter_In in Hin as (Hin & _).
    rewrite List.Forall_forall in Hv. exact (Hv turn Hin). }
  unfold sentiments in *.
  destruct (user_turns c) as [|turn rest] eqn:E; [contradiction|].
  rewrite Hu by discriminate. cbn [max_of map].
  inversion Hvu as [|x l Hx Hl]; subst.
  apply max_str_sentiments; assumption.
Qed.

(** Two complaints and one thanks of the user: positive. *)
Lemma user_sentiment_largest_witness :
  user_sentiment
    (Clock.run
       (conversation_of "call"
          [{| said_speaker := "user"; said_text := "This is bad";
              said_confidence := 1 |};
           {| said_speaker := "user"; said_text := "Thank you";
              said_confidence := 1 |};
           {| said_speaker := "user"; said_text := "It is terrible";
              said_confidence := 1 |}])
       (fun _ => 1000%Q)) = "positive"%string.
Proof.
  rewrite user_sentiment_largest; [reflexivity|].
  vm_compute. discriminate.
Defined.

(** X26: [metadata["turn_count"]] is the length of the history, not the
    number of turns of the call: after calls of [add_turn] on a new
    conversation it is the number of calls up to ten, and ten from then
    on. *)
Theorem turn_count_is_window_size
    (call_id : string) (calls : list Said) (clock : Clock.t) :
  let c := Clock.run (conversation_of call_id calls) clock in
  turn_count (metadata c) = len_list (turns c) /\
  turn_count (metadata c) = Z.min 10 (len_list calls).
Proof.
  intros c.
  destruct (conversation_of_settled call_id calls clock) as ((_ & Ht & _) & Hl).
  fold c in Ht, Hl. split; [exact Ht|]. rewrite Ht. exact Hl.
Qed.

(** X27: [should_inject_filler] can only be true while the whole call
    has three, six or nine turns: from the tenth turn of a call on,
    [turn_count] stays at ten and no filler is injected any more. *)
Theorem filler_only_at_3_6_9
    (call_id : string) (calls : list Said) (clock : Clock.t) :
  let c := Clock.run (conversation_of call_id calls) clock in
  should_inject_filler c = true ->
  len_list calls = 3 \/ len_list calls = 6 \/ len_list calls = 9.
Proof.
  intros c H.
  destruct (conversation_of_settled call_id calls clock) as ((_ & Ht & _) & Hl).
  fold c in Ht, Hl. unfold should_inject_filler in H. cbv zeta in H.
  destruct (len_list (turns c) <? 3) eqn:E3; [discriminate H|].
  apply Z.ltb_ge in E3.
  apply andb_true_iff in H as (_ & Hmod). apply Z.eqb_eq in Hmod.
  rewrite Ht in Hmod.
  assert (Hn : 0 <= len_list calls) by (unfold len_list; lia).
  assert (Hcases : len_list (turns c) = 3 \/ len_list (turns c) = 4 \/
                   len_list (turns c) = 5 \/ len_list (turns c) = 6 \/
                   len_list (turns c) = 7 \/ len_list (turns c) = 8 \/
                   len_list (turns c) = 9 \/ len_list (turns c) = 10) by lia.
  destruct Hcases as [Hc|[Hc|[Hc|[Hc|[Hc|[Hc|[Hc|Hc]]]]]]];
    rewrite Hc in Hmod, Hl; try discriminate Hmod; lia.
Qed.

(** Thanks of the user, an answer, a question: a filler after three
    turns. *)
Lemma filler_only_at_3_6_9_witness :
  let calls := [{| said_speaker := "user"; said_text := "Thank you";
                   said_confidence := 1 |};
                {| said_speaker := "agent"; said_text := "Sure.";
                   said_confidence := 1 |};
                {| said_speaker := "user"; said_text := "What is next";
                   said_confidence := 1 |}] in
  should_inject_filler (Clock.run (conversation_of "call" calls) (fun _ => 1000%Q))
    = true /\
  (len_list calls = 3 \/ len_list calls = 6 \/ len_list calls = 9).
Proof.
  intros calls.
  assert (H : should_inject_filler
                (Clock.run (conversation_of "call" calls) (fun _ => 1000%Q)) = true)
    by (vm_compute; reflexivity).
  split; [exact H|].
  exact (filler_only_at_3_6_9 "call" calls (fun _ => 1000%Q) H).
Defined.

End FillerFacts.

(** ** The server, continued: the numbers that may be called *)

Section NumberSafetyFacts.
Import Py Server NumberSafety.

Lemma handle_registered_safely (config : Config) (request : Request)
    (active_calls : gmap string CallInfo) (clock : Clock.t) :
  map_Forall (registered_safely config) active_calls ->
  map_Forall (registered_safely config)
             (snd (fst (handle config request active_calls clock))).
Proof.
  intros Hm.
  destruct request
    as [dir cc src dst w answered uuid|cc|cc|ev|dst greet ctx w created uuid
        |cc hung|]; cbn [handle]; try exact Hm.
  - unfold call_initiated.
    destruct (String.eqb dir "incoming"); [|exact Hm].
    destruct (_ <=? _); [exact Hm|].
    destruct (negb answered); [exact Hm|].
    unfold Clock.bind, Clock.time_time, Clock.ret. cbn [fst snd].
    apply map_Forall_insert_2; [|exact Hm].
    split; [reflexivity|]. cbn. discriminate.
  - unfold call_hangup. destruct (active_calls !! cc); [|exact Hm].
    unfold Clock.bind, Clock.time_time, Clock.ret. cbn [fst snd].
    apply map_Forall_delete. exact Hm.
  - unfold _initiate_call.
    destruct (negb (truthy (telnyx_api_key config))); [exact Hm|].
    destruct (truthy dst) eqn:Ht; cbn [negb]; [|exact Hm].
    destruct (existsb (startswith dst) (allowed_prefixes config)) eqn:Ha;
      cbn [negb]; [|exact Hm].
    destruct (existsb (startswith dst) (blocked_prefixes config)) eqn:Hb;
      [exact Hm|].
    destruct (_ <=? _); [exact Hm|].
    destruct created as [id|]; [|exact Hm].
    unfold Clock.bind, Clock.time_time, Clock.ret. cbn [fst snd].
    apply map_Forall_insert_2; [|exact Hm].
    split; [reflexivity|]. intros _. cbn. repeat split; assumption.
  - unfold Clock.ret. cbn [fst snd]. apply map_Forall_empty.
Qed.

Lemma serve_registered_safely (config : Config) (requests : list Request)
    (active_calls : gmap string CallInfo) (clock : Clock.t) :
  map_Forall (registered_safely config) active_calls ->
  map_Forall (registered_safely config)
             (fst (serve config requests active_calls clock)).
Proof.
  revert active_calls clock.
  induction requests as [|request rest IH]; intros active_calls clock Hm;
    [exact Hm|].
  pose proof (handle_registered_safely config request active_calls clock Hm)
    as Hstep.
  cbn [serve]. unfold Clock.bind.
  destruct (handle config request active_calls clock) as [[response m1] clock1].
  apply IH. exact Hstep.
Qed.

(** X28: whatever requests the server has served, every outbound call
    in the registry goes to a number that is not empty, starts with an
    allowed prefix and starts with no blocked prefix; and every entry of
    the registry is under its own call control identifier. *)
Theorem outbound_calls_are_safe
    (config : Config) (requests : list Request) (clock : Clock.t)
    (id : string) (info : CallInfo) :
  Clock.run (serve config requests ∅) clock !! id = Some info ->
  call_control_id info = id /\
  (direction info = "outbound"%string ->
   truthy (to info) = true /\
   existsb (startswith (to info)) (allowed_prefixes config) = true /\
   existsb (startswith (to info)) (blocked_prefixes config) = false).
Proof.
  intros Hin.
  pose proof (serve_registered_safely config requests ∅ clock
                (map_Forall_empty _)) as Hm.
  exact (map_Forall_lookup_1 _ _ _ _ Hm Hin).
Qed.

Lemma outbound_calls_are_safe_witness :
  exists info,
    Clock.run (serve default_config five_calls ∅) (fun _ => 1000%Q)
      !! "call-control-1"%string = Some info /\
    direction info = "outbound"%string /\
    existsb (startswith (to info)) (blocked_prefixes default_config) = false.
Proof.
  assert (Hin : exists info,
             Clock.run (serve default_config five_calls ∅) (fun _ => 1000%Q)
               !! "call-control-1"%string = Some info /\
             direction info = "outbound"%string).
  { eexists. split; vm_compute; reflexivity. }
  destruct Hin as (info & Hin & Hd). exists info.
  split; [exact Hin|]. split; [exact Hd|].
  destruct (outbound_calls_are_safe default_config five_calls (fun _ => 1000%Q)
              "call-control-1" info Hin) as (_ & Hs).
  destruct (Hs Hd) as (_ & _ & Hb). exact Hb.
Defined.

Lemma startswith_empty (s : string) : startswith s "" = true.
Proof. destruct s; reflexivity. Qed.

Lemma split_nonempty (sep : ascii) (s : string) : split sep s <> [].
Proof.
  destruct s as [|c s]; cbn; [discriminate|].
  destruct (Ascii.eqb c sep); [discriminate|].
  destruct (split sep s); discriminate.
Qed.

Lemma split_trailing (sep : ascii) (s : string) :
  exists l, l <> [] /\
    split sep (s +:+ String sep EmptyString) = l ++ [EmptyString].
Proof.
  induction s as [|c s IH].
  - change (EmptyString +:+ String sep EmptyString) with (String sep EmptyString).
    cbn. rewrite Ascii.eqb_refl. exists [EmptyString]. split; [discriminate|reflexivity].
  - change (String c s +:+ String sep EmptyString)
      with (String c (s +:+ String sep EmptyString)).
    cbn [split]. destruct IH as (l & Hl & ->).
    destruct (Ascii.eqb c sep).
    + exists (EmptyString :: l). split; [discriminate|reflexivity].
    + destruct l as [|first l0]; [contradiction|]. cbn [app].
      exists (String c first :: l0). split; [discriminate|reflexivity].
Qed.

Lemma blocked_by_empty_prefix (value : string) :
  value = EmptyString \/ (exists s, value = s +:+ ",") ->
  In EmptyString (blocked_prefixes_of (Some value)).
Proof.
  unfold blocked_prefixes_of, default, from_option, id.
  intros [->|(s & ->)]; [left; reflexivity|].
  destruct (split_trailing "," s) as (l & _ & Hl). rewrite Hl.
  apply in_or_app. right. left. reflexivity.
Qed.

(** X29: an empty prefix blocks every number.  When the variable
    [BLOCKED_PREFIXES] is set to the empty string, or to a list that
    ends with a comma, [split(",")] gives an empty prefix, every number
    starts with it, and [_initiate_call] refuses every call with an
    [HTTPException] and leaves the registry as it is. *)
Theorem empty_blocked_prefix_blocks_all
    (config : Config) (value : string)
    (to_number : string) (greeting : option string) (context : string)
    (webrtc : nat) (created : option string) (uuid : string)
    (active_calls : gmap string CallInfo) (clock : Clock.t) :
  blocked_prefixes config = blocked_prefixes_of (Some value) ->
  value = EmptyString \/ (exists s, value = s +:+ ",") ->
  exists code,
    Clock.run (_initiate_call config to_number greeting context webrtc created
                              uuid active_calls) clock =
    (HTTPException code, active_calls).
Proof.
  intros Hconfig Hvalue.
  assert (Hb : existsb (startswith to_number) (blocked_prefixes config) = true).
  { apply existsb_exists. exists EmptyString. split; [|apply startswith_empty].
    rewrite Hconfig. apply blocked_by_empty_prefix. exact Hvalue. }
  unfold Clock.run, _initiate_call. rewrite Hb.
  destruct (negb (truthy (telnyx_api_key config))); [eexists; reflexivity|].
  destruct (negb (truthy to_number)); [eexists; reflexivity|].
  destruct (negb (existsb _ _)); eexists; reflexivity.
Qed.

(** The defaults with [BLOCKED_PREFIXES="+3580700,"]: a call to a
    Finnish mobile number is refused with 403. *)
Lemma empty_blocked_prefix_blocks_all_witness :
  Clock.run
    (_initiate_call
       {| telnyx_api_key := "KEY"; telnyx_phone_number := "+358401234567";
          max_concurrent_calls := 5;
          allowed_prefixes := allowed_prefixes_of None;
          blocked_prefixes := blocked_prefixes_of (Some "+3580700,"%string) |}
       "+358401112223" None "" 0 (Some "call-control-1"%string) "uuid-1" ∅)
    (fun _ => 1000%Q) = (HTTPException 403, ∅).
Proof.
  destruct (empty_blocked_prefix_blocks_all
              {| telnyx_api_key := "KEY"; telnyx_phone_number := "+358401234567";
                 max_concurrent_calls := 5;
                 allowed_prefixes := allowed_prefixes_of None;
                 blocked_prefixes := blocked_prefixes_of (Some "+3580700,"%string) |}
              "+3580700," "+358401112223" None "" 0
              (Some "call-control-1"%string) "uuid-1" ∅ (fun _ => 1000%Q)
              eq_refl (or_intror (ex_intro _ "+3580700"%string eq_refl)))
    as (code & H).
  rewrite H. vm_compute in H. injection H as <-. reflexivity.
Defined.

End NumberSafetyFacts.
